(** * Traycer Lite: the plan/task dependency model

    A shallow embedding of the plan service of Traycer Lite
    (services/planService.ts, utils/helpers.ts and the scheduler of the
    TracerLite class) together with the properties of its dependency
    graph, its mutators, its scheduler and its persistence functions. *)

From Stdlib Require Import String Ascii List ZArith Lia Bool Arith Permutation.
From Stdlib Require Import DecimalString Sorted.
Import ListNotations.

Local Open Scope string_scope.
Local Open Scope list_scope.

(** ** Insertion-ordered sets

    A JavaScript [Set] keeps its elements in insertion order, [add] does
    nothing on an element already present and [delete] removes it.  The
    equality test is a parameter: on strings it is string equality, on
    values read from JSON it is SameValueZero. *)

Module JsSet.
Section Ops.
Context {K : Type} (eqb : K -> K -> bool).

Definition has (x : K) (s : list K) : bool := existsb (eqb x) s.

Definition add (x : K) (s : list K) : list K :=
  if has x s then s else s ++ [x].

Definition delete (x : K) (s : list K) : list K :=
  filter (fun y => negb (eqb x y)) s.
End Ops.
End JsSet.

(** ** The task graph validator (planService.ts)

    [hasCycle] is the closure of [detectCircularDependencies]: it shares
    [visited], [recursionStack] and [circularDeps] with its caller, so the
    three are threaded through as a state.  Tasks are seen through their
    [id] and [dependencies] only.  The recursion of the source is bounded
    here by a fuel; [None] means the fuel ran out. *)

Module Validator.
Section Dfs.
Context {K : Type} (eqb : K -> K -> bool).

Record state := mkState {
  visited : list K;
  recursionStack : list K;
  circularDeps : list (K * K)
}.

Definition init : state := mkState [] [] [].

(** [tasks.find(t => t.id === taskId)] *)
Definition find_task (tasks : list (K * list K)) (taskId : K)
  : option (K * list K) :=
  find (fun t => eqb (fst t) taskId) tasks.

(** The [for (const depId of task.dependencies)] loop of [hasCycle];
    [rec] is the recursive call. *)
Fixpoint hasCycle_loop (rec : K -> state -> option (bool * state))
    (taskId : K) (deps : list K) (st : state) : option (bool * state) :=
  match deps with
  | [] =>
      Some (false, mkState (visited st)
                           (JsSet.delete eqb taskId (recursionStack st))
                           (circularDeps st))
  | depId :: rest =>
      match rec depId st with
      | None => None
      | Some (true, st') =>
          Some (true, mkState (visited st') (recursionStack st')
                              (circularDeps st' ++ [(taskId, depId)]))
      | Some (false, st') => hasCycle_loop rec taskId rest st'
      end
  end.

Fixpoint hasCycle (fuel : nat) (tasks : list (K * list K)) (taskId : K)
    (st : state) : option (bool * state) :=
  match fuel with
  | O => None
  | S fuel' =>
      if JsSet.has eqb taskId (recursionStack st) then Some (true, st)
      else if JsSet.has eqb taskId (visited st) then Some (false, st)
      else
        let st1 := mkState (JsSet.add eqb taskId (visited st))
                           (JsSet.add eqb taskId (recursionStack st))
                           (circularDeps st) in
        match find_task tasks taskId with
        | Some task =>
            hasCycle_loop (hasCycle fuel' tasks) taskId (snd task) st1
        | None => hasCycle_loop (hasCycle fuel' tasks) taskId [] st1
        end
  end.

(** [tasks.forEach(task => { if (!visited.has(task.id)) hasCycle(task.id) })] *)
Fixpoint roots (fuel : nat) (tasks : list (K * list K))
    (todo : list (K * list K)) (st : state) : option state :=
  match todo with
  | [] => Some st
  | task :: rest =>
      if JsSet.has eqb (fst task) (visited st) then roots fuel tasks rest st
      else
        match hasCycle fuel tasks (fst task) st with
        | None => None
        | Some (_, st') => roots fuel tasks rest st'
        end
  end.

(** Every id the traversal can meet: the ids of the tasks and the ids
    they depend on. *)
Definition all_keys (tasks : list (K * list K)) : list K :=
  map fst tasks ++ concat (map snd tasks).

Definition detect_fuel (fuel : nat) (tasks : list (K * list K))
  : option (list (K * K)) :=
  option_map circularDeps (roots fuel tasks tasks init).

(** The recursion is never deeper than the number of ids plus one. *)
Definition detect (tasks : list (K * list K)) : option (list (K * K)) :=
  detect_fuel (S (length (all_keys tasks))) tasks.

(** [findInvalidDependencies], as pairs (task id, missing id). *)
Definition invalid (tasks : list (K * list K)) : list (K * K) :=
  let taskIds := fold_left (fun s t => JsSet.add eqb (fst t) s) tasks [] in
  flat_map (fun task =>
    flat_map (fun depId =>
      if JsSet.has eqb depId taskIds then [] else [(fst task, depId)])
      (snd task)) tasks.
End Dfs.
End Validator.

(** ** The data model (types.ts) *)

Inductive TaskStatus := pending | in_progress | completed | failed.
Inductive Priority := low | medium | high.
Inductive PlanStatus :=
  draft | approved | executing | plan_completed | plan_failed.

(** A [Date] is its time value in milliseconds, or an invalid date. *)
Inductive Date := Date_ms (ms : Z) | Date_invalid.

Record Task := mkTask {
  id : string;
  title : string;
  description : string;
  files : list string;
  dependencies : list string;
  status : TaskStatus;
  estimatedTime : string;
  priority : Priority;
  code : option string
}.

Record Plan := mkPlan {
  plan_id : string;
  plan_title : string;
  plan_description : string;
  tasks : list Task;
  created : Date;
  updated : Date;
  plan_status : PlanStatus
}.

Definition TaskStatus_eqb (a b : TaskStatus) : bool :=
  match a, b with
  | pending, pending | in_progress, in_progress
  | completed, completed | failed, failed => true
  | _, _ => false
  end.

Definition set_tasks (p : Plan) (ts : list Task) (now : Date) : Plan :=
  mkPlan (plan_id p) (plan_title p) (plan_description p) ts
         (created p) now (plan_status p).

Definition set_dependencies (t : Task) (deps : list string) : Task :=
  mkTask (id t) (title t) (description t) (files t) deps (status t)
         (estimatedTime t) (priority t) (code t).

Definition set_status (t : Task) (s : TaskStatus) : Task :=
  mkTask (id t) (title t) (description t) (files t) (dependencies t) s
         (estimatedTime t) (priority t) (code t).

(** ** Cycle detection on typed tasks *)

Definition graph_of (ts : list Task) : list (string * list string) :=
  map (fun t => (id t, dependencies t)) ts.

(** [`${taskId} -> ${depId}`] *)
Definition edge_label (e : string * string) : string :=
  fst e ++ " -> " ++ snd e.

Definition detectCircularDependencies (ts : list Task)
  : option (list string) :=
  option_map (map edge_label) (Validator.detect String.eqb (graph_of ts)).

Definition invalid_label (e : string * string) : string :=
  fst e ++ " depends on non-existent task " ++ snd e.

Definition findInvalidDependencies (ts : list Task) : list string :=
  map invalid_label (Validator.invalid String.eqb (graph_of ts)).

(** ** The scheduler (TracerLite.topologicalSort) *)

Module Topo.
Record state := mkState {
  visited : list string;
  visiting : list string;
  result : list Task
}.

Definition init : state := mkState [] [] [].

(** [new Map(tasks.map(task => [task.id, task]))] followed by [get]: the
    last task with a given id wins. *)
Definition taskMap_get (ts : list Task) (taskId : string) : option Task :=
  find (fun t => String.eqb (id t) taskId) (rev ts).

(** [task.dependencies.forEach(depId => visit(depId))] *)
Fixpoint forEach (rec : string -> state -> option state)
    (deps : list string) (st : state) : option state :=
  match deps with
  | [] => Some st
  | depId :: rest =>
      match rec depId st with
      | None => None
      | Some st' => forEach rec rest st'
      end
  end.

Fixpoint visit (fuel : nat) (ts : list Task) (taskId : string)
    (st : state) : option state :=
  match fuel with
  | O => None
  | S fuel' =>
      if JsSet.has String.eqb taskId (visiting st) then Some st
      else if JsSet.has String.eqb taskId (visited st) then Some st
      else
        let st1 := mkState (visited st)
                           (JsSet.add String.eqb taskId (visiting st))
                           (result st) in
        match taskMap_get ts taskId with
        | Some task =>
            match forEach (visit fuel' ts) (dependencies task) st1 with
            | None => None
            | Some st2 =>
                Some (mkState
                        (JsSet.add String.eqb taskId (visited st2))
                        (JsSet.delete String.eqb taskId (visiting st2))
                        (result st2 ++ [task]))
            end
        | None => Some st1
        end
  end.

Definition sort_fuel (fuel : nat) (ts : list Task) : option (list Task) :=
  option_map result (forEach (visit fuel ts) (map id ts) init).
End Topo.

Definition topologicalSort (ts : list Task) : option (list Task) :=
  Topo.sort_fuel (S (length (Validator.all_keys (graph_of ts)))) ts.

(** [tasks.find(t => t.id === taskId)] on typed tasks. *)
Definition find_by_id (ts : list Task) (taskId : string) : option Task :=
  find (fun t => String.eqb (id t) taskId) ts.

(** ** Executable tasks (helpers.ts and planService.ts) *)

Definition canExecuteTask (task : Task) (p : Plan) : bool :=
  if Nat.eqb (length (dependencies task)) 0 then true
  else
    forallb (fun depId =>
               match find_by_id (tasks p) depId with
               | Some dependentTask => TaskStatus_eqb (status dependentTask) completed
               | None => false
               end)
            (dependencies task).

Definition getExecutableTasks (p : Plan) : list Task :=
  filter (fun task => TaskStatus_eqb (status task) pending && canExecuteTask task p)
         (tasks p).

Definition getExecutableTaskIds (p : Plan) : list string :=
  let pendingTasks := filter (fun task => TaskStatus_eqb (status task) pending) (tasks p) in
  let completedTaskIds :=
    fold_left (fun s x => JsSet.add String.eqb x s)
      (map id (filter (fun task => TaskStatus_eqb (status task) completed) (tasks p)))
      [] in
  map id
    (filter (fun task =>
               forallb (fun depId => JsSet.has String.eqb depId completedTaskIds)
                       (dependencies task))
            pendingTasks).

(** ** JavaScript values

    The builder, the importer and [modifyTask] work on values whose type
    TypeScript does not check at run time ([any]).  They are modelled by
    the values JSON can produce, and the [Date] objects a plan holds.
    [undefined] is [None] in [option value].

    Strings are the UTF-8 bytes of the JavaScript string.  A number is the
    exact decimal [m * 10^e] of its literal, normalised ([m] not a multiple
    of ten, zero as [0 * 10^0]); the rounding of IEEE doubles is not
    modelled.  Properties are kept in insertion order; the special place of
    integer-like keys in the enumeration order is not modelled. *)

Module Js.
Local Open Scope string_scope.

#[local] Unset Elimination Schemes.
Inductive value :=
| VNull
| VBool (b : bool)
| VNum (m e : Z)
| VStr (s : string)
| VArr (items : list value)
| VObj (props : list (string * value))
| VDate (d : Date).
#[local] Set Elimination Schemes.

(** ToBoolean *)
Definition truthy (v : value) : bool :=
  match v with
  | VNull => false
  | VBool b => b
  | VNum m _ => negb (m =? 0)%Z
  | VStr s => negb (s =? "")
  | VArr _ | VObj _ | VDate _ => true
  end.

Definition truthy_opt (o : option value) : bool :=
  match o with
  | Some v => truthy v
  | None => false
  end.

Fixpoint obj_get (k : string) (props : list (string * value)) : option value :=
  match props with
  | [] => None
  | (k', v) :: rest => if k' =? k then Some v else obj_get k rest
  end.

(** Defining a property: an existing key keeps its place. *)
Fixpoint obj_set (k : string) (v : value) (props : list (string * value))
  : list (string * value) :=
  match props with
  | [] => [(k, v)]
  | (k', v') :: rest =>
      if k' =? k then (k, v) :: rest else (k', v') :: obj_set k v rest
  end.

Definition string_of_nat (n : nat) : string :=
  NilZero.string_of_uint (Nat.to_uint n).

Definition string_of_Z (z : Z) : string :=
  NilZero.string_of_int (Z.to_int z).

(** *** JSON.stringify(value, null, 2) *)

Definition hex_digit (n : nat) : ascii :=
  if (n <? 10)%nat then ascii_of_nat (48 + n) else ascii_of_nat (87 + n).

(** The double quote. *)
Definition dquote : ascii := "034"%char.

(** QuoteJSONString on one character. *)
Definition quote_char (c : ascii) : string :=
  let n := nat_of_ascii c in
  if Ascii.eqb c dquote then String "\" (String dquote "")
  else if Ascii.eqb c "\" then "\\"
  else if (n =? 8)%nat then "\b"
  else if (n =? 12)%nat then "\f"
  else if (n =? 10)%nat then "\n"
  else if (n =? 13)%nat then "\r"
  else if (n =? 9)%nat then "\t"
  else if (n <? 32)%nat then
    "\u00" ++ String (hex_digit (n / 16)) (String (hex_digit (n mod 16)) "")
  else String c "".

Fixpoint quote_body (s : string) : string :=
  match s with
  | EmptyString => ""
  | String c rest => quote_char c ++ quote_body rest
  end.

Definition quote (s : string) : string :=
  String dquote (quote_body s ++ String dquote "").

Fixpoint zeros (n : nat) : string :=
  match n with
  | O => ""
  | S n' => String "0" (zeros n')
  end.

(** Number::toString on the decimal [m * 10^e]. *)
Definition number_to_string (m e : Z) : string :=
  match m with
  | Z0 => "0"
  | _ =>
      let sign := if (m <? 0)%Z then "-" else "" in
      let s := NilEmpty.string_of_uint (Pos.to_uint (Z.to_pos (Z.abs m))) in
      let k := Z.of_nat (String.length s) in
      let n := (k + e)%Z in
      sign ++
      (if ((k <=? n) && (n <=? 21))%Z then s ++ zeros (Z.to_nat (n - k))
       else if ((0 <? n) && (n <=? 21))%Z then
         substring 0 (Z.to_nat n) s ++ "." ++
         substring (Z.to_nat n) (Z.to_nat (k - n)) s
       else if ((-6 <? n) && (n <=? 0))%Z then
         "0." ++ zeros (Z.to_nat (- n)) ++ s
       else
         let ex := ((if (n - 1 <? 0)%Z then "-" else "+") ++
                    string_of_Z (Z.abs (n - 1)))%string in
         if (k =? 1)%Z then s ++ "e" ++ ex
         else substring 0 1 s ++ "." ++
              substring 1 (Z.to_nat (k - 1)) s ++ "e" ++ ex)
  end.

Definition newline : string := String (ascii_of_nat 10) "".

(** [print iso ind v] is the text of [v] at indentation [ind], with a gap of
    two spaces.  [iso] is [Date.prototype.toISOString]; a date goes through
    its [toJSON]. *)
Fixpoint print (iso : Z -> string) (ind : string) (v : value) : string :=
  match v with
  | VNull => "null"
  | VBool true => "true"
  | VBool false => "false"
  | VNum m e => number_to_string m e
  | VStr s => quote s
  | VDate (Date_ms t) => quote (iso t)
  | VDate Date_invalid => "null"
  | VArr [] => "[]"
  | VArr (x :: xs) =>
      let ind' := ind ++ "  " in
      "[" ++ newline ++ ind' ++ print iso ind' x ++
      (fix more (l : list value) : string :=
         match l with
         | [] => ""
         | y :: rest => "," ++ newline ++ ind' ++ print iso ind' y ++ more rest
         end) xs ++
      newline ++ ind ++ "]"
  | VObj [] => "{}"
  | VObj ((k, x) :: xs) =>
      let ind' := ind ++ "  " in
      "{" ++ newline ++ ind' ++ quote k ++ ": " ++ print iso ind' x ++
      (fix more (l : list (string * value)) : string :=
         match l with
         | [] => ""
         | (k', y) :: rest =>
             "," ++ newline ++ ind' ++ quote k' ++ ": " ++ print iso ind' y ++
             more rest
         end) xs ++
      newline ++ ind ++ "}"
  end.

Definition JSON_stringify (iso : Z -> string) (v : value) : string :=
  print iso "" v.

(** *** JSON.parse *)

Definition is_ws (c : ascii) : bool :=
  let n := nat_of_ascii c in
  ((n =? 32) || (n =? 9) || (n =? 10) || (n =? 13))%nat.

Fixpoint skip_ws (s : string) : string :=
  match s with
  | String c rest => if is_ws c then skip_ws rest else s
  | EmptyString => s
  end.

Definition is_digit (c : ascii) : bool :=
  let n := nat_of_ascii c in ((48 <=? n) && (n <=? 57))%nat.

Definition digit_val (c : ascii) : Z := Z.of_nat (nat_of_ascii c - 48).

(** Reads a run of digits: its value on top of [acc], how many there
    were, and the rest. *)
Fixpoint read_digits (s : string) (acc : Z) (n : nat) : Z * nat * string :=
  match s with
  | String c rest =>
      if is_digit c then read_digits rest (10 * acc + digit_val c)%Z (S n)
      else (acc, n, s)
  | EmptyString => (acc, n, s)
  end.

Fixpoint strip_zeros (fuel : nat) (m e : Z) : Z * Z :=
  match fuel with
  | O => (m, e)
  | S f =>
      if (m mod 10 =? 0)%Z then strip_zeros f (m / 10)%Z (e + 1)%Z
      else (m, e)
  end.

Definition normalise (m e : Z) : Z * Z :=
  if (m =? 0)%Z then (0, 0)%Z
  else strip_zeros (Z.to_nat (Z.log2 (Z.abs m))) m e.

(** The JSON number grammar: an optional minus sign; a zero, or a digit
    from 1 to 9 and any digits; optionally a dot and at least one digit;
    optionally e or E, a sign and at least one digit. *)
Definition parse_number (s : string) : option (value * string) :=
  let '(neg, s1) :=
    match s with
    | String "-" r => (true, r)
    | _ => (false, s)
    end in
  let int_part :=
    match s1 with
    | String "0" r => Some (0%Z, r)
    | String c _ => if is_digit c then
                      let '(i, _, r) := read_digits s1 0 0 in Some (i, r)
                    else None
    | EmptyString => None
    end in
  match int_part with
  | None => None
  | Some (i, s2) =>
      let frac :=
        match s2 with
        | String "." r =>
            let '(m, k, r') := read_digits r i 0 in
            if (k =? 0)%nat then None else Some (m, k, r')
        | _ => Some (i, O, s2)
        end in
      match frac with
      | None => None
      | Some (m, k, s3) =>
          let expo :=
            match s3 with
            | String c r =>
                if Ascii.eqb c "e" || Ascii.eqb c "E" then
                  let '(eneg, r1) :=
                    match r with
                    | String "-" r' => (true, r')
                    | String "+" r' => (false, r')
                    | _ => (false, r)
                    end in
                  let '(x, kx, r2) := read_digits r1 0 0 in
                  if (kx =? 0)%nat then None
                  else Some ((if eneg then - x else x)%Z, r2)
                else Some (0%Z, s3)
            | EmptyString => Some (0%Z, s3)
            end in
          match expo with
          | None => None
          | Some (x, s4) =>
              let '(m', e') :=
                normalise (if neg then - m else m)%Z (x - Z.of_nat k)%Z in
              Some (VNum m' e', s4)
          end
      end
  end.

Definition hex_val (c : ascii) : option N :=
  let n := nat_of_ascii c in
  if ((48 <=? n) && (n <=? 57))%nat then Some (N.of_nat (n - 48))
  else if ((97 <=? n) && (n <=? 102))%nat then Some (N.of_nat (n - 87))
  else if ((65 <=? n) && (n <=? 70))%nat then Some (N.of_nat (n - 55))
  else None.

Definition hex4 (a b c d : ascii) : option N :=
  match hex_val a, hex_val b, hex_val c, hex_val d with
  | Some x, Some y, Some z, Some w =>
      Some (x * 4096 + y * 256 + z * 16 + w)%N
  | _, _, _, _ => None
  end.

(** What a string literal is made of: a character of the text, or a code
    unit written as [\uXXXX]. *)
Inductive unit_ := Raw (c : ascii) | Esc (u : N).

Definition byte (n : N) : ascii := ascii_of_N n.

(** The UTF-8 bytes of a code point. *)
Definition utf8 (cp : N) : string :=
  (if cp <? 128 then String (byte cp) ""
   else if cp <? 2048 then
     String (byte (192 + cp / 64)) (String (byte (128 + cp mod 64)) "")
   else if cp <? 65536 then
     String (byte (224 + cp / 4096))
       (String (byte (128 + (cp / 64) mod 64))
          (String (byte (128 + cp mod 64)) ""))
   else
     String (byte (240 + cp / 262144))
       (String (byte (128 + (cp / 4096) mod 64))
          (String (byte (128 + (cp / 64) mod 64))
             (String (byte (128 + cp mod 64)) ""))))%N.

Definition is_high (u : N) : bool := ((55296 <=? u) && (u <=? 56319))%N.
Definition is_low (u : N) : bool := ((56320 <=? u) && (u <=? 57343))%N.

(** A high surrogate followed by a low one is one code point. *)
Fixpoint encode_units (l : list unit_) : string :=
  match l with
  | [] => ""
  | Raw c :: rest => String c (encode_units rest)
  | Esc u :: rest =>
      match rest with
      | Esc u' :: rest' =>
          if is_high u && is_low u' then
            utf8 (65536 + (u - 55296) * 1024 + (u' - 56320))%N ++
            encode_units rest'
          else utf8 u ++ encode_units rest
      | _ => utf8 u ++ encode_units rest
      end
  end.

Definition ctl (n : nat) : unit_ := Raw (ascii_of_nat n).

(** The body of a string literal, after its opening quote. *)
Fixpoint read_units (s : string) : option (list unit_ * string) :=
  match s with
  | EmptyString => None
  | String c rest =>
      if Ascii.eqb c dquote then Some ([], rest)
      else if Ascii.eqb c "\" then
        match rest with
        | String e rest' =>
            let simple (u : unit_) :=
              match read_units rest' with
              | Some (us, r) => Some (u :: us, r)
              | None => None
              end in
            if Ascii.eqb e dquote then simple (Raw dquote)
            else if Ascii.eqb e "\" then simple (Raw "\")
            else if Ascii.eqb e "/" then simple (Raw "/")
            else if Ascii.eqb e "b" then simple (ctl 8)
            else if Ascii.eqb e "f" then simple (ctl 12)
            else if Ascii.eqb e "n" then simple (ctl 10)
            else if Ascii.eqb e "r" then simple (ctl 13)
            else if Ascii.eqb e "t" then simple (ctl 9)
            else if Ascii.eqb e "u" then
              match rest' with
              | String a (String b (String c' (String d rest''))) =>
                  match hex4 a b c' d with
                  | Some u =>
                      match read_units rest'' with
                      | Some (us, r) => Some (Esc u :: us, r)
                      | None => None
                      end
                  | None => None
                  end
              | _ => None
              end
            else None
        | EmptyString => None
        end
      else if (nat_of_ascii c <? 32)%nat then None
      else
        match read_units rest with
        | Some (us, r) => Some (Raw c :: us, r)
        | None => None
        end
  end.

Definition parse_string (s : string) : option (string * string) :=
  match read_units s with
  | Some (us, r) => Some (encode_units us, r)
  | None => None
  end.

Fixpoint drop (n : nat) (s : string) : string :=
  match n, s with
  | O, _ => s
  | S n', String _ r => drop n' r
  | S _, EmptyString => EmptyString
  end.

Definition literal (word : string) (v : value) (s : string)
  : option (value * string) :=
  if prefix word s then Some (v, drop (String.length word) s) else None.

(** A value, then what follows it.  The three functions call each other
    on a shorter text each time; [fuel] bounds the calls. *)
Fixpoint parse_value (fuel : nat) (s : string) : option (value * string) :=
  match fuel with
  | O => None
  | S f =>
      match skip_ws s with
      | EmptyString => None
      | String c r =>
          if Ascii.eqb c "n" then literal "null" VNull (String c r)
          else if Ascii.eqb c "t" then literal "true" (VBool true) (String c r)
          else if Ascii.eqb c "f" then literal "false" (VBool false) (String c r)
          else if Ascii.eqb c dquote then
            match parse_string r with
            | Some (str, r') => Some (VStr str, r')
            | None => None
            end
          else if Ascii.eqb c "[" then
            match skip_ws r with
            | String c' r' =>
                if Ascii.eqb c' "]" then Some (VArr [], r')
                else parse_elements f r []
            | EmptyString => None
            end
          else if Ascii.eqb c "{" then
            match skip_ws r with
            | String c' r' =>
                if Ascii.eqb c' "}" then Some (VObj [], r')
                else parse_members f r []
            | EmptyString => None
            end
          else parse_number (String c r)
      end
  end
with parse_elements (fuel : nat) (s : string) (acc : list value)
  : option (value * string) :=
  match fuel with
  | O => None
  | S f =>
      match parse_value f s with
      | Some (v, r) =>
          match skip_ws r with
          | String c r' =>
              if Ascii.eqb c "," then parse_elements f r' (acc ++ [v])%list
              else if Ascii.eqb c "]" then Some (VArr (acc ++ [v])%list, r')
              else None
          | EmptyString => None
          end
      | None => None
      end
  end
with parse_members (fuel : nat) (s : string) (acc : list (string * value))
  : option (value * string) :=
  match fuel with
  | O => None
  | S f =>
      match skip_ws s with
      | String c r =>
          if Ascii.eqb c dquote then
            match parse_string r with
            | Some (k, r1) =>
                match skip_ws r1 with
                | String c1 r2 =>
                    if Ascii.eqb c1 ":" then
                      match parse_value f r2 with
                      | Some (v, r3) =>
                          match skip_ws r3 with
                          | String c3 r4 =>
                              if Ascii.eqb c3 "," then
                                parse_members f r4 (obj_set k v acc)
                              else if Ascii.eqb c3 "}" then
                                Some (VObj (obj_set k v acc), r4)
                              else None
                          | EmptyString => None
                          end
                      | None => None
                      end
                    else None
                | EmptyString => None
                end
            | None => None
            end
          else None
      | EmptyString => None
      end
  end.

(** [JSON.parse]: [None] is a SyntaxError.  The recursion depth is bounded
    by the input: of two nested calls at least one reads a character, so
    twice the length is depth enough for any text. *)
Definition JSON_parse (s : string) : option value :=
  match parse_value (S (2 * String.length s)) s with
  | Some (v, r) =>
      match skip_ws r with
      | EmptyString => Some v
      | _ => None
      end
  | None => None
  end.

(** *** The regular expression [/\{[\s\S]*\}/]

    The match runs from the first opening brace to the last closing brace
    after it. *)

Fixpoint from_open (s : string) : option string :=
  match s with
  | EmptyString => None
  | String c r => if Ascii.eqb c "{" then Some r else from_open r
  end.

Fixpoint upto_close (s : string) : option string :=
  match s with
  | EmptyString => None
  | String c r =>
      match upto_close r with
      | Some t => Some (String c t)
      | None => if Ascii.eqb c "}" then Some (String c "") else None
      end
  end.

Definition match_braces (s : string) : option string :=
  match from_open s with
  | Some r =>
      match upto_close r with
      | Some t => Some (String "{" t)
      | None => None
      end
  | None => None
  end.

(** *** Object spread and conversion to string *)

Fixpoint indexed {A : Type} (i : nat) (l : list A) : list (string * A) :=
  match l with
  | [] => []
  | x :: rest => (string_of_nat i, x) :: indexed (S i) rest
  end.

(** A continuation byte of UTF-8. *)
Definition is_cont (c : ascii) : bool :=
  let n := N_of_ascii c in ((128 <=? n) && (n <? 192))%N.

(** The code point of a sequence of four bytes. *)
Definition code_point4 (a b c d : ascii) : N :=
  ((N_of_ascii a - 240) * 262144 + (N_of_ascii b - 128) * 4096 +
   (N_of_ascii c - 128) * 64 + (N_of_ascii d - 128))%N.

(** The code units of a string, each as the string it makes alone: [s[i]]
    for the successive [i].  A sequence of one, two or three bytes is one
    code unit; a sequence of four bytes is a character outside the basic
    plane, which is two code units, its surrogates.  A byte that does not
    start a sequence is taken alone (the bytes of a JavaScript string have
    none). *)
Fixpoint chars (s : string) : list value :=
  match s with
  | EmptyString => []
  | String a r =>
      let n := N_of_ascii a in
      match r with
      | String b r1 =>
          if ((192 <=? n) && (n <? 224))%N && is_cont b then
            VStr (String a (String b "")) :: chars r1
          else
            match r1 with
            | String c r2 =>
                if ((224 <=? n) && (n <? 240))%N && is_cont b && is_cont c
                then VStr (String a (String b (String c ""))) :: chars r2
                else
                  match r2 with
                  | String d r3 =>
                      let cp := code_point4 a b c d in
                      if ((240 <=? n) && (n <? 248))%N && is_cont b &&
                         is_cont c && is_cont d &&
                         ((65536 <=? cp) && (cp <? 1114112))%N
                      then
                        VStr (utf8 (55296 + (cp - 65536) / 1024)%N)
                        :: VStr (utf8 (56320 + (cp - 65536) mod 1024)%N)
                        :: chars r3
                      else VStr (String a "") :: chars r
                  | EmptyString => VStr (String a "") :: chars r
                  end
            | EmptyString => VStr (String a "") :: chars r
            end
      | EmptyString => VStr (String a "") :: chars r
      end
  end.

(** The own enumerable properties [{...v}] copies. *)
Definition spread_props (v : value) : list (string * value) :=
  match v with
  | VObj props => props
  | VArr items => indexed 0 items
  | VStr s => indexed 0 (chars s)
  | VNull | VBool _ | VNum _ _ | VDate _ => []
  end.

Definition assign (target source : list (string * value))
  : list (string * value) :=
  fold_left (fun acc kv => obj_set (fst kv) (snd kv) acc) source target.

(** Whether ToString throws a TypeError.  An object read from JSON with an
    own property [toString] has no callable [toString], and the inherited
    [valueOf] returns the object; an array joins its elements. *)
Fixpoint toString_throws (v : value) : bool :=
  match v with
  | VObj props =>
      match obj_get "toString" props with
      | Some _ => true
      | None => false
      end
  | VArr items =>
      (fix any (l : list value) : bool :=
         match l with
         | [] => false
         | x :: rest => toString_throws x || any rest
         end) items
  | VNull | VBool _ | VNum _ _ | VStr _ | VDate _ => false
  end.

Definition is_primitive (v : value) : bool :=
  match v with
  | VNull | VBool _ | VNum _ _ | VStr _ => true
  | VArr _ | VObj _ | VDate _ => false
  end.

(** A value together with the place it was read from, which stands for the
    identity of an object. *)
Definition located : Type := (nat * nat) * value.

(** SameValueZero, which is also [===] here (JSON has no NaN): primitives
    by value, objects by identity. *)
Definition sameValueZero (a b : located) : bool :=
  match snd a, snd b with
  | VNull, VNull => true
  | VBool x, VBool y => Bool.eqb x y
  | VNum m e, VNum m' e' => ((m =? m') && (e =? e'))%Z
  | VStr x, VStr y => String.eqb x y
  | _, _ =>
      negb (is_primitive (snd a)) && negb (is_primitive (snd b)) &&
      (fst (fst a) =? fst (fst b))%nat && (snd (fst a) =? snd (fst b))%nat
  end.

End Js.

(** ** The host: clock, random source and dates

    [clock] and [random36] give the successive readings of the system clock
    and the successive values of
    [Math.random().toString(36).substr(2, 9)]; [toISOString] and
    [Date_from] (the constructor [new Date(v)]) belong to the platform. *)

Record Host := mkHost {
  clock : nat -> Z;
  clock_reads : nat;
  random36 : nat -> string;
  random_reads : nat;
  toISOString : Z -> string;
  Date_from : Js.value -> Date
}.

Inductive exn := TypeError | SyntaxError | RangeError | Error (msg : string).

Inductive outcome (A : Type) := Ok (a : A) | Throw (e : exn).
Arguments Ok {A} a.
Arguments Throw {A} e.

(** Computations that read the host and may throw. *)
Definition M (A : Type) : Type := Host -> outcome A * Host.

Definition ret {A : Type} (a : A) : M A := fun h => (Ok a, h).

Definition bind {A B : Type} (c : M A) (k : A -> M B) : M B :=
  fun h =>
    match c h with
    | (Ok a, h') => k a h'
    | (Throw e, h') => (Throw e, h')
    end.

Definition throw {A : Type} (e : exn) : M A := fun h => (Throw e, h).

(** [try { c } catch (e) { handler e }] *)
Definition try_catch {A : Type} (c : M A) (handler : exn -> M A) : M A :=
  fun h =>
    match c h with
    | (Ok a, h') => (Ok a, h')
    | (Throw e, h') => handler e h'
    end.

Declare Scope js_scope.
Delimit Scope js_scope with js.
Notation "x <- c ;; k" := (bind c (fun x => k))
  (at level 61, c at next level, right associativity) : js_scope.
Notation "c ;;; k" := (bind c (fun _ => k))
  (at level 61, right associativity) : js_scope.
Local Open Scope js_scope.

Definition Date_now : M Z :=
  fun h =>
    (Ok (clock h (clock_reads h)),
     mkHost (clock h) (S (clock_reads h)) (random36 h) (random_reads h)
            (toISOString h) (Date_from h)).

(** [new Date()] *)
Definition new_Date : M Date := t <- Date_now ;; ret (Date_ms t).

Definition Math_random36 : M string :=
  fun h =>
    (Ok (random36 h (random_reads h)),
     mkHost (clock h) (clock_reads h) (random36 h) (S (random_reads h))
            (toISOString h) (Date_from h)).

(** [new Date(v)]: the conversion of [v] to a primitive may throw. *)
Definition Date_of (v : Js.value) : M Date :=
  if Js.toString_throws v then throw TypeError
  else fun h => (Ok (Date_from h v), h).

(** helpers.ts: [`${prefix}-${Date.now()}-${Math.random()...}`] *)
Definition generateId (prefix : string) : M string :=
  t <- Date_now ;;
  r <- Math_random36 ;;
  ret (prefix ++ "-" ++ Js.string_of_Z t ++ "-" ++ r)%string.

(** ** Typed plans as values *)

Definition status_string (s : TaskStatus) : string :=
  match s with
  | pending => "pending"
  | in_progress => "in-progress"
  | completed => "completed"
  | failed => "failed"
  end.

Definition priority_string (p : Priority) : string :=
  match p with
  | low => "low"
  | medium => "medium"
  | high => "high"
  end.

Definition plan_status_string (s : PlanStatus) : string :=
  match s with
  | draft => "draft"
  | approved => "approved"
  | executing => "executing"
  | plan_completed => "completed"
  | plan_failed => "failed"
  end.

Definition strings (l : list string) : Js.value := Js.VArr (map Js.VStr l).

(** The object behind a [Task]; [code] is present only when set. *)
Definition Task_props (t : Task) : list (string * Js.value) :=
  [ ("id", Js.VStr (id t));
    ("title", Js.VStr (title t));
    ("description", Js.VStr (description t));
    ("files", strings (files t));
    ("dependencies", strings (dependencies t));
    ("status", Js.VStr (status_string (status t)));
    ("estimatedTime", Js.VStr (estimatedTime t));
    ("priority", Js.VStr (priority_string (priority t))) ]
  ++ match code t with
     | Some c => [("code", Js.VStr c)]
     | None => []
     end.

Definition Task_toValue (t : Task) : Js.value := Js.VObj (Task_props t).

(** A plan object with the given task objects and [updated] date. *)
Definition plan_object (p : Plan) (task_objects : list Js.value)
    (upd : Date) : Js.value :=
  Js.VObj
    [ ("id", Js.VStr (plan_id p));
      ("title", Js.VStr (plan_title p));
      ("description", Js.VStr (plan_description p));
      ("tasks", Js.VArr task_objects);
      ("created", Js.VDate (created p));
      ("updated", Js.VDate upd);
      ("status", Js.VStr (plan_status_string (plan_status p))) ].

Definition Plan_toValue (p : Plan) : Js.value :=
  plan_object p (map Task_toValue (tasks p)) (updated p).

(** [plan.tasks] of a plan object. *)
Definition tasks_of (v : Js.value) : list Js.value :=
  match v with
  | Js.VObj props =>
      match Js.obj_get "tasks" props with
      | Some (Js.VArr l) => l
      | _ => []
      end
  | _ => []
  end.

(** A property of an object, [undefined] otherwise. *)
Definition prop (k : string) (v : Js.value) : option Js.value :=
  match v with
  | Js.VObj props => Js.obj_get k props
  | _ => None
  end.

(** ** The plan mutators on typed plans (planService.ts)

    The plan object is mutated in place and returned; the returned plan is
    the state of that object after the call.  Task indices are integers
    (the callers compute them with [parseInt]). *)

(** [plan.tasks.splice(taskIndex, 1)] for an index in range. *)
Definition splice1 {A : Type} (i : nat) (l : list A) : list A :=
  firstn i l ++ skipn (S i) l.

Definition in_range (taskIndex : Z) (p : Plan) : bool :=
  ((0 <=? taskIndex) && (taskIndex <? Z.of_nat (length (tasks p))))%Z.

Definition removeTask (p : Plan) (taskIndex : Z) : M Plan :=
  if in_range taskIndex p then
    match nth_error (tasks p) (Z.to_nat taskIndex) with
    | Some removedTask =>
        let rest := splice1 (Z.to_nat taskIndex) (tasks p) in
        let scrubbed :=
          map (fun task =>
                 set_dependencies task
                   (filter (fun depId => negb (String.eqb depId (id removedTask)))
                           (dependencies task)))
              rest in
        now <- new_Date ;;
        ret (set_tasks p scrubbed now)
    | None => throw TypeError
    end
  else ret p.

(** [task.status = status] on the first task whose id is [taskId]; the
    task object is shared with [plan.tasks], so the list sees the update. *)
Fixpoint update_first (taskId : string) (s : TaskStatus) (ts : list Task)
  : list Task :=
  match ts with
  | [] => []
  | t :: rest =>
      if String.eqb (id t) taskId then set_status t s :: rest
      else t :: update_first taskId s rest
  end.

Definition updateTaskStatus (p : Plan) (taskId : string) (s : TaskStatus)
  : M Plan :=
  match find_by_id (tasks p) taskId with
  | Some _ =>
      now <- new_Date ;;
      ret (set_tasks p (update_first taskId s (tasks p)) now)
  | None => ret p
  end.

(** [createFallbackPlan] *)
Definition createFallbackPlan (requirements : string) : M Plan :=
  pid <- generateId "plan" ;;
  tid <- generateId "task" ;;
  c <- new_Date ;;
  u <- new_Date ;;
  ret (mkPlan pid "Manual Implementation Plan" requirements
         [mkTask tid "Implement requirements" requirements [] [] pending
                 "60 minutes" high None]
         c u draft).

(** ** Building tasks from untyped data (planService.ts) *)

(** Reading a property of a value: a TypeError on [null], the own property
    of an object, [undefined] on the other values (none of the names read
    here exists on their prototypes). *)
Definition get_prop (v : Js.value) (k : string) : M (option Js.value) :=
  match v with
  | Js.VNull => throw TypeError
  | Js.VObj props => ret (Js.obj_get k props)
  | _ => ret None
  end.

(** [a || b], with [b] evaluated only when [a] is falsy. *)
Definition or_else (a : option Js.value) (b : M Js.value) : M Js.value :=
  match a with
  | Some v => if Js.truthy v then ret v else b
  | None => b
  end.

(** [Array.isArray(x) ? x : []] *)
Definition array_or_empty (a : option Js.value) : list Js.value :=
  match a with
  | Some (Js.VArr l) => l
  | _ => []
  end.

Module Built.
(** The object literal [processTasks] builds; its [status] is always
    ['pending']. *)
Record task := mkTask {
  id : Js.value;
  title : Js.value;
  description : Js.value;
  files : list Js.value;
  dependencies : list Js.value;
  estimatedTime : Js.value;
  priority : string
}.

Definition toValue (t : task) : Js.value :=
  Js.VObj
    [ ("id", id t);
      ("title", title t);
      ("description", description t);
      ("files", Js.VArr (files t));
      ("dependencies", Js.VArr (dependencies t));
      ("status", Js.VStr "pending");
      ("estimatedTime", estimatedTime t);
      ("priority", Js.VStr (priority t)) ].
End Built.

(** [!x || x.trim().length === 0]: a truthy value that is not a string has
    no [trim] method. *)
Definition check_trim (v : Js.value) : M unit :=
  if Js.truthy v then
    match v with
    | Js.VStr _ => ret tt
    | _ => throw TypeError
    end
  else ret tt.

(** helpers.ts [validateTask]: its verdict only feeds the log, so only its
    exceptions are kept. *)
Definition validateTask (t : Built.task) : M unit :=
  check_trim (Built.title t) ;;;
  check_trim (Built.description t) ;;;
  check_trim (Built.estimatedTime t).

(** [['low', 'medium', 'high'].includes(x) ? x : 'medium'] *)
Definition clamp_priority (a : option Js.value) : string :=
  match a with
  | Some (Js.VStr s) =>
      if String.eqb s "low" || String.eqb s "medium" || String.eqb s "high"
      then s else "medium"
  | _ => "medium"
  end.

(** The callback of [tasksData.map]. *)
Definition processTask (taskData : Js.value) (index : nat) : M Built.task :=
  i <- get_prop taskData "id" ;;
  i' <- or_else i (g <- generateId "task" ;; ret (Js.VStr g)) ;;
  t <- get_prop taskData "title" ;;
  t' <- or_else t (ret (Js.VStr ("Task " ++ Js.string_of_nat (index + 1)))) ;;
  d <- get_prop taskData "description" ;;
  d' <- or_else d (ret (Js.VStr "No description provided")) ;;
  f <- get_prop taskData "files" ;;
  ds <- get_prop taskData "dependencies" ;;
  e <- get_prop taskData "estimatedTime" ;;
  e' <- or_else e (ret (Js.VStr "30 minutes")) ;;
  pr <- get_prop taskData "priority" ;;
  let task := Built.mkTask i' t' d' (array_or_empty f) (array_or_empty ds)
                           e' (clamp_priority pr) in
  validateTask task ;;;
  ret task.

Fixpoint processTasks_from (index : nat) (tasksData : list Js.value)
  : M (list Built.task) :=
  match tasksData with
  | [] => ret []
  | taskData :: rest =>
      t <- processTask taskData index ;;
      ts <- processTasks_from (S index) rest ;;
      ret (t :: ts)
  end.

Definition processTasks (tasksData : list Js.value) : M (list Built.task) :=
  processTasks_from 0 tasksData.

(** [(x || []).map(...)]: only an array has [map]. *)
Definition tasks_data (a : option Js.value) : M (list Js.value) :=
  match a with
  | Some v =>
      if Js.truthy v then
        match v with
        | Js.VArr l => ret l
        | _ => throw TypeError
        end
      else ret []
  | None => ret []
  end.

(** The graph of built tasks: every id and dependency with its place. *)
Fixpoint located_deps (i j : nat) (deps : list Js.value) : list Js.located :=
  match deps with
  | [] => []
  | d :: rest => ((i, S j), d) :: located_deps i (S j) rest
  end.

Fixpoint located_graph (i : nat) (ts : list Built.task)
  : list (Js.located * list Js.located) :=
  match ts with
  | [] => []
  | t :: rest =>
      (((i, O), Built.id t), located_deps i O (Built.dependencies t))
      :: located_graph (S i) rest
  end.

Definition label_throws (e : Js.located * Js.located) : bool :=
  Js.toString_throws (snd (fst e)) || Js.toString_throws (snd (snd e)).

(** [validatePlan] only logs; what is kept is whether it throws: a
    RangeError when the recursion of [hasCycle] exhausts the stack, a
    TypeError when an id cannot be written into a message. *)
Definition validatePlan (ts : list Built.task) : M unit :=
  let g := located_graph 0 ts in
  match Validator.detect Js.sameValueZero g with
  | None => throw RangeError
  | Some circularDeps =>
      if existsb label_throws circularDeps then throw TypeError
      else if existsb label_throws (Validator.invalid Js.sameValueZero g)
      then throw TypeError
      else ret tt
  end.

(** helpers.ts [extractJsonFromResponse]; [VNull] is its [null]. *)
Definition extractJsonFromResponse (response : string) : Js.value :=
  match Js.match_braces response with
  | Some m =>
      match Js.JSON_parse m with
      | Some v => v
      | None => Js.VNull
      end
  | None =>
      match Js.JSON_parse response with
      | Some v => v
      | None => Js.VNull
      end
  end.

(** The [try] block of [parsePlanResponse]. *)
Definition parsePlanResponse_try (planResponse requirements : string)
  : M Js.value :=
  let planData := extractJsonFromResponse planResponse in
  if negb (Js.truthy planData)
  then throw (Error "Could not extract valid JSON from plan response")
  else
    pid <- generateId "plan" ;;
    t <- get_prop planData "title" ;;
    t' <- or_else t (ret (Js.VStr "Generated Implementation Plan")) ;;
    d <- get_prop planData "description" ;;
    d' <- or_else d (ret (Js.VStr requirements)) ;;
    td <- get_prop planData "tasks" ;;
    arr <- tasks_data td ;;
    ts <- processTasks arr ;;
    c <- new_Date ;;
    u <- new_Date ;;
    validatePlan ts ;;;
    ret (Js.VObj
           [ ("id", Js.VStr pid);
             ("title", t');
             ("description", d');
             ("tasks", Js.VArr (map Built.toValue ts));
             ("created", Js.VDate c);
             ("updated", Js.VDate u);
             ("status", Js.VStr "draft") ]).

Definition parsePlanResponse (planResponse requirements : string)
  : M Js.value :=
  try_catch (parsePlanResponse_try planResponse requirements)
    (fun _ =>
       p <- createFallbackPlan requirements ;;
       ret (Plan_toValue p)).

(** ** Persistence (planService.ts) *)

Definition exportPlan (h : Host) (p : Plan) : string :=
  Js.JSON_stringify (toISOString h) (Plan_toValue p).

Definition importPlan_try (planJson : string) : M Js.value :=
  match Js.JSON_parse planJson with
  | None => throw SyntaxError
  | Some planData =>
      i <- get_prop planData "id" ;;
      i' <- or_else i (g <- generateId "plan" ;; ret (Js.VStr g)) ;;
      t <- get_prop planData "title" ;;
      t' <- or_else t (ret (Js.VStr "Imported Plan")) ;;
      d <- get_prop planData "description" ;;
      d' <- or_else d (ret (Js.VStr "Imported plan")) ;;
      td <- get_prop planData "tasks" ;;
      arr <- tasks_data td ;;
      ts <- processTasks arr ;;
      c <- get_prop planData "created" ;;
      c' <- match c with
            | Some v => if Js.truthy v then Date_of v else new_Date
            | None => new_Date
            end ;;
      u <- new_Date ;;
      s <- get_prop planData "status" ;;
      s' <- or_else s (ret (Js.VStr "draft")) ;;
      validatePlan ts ;;;
      ret (Js.VObj
             [ ("id", i');
               ("title", t');
               ("description", d');
               ("tasks", Js.VArr (map Built.toValue ts));
               ("created", Js.VDate c');
               ("updated", Js.VDate u);
               ("status", s') ])
  end.

Definition importPlan (planJson : string) : M Js.value :=
  try_catch (importPlan_try planJson)
    (fun _ => throw (Error "Failed to import plan")).

(** ** [modifyTask]

    [response] is the text the generation service answers with (the empty
    string when the service fails).  An exception of the [try] block is
    logged as an error, and the plan is returned as it is. *)

Fixpoint replace_nth {A : Type} (i : nat) (x : A) (l : list A) : list A :=
  match l, i with
  | [], _ => []
  | _ :: rest, O => x :: rest
  | y :: rest, S i' => y :: replace_nth i' x rest
  end.

(** [logger.error]: the entry of the log is built with
    [timestamp: new Date()], and an error is logged at every log level. *)
Definition logger_error : M unit := new_Date ;;; ret tt.

(** [{ ...task, ...modifiedTask, id: task.id }] *)
Definition merge_task (t : Task) (modifiedTask : Js.value) : Js.value :=
  Js.VObj
    (Js.obj_set "id" (Js.VStr (id t))
       (Js.assign (Task_props t) (Js.spread_props modifiedTask))).

(** [jsonMatch ? jsonMatch[0] : response] *)
Definition response_text (response : string) : string :=
  match Js.match_braces response with
  | Some m => m
  | None => response
  end.

Definition modifyTask (p : Plan) (taskIndex : Z) (response : string)
  : M Js.value :=
  if negb (in_range taskIndex p) then ret (Plan_toValue p)
  else
    try_catch
      (match Js.JSON_parse (response_text response) with
       | None => throw SyntaxError
       | Some modifiedTask =>
           match nth_error (tasks p) (Z.to_nat taskIndex) with
           | Some t =>
               now <- new_Date ;;
               ret (plan_object p
                      (replace_nth (Z.to_nat taskIndex)
                         (merge_task t modifiedTask)
                         (map Task_toValue (tasks p)))
                      now)
           | None => throw TypeError
           end
       end)
      (fun _ => logger_error ;;; ret (Plan_toValue p)).

(** ** Sample data

    A host whose clock starts at 1000 and advances by one at each reading,
    and small plans on which the properties below are exercised. *)

Definition sample_host : Host :=
  mkHost (fun n => 1000 + Z.of_nat n)%Z 0
         (fun n => ("r" ++ Js.string_of_nat n)%string) 0
         Js.string_of_Z (fun _ => Date_invalid).

(** An answer of the generation service that carries an id and a title. *)
Definition sample_answer : string :=
  ("Here is the task: " ++
   Js.JSON_stringify Js.string_of_Z
     (Js.VObj [("id", Js.VStr "X"); ("title", Js.VStr "New title")]))%string.

Definition sample_task (i : string) (deps : list string) (s : TaskStatus)
  : Task :=
  mkTask i "title" "description" [] deps s "30 minutes" medium None.

(** Task A with no dependency, task B depending on A. *)
Definition sample_plan (sa sb : TaskStatus) : Plan :=
  mkPlan "plan-1" "Plan" "A plan"
    [sample_task "A" [] sa; sample_task "B" ["A"] sb]
    (Date_ms 5) (Date_ms 6) draft.

(** ** The vocabulary of the properties *)

Section DependencyGraph.
Context {K : Type}.

(** [edge tasks a b]: some task with id [a] lists [b] in its dependencies. *)
Definition edge (tasks : list (K * list K)) (a b : K) : Prop :=
  exists t, In t tasks /\ fst t = a /\ In b (snd t).

Inductive reaches (tasks : list (K * list K)) : K -> K -> Prop :=
| reaches_edge : forall a b, edge tasks a b -> reaches tasks a b
| reaches_step : forall a b c,
    edge tasks a b -> reaches tasks b c -> reaches tasks a c.

Definition acyclic (tasks : list (K * list K)) : Prop :=
  forall a, ~ reaches tasks a a.
End DependencyGraph.

(** The dependencies of [t] are met in [p]: each id it depends on resolves
    (to the first task of the plan with that id) to a completed task. *)
Definition dependencies_met (p : Plan) (t : Task) : Prop :=
  forall d, In d (dependencies t) ->
    exists u, find_by_id (tasks p) d = Some u /\ status u = completed.

(** In [l], every task comes after the tasks of [ts] its dependencies
    name. *)
Definition dependencies_first (ts l : list Task) : Prop :=
  forall l1 t l2, l = l1 ++ t :: l2 ->
    forall d td, In d (dependencies t) -> In td ts -> id td = d -> In td l1.

(** The entries of the [tasks] array of a payload. *)
Definition payload_tasks (planData : Js.value) : list Js.value :=
  array_or_empty (prop "tasks" planData).

Definition is_string (v : Js.value) : Prop := exists s, v = Js.VStr s.

(** What is read back from the text of a date. *)
Definition date_json (iso : Z -> string) (d : Date) : Js.value :=
  match d with
  | Date_ms t => Js.VStr (iso t)
  | Date_invalid => Js.VNull
  end.

(** ** Invariants of the traversals *)

Module Traversal.
Section Validator.
Context {K : Type} (eqb : K -> K -> bool) (tasks : list (K * list K)).
Variable P : K -> Prop.

(** How many of [keys] are not in [seen] yet. *)
Definition unseen (keys seen : list K) : nat :=
  length (filter (fun k => negb (JsSet.has eqb k seen)) keys).

Definition grows (seen seen' : list K) : Prop :=
  forall k, JsSet.has eqb k seen = true -> JsSet.has eqb k seen' = true.

Definition edges_only (st : @Validator.state K) : Prop :=
  forall e, In e (Validator.circularDeps st) -> edge tasks (fst e) (snd e).

Definition circ_extends (st st' : @Validator.state K) : Prop :=
  exists l, Validator.circularDeps st' = Validator.circularDeps st ++ l.

Definition pairs_of (l : list (K * K)) : Prop :=
  forall e, In e l -> P (fst e) /\ P (snd e).

(** The dependencies of the task an id resolves to. *)
Definition deps_of (x : K) : list K :=
  match Validator.find_task eqb tasks x with
  | Some t => snd t
  | None => []
  end.

(** Visited and no longer on the recursion stack. *)
Definition finished (st : @Validator.state K) (x : K) : Prop :=
  In x (Validator.visited st) /\ ~ In x (Validator.recursionStack st).

Definition tidy (st : @Validator.state K) : Prop :=
  (forall s, In s (Validator.recursionStack st) -> In s (Validator.visited st)) /\
  (forall u d, finished st u -> In d (deps_of u) -> finished st d) /\
  (forall u d, finished st u -> In d (deps_of u) -> ~ In u (deps_of d)).

(** What a call that leaves [circularDeps] empty does. *)
Definition clean_call (x : K) (st : @Validator.state K) (r : bool)
    (st' : @Validator.state K) : Prop :=
  (r = true /\ In x (Validator.recursionStack st) /\ st' = st) \/
  (r = false /\ ~ In x (Validator.recursionStack st) /\ tidy st' /\
   Validator.recursionStack st' = Validator.recursionStack st /\
   incl (Validator.visited st) (Validator.visited st') /\
   In x (Validator.visited st') /\
   forall u, In u (Validator.visited st') -> ~ In u (Validator.visited st) ->
     forall s, In s (Validator.recursionStack st) -> ~ In s (deps_of u)).

Definition fresh_avoid (x : K) (V S : list K) (st : @Validator.state K)
  : Prop :=
  forall u, In u (Validator.visited st) -> ~ In u (JsSet.add eqb x V) ->
    forall s, In s (JsSet.add eqb x S) -> ~ In s (deps_of u).
End Validator.

Section Sort.
Variable ts : list Task.

Definition seen (st : Topo.state) : list string :=
  Topo.visited st ++ Topo.visiting st.

Definition sound (st : Topo.state) : Prop :=
  Topo.visited st = map id (Topo.result st) /\
  NoDup (Topo.visited st) /\
  (forall t, In t (Topo.result st) -> In t ts) /\
  (forall k, In k (Topo.visiting st) -> ~ In k (Topo.visited st)).

(** What a call of [visit] on [x] does to a sound state. *)
Definition visit_spec (x : string) (st st' : Topo.state) : Prop :=
  sound st' /\
  incl (Topo.visiting st) (Topo.visiting st') /\
  (forall k, In k (Topo.visiting st') ->
     In k (Topo.visiting st) \/ Topo.taskMap_get ts k = None) /\
  (exists more, Topo.result st' = Topo.result st ++ more) /\
  (Topo.taskMap_get ts x <> None ->
   In x (Topo.visiting st) \/ In x (Topo.visited st')).

Definition on_path (st : Topo.state) (x : string) : Prop :=
  forall s, In s (Topo.visiting st) -> Topo.taskMap_get ts s <> None ->
    reaches (graph_of ts) s x.
End Sort.
End Traversal.

(** ** JSON text read back: vocabulary *)

Module RoundTrip.
Import Js.
Local Open Scope string_scope.

(** What [toJSON] leaves of a value. *)
Fixpoint to_json (iso : Z -> string) (v : value) : value :=
  match v with
  | VDate (Date_ms t) => VStr (iso t)
  | VDate Date_invalid => VNull
  | VArr items => VArr (map (to_json iso) items)
  | VObj props =>
      VObj ((fix go (l : list (string * value)) : list (string * value) :=
               match l with
               | [] => []
               | (k, x) :: rest => (k, to_json iso x) :: go rest
               end) props)
  | _ => v
  end.

Definition to_json_props (iso : Z -> string) (props : list (string * value))
  : list (string * value) :=
  map (fun kv => (fst kv, to_json iso (snd kv))) props.

#[local] Unset Elimination Schemes.
Inductive plain : value -> Prop :=
| plain_null : plain VNull
| plain_bool : forall b, plain (VBool b)
| plain_str : forall s, plain (VStr s)
| plain_date : forall d, plain (VDate d)
| plain_arr : forall items, Forall plain items -> plain (VArr items)
| plain_obj : forall props,
    NoDup (map fst props) -> Forall (fun kv => plain (snd kv)) props ->
    plain (VObj props).
#[local] Set Elimination Schemes.

(** The calls the parser needs for a value. *)
Fixpoint weight (v : value) : nat :=
  match v with
  | VArr items =>
      S ((fix sum (l : list value) : nat :=
            match l with
            | [] => 0
            | x :: rest => S (weight x + sum rest)
            end) items)
  | VObj props =>
      S ((fix sum (l : list (string * value)) : nat :=
            match l with
            | [] => 0
            | (_, x) :: rest => S (weight x + sum rest)
            end) props)
  | _ => 1
  end.

Fixpoint weights (l : list value) : nat :=
  match l with
  | [] => 0
  | x :: rest => S (weight x + weights rest)
  end.

Fixpoint weights_props (l : list (string * value)) : nat :=
  match l with
  | [] => 0
  | kv :: rest => S (weight (snd kv) + weights_props rest)
  end.

(** The elements of an array after the first, as [print] writes them. *)
Fixpoint print_items (iso : Z -> string) (ind' : string) (l : list value)
  : string :=
  match l with
  | [] => ""
  | y :: rest =>
      "," ++ newline ++ ind' ++ print iso ind' y ++ print_items iso ind' rest
  end.

Fixpoint print_members (iso : Z -> string) (ind' : string)
    (l : list (string * value)) : string :=
  match l with
  | [] => ""
  | kv :: rest =>
      "," ++ newline ++ ind' ++ quote (fst kv) ++ ": " ++
      print iso ind' (snd kv) ++ print_members iso ind' rest
  end.

(** Text the parser skips. *)
Definition blank (s : string) : Prop :=
  forall rest, skip_ws (s ++ rest) = skip_ws rest.

(** The unit a character is read back as after [quote_char]. *)
Definition unit_of (c : ascii) : unit_ :=
  let n := nat_of_ascii c in
  if ((n <? 32) && negb ((n =? 8) || (n =? 12) || (n =? 10) || (n =? 13)
                         || (n =? 9)))%nat
  then Esc (N.of_nat n) else Raw c.

Fixpoint units_of (s : string) : list unit_ :=
  match s with
  | EmptyString => []
  | String c r => unit_of c :: units_of r
  end.

(** A text that starts a value: neither blank nor a closing bracket. *)
Definition starts_value (s : string) : Prop :=
  exists c r,
    s = String c r /\ is_ws c = false /\
    Ascii.eqb c "]" = false /\ Ascii.eqb c "}" = false.

(** A value is read back when there is enough fuel. *)
Definition reads_back (iso : Z -> string) (v : value) : Prop :=
  plain v ->
  forall ind fuel rest,
    blank ind -> weight v <= fuel ->
    parse_value fuel (print iso ind v ++ rest) = Some (to_json iso v, rest).
End RoundTrip.

(** ** More sample data *)

(** Two tasks with the same id and no dependency: the graph has no cycle,
    and the sort returns one task only. *)
Definition twin_tasks : list Task :=
  [ mkTask "A" "first" "first" [] [] pending "30 minutes" medium None;
    mkTask "A" "second" "second" [] [] pending "30 minutes" medium None ].

(** Two tasks that depend on each other. *)
Definition mutual_tasks : list Task :=
  [ sample_task "A" ["B"] pending; sample_task "B" ["A"] pending ].

(** A and B depend on each other, but each lists first a task of another
    cycle: the traversal from A and the one from B both stop at that cycle,
    and no dependency between A and B is reported. *)
Definition shadowed_cycle : list Task :=
  [ sample_task "A" ["C"; "B"] pending;
    sample_task "B" ["C"; "A"] pending;
    sample_task "C" ["D"] pending;
    sample_task "D" ["C"] pending ].

(** A plan with a task whose id is empty and a task that is completed. *)
Definition stale_plan : Plan :=
  mkPlan "plan-1" "Plan" "A plan"
    [sample_task "" [] pending; sample_task "B" [] completed]
    (Date_ms 5) (Date_ms 6) approved.

(** An approved plan with a completed task A and a pending task B that
    depends on A. *)
Definition approved_plan : Plan :=
  mkPlan "plan-1" "Plan" "A plan"
    [sample_task "A" [] completed; sample_task "B" ["A"] pending]
    (Date_ms 5) (Date_ms 6) approved.

(** ** More vocabulary for the dependency graph *)

Section CycleVocabulary.
Context {K : Type}.

(** [leads_to_cycle tasks d]: following dependencies from [d] one can reach
    an id that depends, directly or not, on itself. *)
Definition leads_to_cycle (tasks : list (K * list K)) (d : K) : Prop :=
  exists c, (d = c \/ reaches tasks d c) /\ reaches tasks c c.
End CycleVocabulary.

Module Alarm.
Section Defs.
Context {K : Type} (tasks : list (K * list K)).

(** What a call of [hasCycle] on [x] keeps, with or without a cycle: it
    answers [true] only when [x] leads to a cycle, what it leaves on the
    stack and what it reports lead to a cycle. *)
Definition alarm_spec (st : @Validator.state K) (r : bool)
    (st' : @Validator.state K) (x : K) : Prop :=
  (r = true -> leads_to_cycle tasks x) /\
  (forall s, In s (Validator.recursionStack st') ->
     In s (Validator.recursionStack st) \/ leads_to_cycle tasks s) /\
  (forall e, In e (Validator.circularDeps st') ->
     In e (Validator.circularDeps st) \/
     (edge tasks (fst e) (snd e) /\ leads_to_cycle tasks (snd e))).
End Defs.
End Alarm.

Module Settled.
Section Defs.
Context {K : Type} (eqb : K -> K -> bool) (tasks : list (K * list K)).

(** [follows a b]: [b] is met when the traversal follows the dependencies
    of the tasks the ids resolve to, starting from [a]. *)
Inductive follows : K -> K -> Prop :=
| follows_one : forall a b,
    In b (Traversal.deps_of eqb tasks a) -> follows a b
| follows_step : forall a b c,
    In b (Traversal.deps_of eqb tasks a) -> follows b c -> follows a c.

(** As long as nothing is reported: the ids that are visited and no longer
    on the stack are closed under dependency and none of them follows
    itself. *)
Definition settled (st : @Validator.state K) : Prop :=
  (forall s, In s (Validator.recursionStack st) -> In s (Validator.visited st)) /\
  (forall u d, Traversal.finished st u ->
     In d (Traversal.deps_of eqb tasks u) -> Traversal.finished st d) /\
  (forall u, Traversal.finished st u -> ~ follows u u).

Definition quiet_call (x : K) (st : @Validator.state K) (r : bool)
    (st' : @Validator.state K) : Prop :=
  (r = true /\ In x (Validator.recursionStack st) /\ st' = st) \/
  (r = false /\ ~ In x (Validator.recursionStack st) /\ settled st' /\
   Validator.recursionStack st' = Validator.recursionStack st /\
   incl (Validator.visited st) (Validator.visited st') /\
   In x (Validator.visited st')).
End Defs.
End Settled.

(** ** [addTask] and [createPlan] (planService.ts)

    [response] is the text the generation service answers with.  In
    [addTask] the id of the new task is generated before the answer is
    looked at, and nothing the answer holds can replace it; an exception
    of the [try] block is logged as an error, and the plan is returned as
    it is. *)

Definition addTask (p : Plan) (taskDescription response : string)
  : M Js.value :=
  try_catch
    (match Js.JSON_parse (response_text response) with
     | None => throw SyntaxError
     | Some newTaskData =>
         g <- generateId "task" ;;
         t <- get_prop newTaskData "title" ;;
         t' <- or_else t (ret (Js.VStr "New Task")) ;;
         d <- get_prop newTaskData "description" ;;
         d' <- or_else d (ret (Js.VStr taskDescription)) ;;
         f <- get_prop newTaskData "files" ;;
         ds <- get_prop newTaskData "dependencies" ;;
         e <- get_prop newTaskData "estimatedTime" ;;
         e' <- or_else e (ret (Js.VStr "30 minutes")) ;;
         pr <- get_prop newTaskData "priority" ;;
         let newTask := Built.mkTask (Js.VStr g) t' d' (array_or_empty f)
                          (array_or_empty ds) e' (clamp_priority pr) in
         now <- new_Date ;;
         ret (plan_object p
                (map Task_toValue (tasks p) ++ [Built.toValue newTask]) now)
     end)
    (fun _ => logger_error ;;; ret (Plan_toValue p)).

(** [planResponse] is the answer to the planning prompt; the service
    returns the empty string when its call fails, and an empty answer
    gives the fallback plan. *)
Definition createPlan (requirements planResponse : string) : M Js.value :=
  if String.eqb planResponse "" then
    p <- createFallbackPlan requirements ;; ret (Plan_toValue p)
  else parsePlanResponse planResponse requirements.

(** The id [generateId] builds on a host. *)
Definition generated_id (prefix : string) (h : Host) : string :=
  (prefix ++ "-" ++ Js.string_of_Z (clock h (clock_reads h)) ++ "-" ++
   random36 h (random_reads h))%string.

(** What every task object built by [processTasks] or by the fallback
    satisfies. *)
Definition well_formed_task (o : Js.value) : Prop :=
  prop "status" o = Some (Js.VStr "pending") /\
  (exists i, prop "id" o = Some i /\ Js.truthy i = true) /\
  (exists s, prop "priority" o = Some (Js.VStr s) /\
             In s ["low"; "medium"; "high"]) /\
  (exists l, prop "files" o = Some (Js.VArr l)) /\
  (exists l, prop "dependencies" o = Some (Js.VArr l)).

(** Whether a character occurs in a text. *)
Fixpoint occurs (c : ascii) (s : string) : bool :=
  match s with
  | EmptyString => false
  | String a r => Ascii.eqb a c || occurs c r
  end.

(** ** [sanitizeFilePath] (helpers.ts)

    Two global replacements by the empty string: first of each of the
    characters less-than, greater-than, colon, double quote, bar, question
    mark and star, then of each pair of dots.  A global replacement scans
    from the left and resumes after each match.  The characters involved
    are ASCII, so removing them from the UTF-8 bytes is removing them from
    the string. *)

Definition is_forbidden (c : ascii) : bool :=
  Ascii.eqb c "<" || Ascii.eqb c ">" || Ascii.eqb c ":" ||
  Ascii.eqb c Js.dquote || Ascii.eqb c "|" || Ascii.eqb c "?" ||
  Ascii.eqb c "*".

Fixpoint strip_forbidden (s : string) : string :=
  match s with
  | EmptyString => EmptyString
  | String c r =>
      if is_forbidden c then strip_forbidden r
      else String c (strip_forbidden r)
  end.

Fixpoint strip_dotdot (s : string) : string :=
  match s with
  | EmptyString => EmptyString
  | String c r =>
      match r with
      | EmptyString => String c EmptyString
      | String c' r' =>
          if Ascii.eqb c "." && Ascii.eqb c' "." then strip_dotdot r'
          else String c (strip_dotdot r)
      end
  end.

Definition sanitizeFilePath (filePath : string) : string :=
  strip_dotdot (strip_forbidden filePath).

(** Two dots in a row, a dot in front, only characters that are kept. *)
Fixpoint has_dotdot (s : string) : bool :=
  match s with
  | EmptyString => false
  | String c r =>
      match r with
      | EmptyString => false
      | String c' _ => (Ascii.eqb c "." && Ascii.eqb c' ".") || has_dotdot r
      end
  end.

Definition starts_with_dot (s : string) : bool :=
  match s with
  | EmptyString => false
  | String c _ => Ascii.eqb c "."
  end.

Fixpoint all_allowed (s : string) : bool :=
  match s with
  | EmptyString => true
  | String c r => negb (is_forbidden c) && all_allowed r
  end.

(** ** [sortTasksByPriority] (helpers.ts)

    [[...tasks].sort(compare)] sorts a copy.  [Array.prototype.sort] is
    stable and the comparator is a total preorder, so the result is the one
    a stable insertion sort gives. *)

Definition priorityOrder (p : Priority) : Z :=
  match p with
  | high => 3
  | medium => 2
  | low => 1
  end.

Definition compare_tasks (a b : Task) : Z :=
  let priorityDiff :=
    (priorityOrder (priority b) - priorityOrder (priority a))%Z in
  if negb (priorityDiff =? 0)%Z then priorityDiff
  else (Z.of_nat (length (dependencies a))
        - Z.of_nat (length (dependencies b)))%Z.

Fixpoint insert_stable {A : Type} (compare : A -> A -> Z) (x : A) (l : list A)
  : list A :=
  match l with
  | [] => [x]
  | y :: rest =>
      if (compare x y <=? 0)%Z then x :: y :: rest
      else y :: insert_stable compare x rest
  end.

Definition stable_sort {A : Type} (compare : A -> A -> Z) (l : list A)
  : list A :=
  fold_right (insert_stable compare) [] l.

Definition sortTasksByPriority (ts : list Task) : list Task :=
  stable_sort compare_tasks ts.

(** [a] may come before [b]: a higher priority, or the same priority and no
    more dependencies. *)
Definition ranks_before (a b : Task) : Prop :=
  (priorityOrder (priority b) < priorityOrder (priority a))%Z \/
  (priority a = priority b /\
   length (dependencies a) <= length (dependencies b)).

(** The comparator finds no difference between [x] and [y]. *)
Definition same_rank (x y : Task) : bool :=
  (compare_tasks x y =? 0)%Z.

(** ** Running the tasks

    What the generation service and the user answer is not in the program.
    [RetryChoice] is the value the question asked after a failed
    verification resolves to. *)

Inductive RetryChoice := retry | accept | skip | review.

(** *** The TracerLite class

    [executeInternally] runs the tasks in the order [topologicalSort]
    gives.  For the n-th task that is run, [attempts n] says how the calls
    of [executeTaskWithGemini] went and [continues n] is the answer of
    [askContinue].  The class also has its own [removeTask] and
    [modifyTask], which work on the plan after reading the task number
    from the user; [taskIndex] is [parseInt(taskNum) - 1]. *)

Module TracerLite.

Record attempt := mkAttempt {
  generated : bool;
  passed : bool;
  retryChoice : RetryChoice;
  regenerated : bool;
  repassed : bool
}.

(** [executeTaskWithGemini]: the status it leaves in the task and the
    boolean it returns.  [generated] and [regenerated] tell whether the
    first and the second call of the service returned; a call that throws
    is caught and the task is marked failed.  [passed] and [repassed] are
    the verdicts of the two verifications. *)
Definition executeTaskWithGemini (a : attempt) : TaskStatus * bool :=
  if negb (generated a) then (failed, false)
  else if passed a then (completed, true)
  else
    match retryChoice a with
    | retry =>
        if negb (regenerated a) then (failed, false)
        else if repassed a then (completed, true)
        else (failed, false)
    | accept => (completed, true)
    | skip => (pending, false)
    | review => (failed, false)
    end.

(** [task.status = s] on a task of the sorted list: the object is the one
    the id map holds, the last task of the plan with that id. *)
Definition mark (taskId : string) (s : TaskStatus) (store : list Task)
  : list Task :=
  rev (update_first taskId s (rev store)).

(** The [for (const task of sortedTasks)] loop from its n-th iteration. *)
Fixpoint run (attempts : nat -> attempt) (continues : nat -> bool)
    (sortedTasks : list Task) (n : nat) (store : list Task) : list Task :=
  match sortedTasks with
  | [] => store
  | task :: rest =>
      let store1 := mark (id task) in_progress store in
      let (s, success) := executeTaskWithGemini (attempts n) in
      let store2 := mark (id task) s store1 in
      if success then
        run attempts continues rest (S n) (mark (id task) completed store2)
      else
        let store3 := mark (id task) failed store2 in
        if continues n then run attempts continues rest (S n) store3
        else store3
  end.

Definition executeInternally (attempts : nat -> attempt)
    (continues : nat -> bool) (p : Plan) : option Plan :=
  match topologicalSort (tasks p) with
  | None => None
  | Some sortedTasks =>
      let store := run attempts continues sortedTasks 0 (tasks p) in
      let allCompleted :=
        forallb (fun task => TaskStatus_eqb (status task) completed) store in
      Some (mkPlan (plan_id p) (plan_title p) (plan_description p) store
              (created p) (updated p)
              (if allCompleted then plan_completed else executing))
  end.

Definition removeTask (p : Plan) (taskIndex : Z) : M Plan :=
  if in_range taskIndex p then
    now <- new_Date ;;
    ret (set_tasks p (splice1 (Z.to_nat taskIndex) (tasks p)) now)
  else ret p.

(** [{ ...plan.tasks[taskIndex], ...modifiedTask }] *)
Definition merge_task (t : Task) (modifiedTask : Js.value) : Js.value :=
  Js.VObj (Js.assign (Task_props t) (Js.spread_props modifiedTask)).

Definition modifyTask (p : Plan) (taskIndex : Z) (response : string)
  : M Js.value :=
  if negb (in_range taskIndex p) then ret (Plan_toValue p)
  else
    try_catch
      (match Js.JSON_parse (response_text response) with
       | None => throw SyntaxError
       | Some modifiedTask =>
           match nth_error (tasks p) (Z.to_nat taskIndex) with
           | Some t =>
               now <- new_Date ;;
               ret (plan_object p
                      (replace_nth (Z.to_nat taskIndex)
                         (merge_task t modifiedTask)
                         (map Task_toValue (tasks p)))
                      now)
           | None => throw TypeError
           end
       end)
      (fun _ => ret (Plan_toValue p)).
End TracerLite.

(** *** The task executor (services/taskExecutor.ts)

    [executePlan] runs the pending tasks in the order of the plan.  For the
    task at index [i], [attempts i] holds the generated code, whether the
    verification passed, the successive answers to
    [getVerificationFailureAction], and the code and verdict of a retry.
    The verification result is taken with its declared type. *)

Module TaskExecutor.

Record attempt := mkAttempt {
  generatedCode : string;
  passed : bool;
  choices : list RetryChoice;
  improvedCode : string;
  repassed : bool
}.

(** [task.status = 'completed'; task.code = code] *)
Definition complete (t : Task) (c : string) : Task :=
  mkTask (id t) (title t) (description t) (files t) (dependencies t)
         completed (estimatedTime t) (priority t) (Some c).

Definition retryTaskExecution (a : attempt) (t : Task) : Task * bool :=
  if repassed a then (complete t (improvedCode a), true)
  else (set_status t failed, false).

(** [None]: the user asks for a review at every question. *)
Fixpoint handleVerificationFailure (answers : list RetryChoice)
    (a : attempt) (t : Task) : option (Task * bool) :=
  match answers with
  | [] => None
  | retry :: _ => Some (retryTaskExecution a t)
  | accept :: _ => Some (complete t (generatedCode a), true)
  | skip :: _ => Some (set_status t pending, false)
  | review :: rest => handleVerificationFailure rest a t
  end.

Definition executeTask (a : attempt) (t : Task) : option (Task * bool) :=
  if passed a then Some (complete t (generatedCode a), true)
  else handleVerificationFailure (choices a) a t.

(** The [for (const task of plan.tasks)] loop from index [i]; [done] holds
    the tasks already passed, and the result is the task list with the
    status the plan ends in. *)
Fixpoint loop (attempts : nat -> attempt) (i : nat) (done todo : list Task)
  : option (list Task * PlanStatus) :=
  match todo with
  | [] => Some (done, plan_completed)
  | task :: rest =>
      if TaskStatus_eqb (status task) pending then
        match executeTask (attempts i) task with
        | None => None
        | Some (task', true) => loop attempts (S i) (done ++ [task']) rest
        | Some (task', false) => Some (done ++ task' :: rest, plan_failed)
        end
      else loop attempts (S i) (done ++ [task]) rest
  end.

Definition executePlan (attempts : nat -> attempt) (p : Plan) : option Plan :=
  match loop attempts 0 [] (tasks p) with
  | None => None
  | Some (ts, s) =>
      Some (mkPlan (plan_id p) (plan_title p) (plan_description p) ts
              (created p) (updated p) s)
  end.
End TaskExecutor.

(** The task list after a run that completed: the pending tasks are
    completed and carry code, the others are as they were. *)
Definition ran_to_completion (before after : list Task) : Prop :=
  Forall2 (fun t t' =>
             id t' = id t /\
             (status t = pending ->
                status t' = completed /\ exists c, code t' = Some c) /\
             (status t <> pending -> t' = t))
          before after.

(** ** The verdict on the requirements (geminiService.ts)

    [validation] is the answer of the generation service, the empty string
    when the call failed.  [toLowerCase] is written for the letters A to Z;
    the other characters are left as they are, which does not change
    whether the six characters looked for occur: outside ASCII the only
    characters whose lower case holds an ASCII letter are U+0130, whose
    letter i is followed by U+0307, and the Kelvin sign, whose letter is
    k. *)

Definition lower (c : ascii) : ascii :=
  let n := nat_of_ascii c in
  if ((65 <=? n) && (n <=? 90))%nat then ascii_of_nat (n + 32) else c.

Fixpoint toLowerCase (s : string) : string :=
  match s with
  | EmptyString => EmptyString
  | String c r => String (lower c) (toLowerCase r)
  end.

(** [String.prototype.includes] *)
Fixpoint includes (searchString s : string) : bool :=
  String.prefix searchString s ||
  match s with
  | EmptyString => false
  | String _ r => includes searchString r
  end.

Definition validateRequirements (validation : string) : bool * string :=
  (includes "valid:" (toLowerCase validation), validation).

Local Open Scope string_scope.

(** ** [calculateTotalTime] (helpers.ts)

    The estimate of a task is searched for digits, optional white space
    and a unit word, without regard to case; the search takes the leftmost
    place where this is found.  At a place, the digits are the whole run of
    digits that starts there: with fewer digits the unit word would have to
    start at a digit.  The unit words all start with min, hour or hr, and
    only that start decides between minutes and hours.

    The numbers are doubles: they are exact for integers below 2^53.
    [None] stands for a number out of this range, which is not modelled. *)

(** One white space character of a regular expression, in UTF-8. *)
Definition space_width (s : string) : nat :=
  match s with
  | String a r =>
      let n := nat_of_ascii a in
      if ((n =? 9) || (n =? 10) || (n =? 11) || (n =? 12) || (n =? 13)
          || (n =? 32))%nat then 1
      else
        match r with
        | String b r' =>
            let m := nat_of_ascii b in
            if ((n =? 194) && (m =? 160))%nat then 2
            else
              match r' with
              | String c _ =>
                  let k := nat_of_ascii c in
                  if ((n =? 225) && (m =? 154) && (k =? 128))%nat then 3
                  else if ((n =? 226) && (m =? 128) &&
                           ((128 <=? k) && (k <=? 138) || (k =? 168)
                            || (k =? 169) || (k =? 175)))%nat then 3
                  else if ((n =? 226) && (m =? 129) && (k =? 159))%nat then 3
                  else if ((n =? 227) && (m =? 128) && (k =? 128))%nat then 3
                  else if ((n =? 239) && (m =? 187) && (k =? 191))%nat then 3
                  else 0
              | EmptyString => 0
              end
        | EmptyString => 0
        end
  | EmptyString => 0
  end.

(** The white space at the front is skipped; [fuel] bounds the number of
    characters skipped. *)
Fixpoint skip_spaces (fuel : nat) (s : string) : string :=
  match fuel with
  | O => s
  | S fuel' =>
      match space_width s with
      | O => s
      | w => skip_spaces fuel' (Js.drop w s)
      end
  end.

(** A word at the front, without regard to case. *)
Fixpoint starts_with_word (word s : string) : bool :=
  match word, s with
  | EmptyString, _ => true
  | String w word', String c s' =>
      Ascii.eqb (lower c) w && starts_with_word word' s'
  | String _ _, EmptyString => false
  end.

(** [Some true]: hours; [Some false]: minutes. *)
Definition unit_at (s : string) : option bool :=
  if starts_with_word "min" s then Some false
  else if starts_with_word "hour" s || starts_with_word "hr" s then Some true
  else None.

(** The run of digits at the front, and what follows it. *)
Fixpoint span_digits (s : string) : string * string :=
  match s with
  | String c r =>
      if Js.is_digit c then
        let (d, rest) := span_digits r in (String c d, rest)
      else (EmptyString, s)
  | EmptyString => (EmptyString, EmptyString)
  end.

Definition match_at (s : string) : option (string * bool) :=
  match span_digits s with
  | (EmptyString, _) => None
  | (digits, rest) =>
      match unit_at (skip_spaces (String.length rest) rest) with
      | Some hours => Some (digits, hours)
      | None => None
      end
  end.

Fixpoint timeMatch (s : string) : option (string * bool) :=
  match match_at s with
  | Some m => Some m
  | None =>
      match s with
      | String _ r => timeMatch r
      | EmptyString => None
      end
  end.

(** [parseInt] on a run of digits. *)
Fixpoint decimal (acc : Z) (digits : string) : Z :=
  match digits with
  | EmptyString => acc
  | String c r => decimal (10 * acc + Js.digit_val c) r
  end.

Definition exact_limit : Z := 9007199254740992.

(** What a task adds to the total, in minutes.  The numbers of the source are
    doubles: the result is given where it is below [exact_limit], where
    [parseInt] and the product are exact. *)
Definition taskMinutes (estimatedTime : string) : option Z :=
  match timeMatch estimatedTime with
  | Some (digits, hours) =>
      let value := decimal 0 digits in
      let minutes := (if hours then value * 60 else value)%Z in
      if (minutes <? exact_limit)%Z then Some minutes else None
  | None => Some 30%Z
  end.

Fixpoint totalMinutes (total : Z) (ts : list Task) : option Z :=
  match ts with
  | [] => Some total
  | task :: rest =>
      match taskMinutes (estimatedTime task) with
      | Some m =>
          if (total + m <? exact_limit)%Z then totalMinutes (total + m) rest
          else None
      | None => None
      end
  end.

Definition formatMinutes (totalMinutes : Z) : string :=
  if (60 <=? totalMinutes)%Z then
    let hours := (totalMinutes / 60)%Z in
    let minutes := (totalMinutes mod 60)%Z in
    if (0 <? minutes)%Z
    then Js.string_of_Z hours ++ "h " ++ Js.string_of_Z minutes ++ "m"
    else Js.string_of_Z hours ++ "h"
  else Js.string_of_Z totalMinutes ++ "m".

Definition calculateTotalTime (p : Plan) : option string :=
  option_map formatMinutes (totalMinutes 0 (tasks p)).

(** Vocabulary: digits only, no digit at all, blanks. *)
Fixpoint all_digits (s : string) : bool :=
  match s with
  | EmptyString => true
  | String c r => Js.is_digit c && all_digits r
  end.

Fixpoint has_digit (s : string) : bool :=
  match s with
  | EmptyString => false
  | String c r => Js.is_digit c || has_digit r
  end.

Fixpoint spaces (k : nat) : string :=
  match k with
  | O => EmptyString
  | S k' => String " " (spaces k')
  end.

Local Open Scope list_scope.

(** * Properties *)

(** ** Sets as lists *)

Section SetFacts.
Context {K : Type} (eqb : K -> K -> bool).
Hypothesis eqb_spec : forall x y, reflect (x = y) (eqb x y).

Lemma has_In : forall x s, JsSet.has eqb x s = true <-> In x s.
Proof.
  intros x s. unfold JsSet.has. rewrite existsb_exists. split.
  - intros [y [Hy He]]. destruct (eqb_spec x y); congruence.
  - intros H. exists x. split; [assumption|].
    destruct (eqb_spec x x); congruence.
Qed.

Lemma has_false : forall x s, JsSet.has eqb x s = false <-> ~ In x s.
Proof.
  intros x s. rewrite <- has_In.
  destruct (JsSet.has eqb x s); split; congruence.
Qed.

Lemma In_add : forall x y s, In y (JsSet.add eqb x s) <-> y = x \/ In y s.
Proof.
  intros x y s. unfold JsSet.add.
  destruct (JsSet.has eqb x s) eqn:E.
  - apply has_In in E. split; [tauto|]. intros [-> | H]; assumption.
  - rewrite in_app_iff. simpl. split; intros H; intuition congruence.
Qed.

Lemma In_delete :
  forall x y s, In y (JsSet.delete eqb x s) <-> In y s /\ y <> x.
Proof.
  intros x y s. unfold JsSet.delete. rewrite filter_In.
  destruct (eqb_spec x y); simpl; split; intros [H1 H2];
    split; congruence.
Qed.

Lemma delete_add_fresh :
  forall x s, ~ In x s -> JsSet.delete eqb x (JsSet.add eqb x s) = s.
Proof.
  intros x s H. unfold JsSet.add.
  apply has_false in H as E. rewrite E.
  unfold JsSet.delete. rewrite filter_app. simpl.
  destruct (eqb_spec x x); [|congruence]. simpl. rewrite app_nil_r.
  clear E. induction s as [|a s IH]; [reflexivity|]. simpl.
  destruct (eqb_spec x a) as [->|Hne].
  - exfalso. apply H. left. reflexivity.
  - simpl. f_equal. apply IH. intros Hin. apply H. right. assumption.
Qed.

Lemma delete_absent :
  forall x s, ~ In x s -> JsSet.delete eqb x s = s.
Proof.
  intros x s H. unfold JsSet.delete.
  induction s as [|a s IH]; [reflexivity|]. simpl.
  destruct (eqb_spec x a) as [->|Hne].
  - exfalso. apply H. left. reflexivity.
  - simpl. f_equal. apply IH. intros Hin. apply H. right. assumption.
Qed.

Lemma NoDup_add : forall x s, NoDup s -> NoDup (JsSet.add eqb x s).
Proof.
  intros x s H. unfold JsSet.add.
  destruct (JsSet.has eqb x s) eqn:E; [assumption|].
  apply has_false in E.
  apply NoDup_app; [assumption| constructor; [intros []|constructor] |].
  intros a Ha [<-|[]]. contradiction.
Qed.
End SetFacts.

Lemma TaskStatus_eqb_spec :
  forall a b, reflect (a = b) (TaskStatus_eqb a b).
Proof. intros [] []; simpl; constructor; congruence. Qed.

Lemma find_by_id_Some :
  forall ts taskId t,
    find_by_id ts taskId = Some t -> In t ts /\ id t = taskId.
Proof.
  intros ts taskId t H. unfold find_by_id in H.
  apply find_some in H. destruct H as [H1 H2].
  apply String.eqb_eq in H2. split; assumption.
Qed.

Lemma find_by_id_None :
  forall ts taskId,
    find_by_id ts taskId = None <-> ~ In taskId (map id ts).
Proof.
  intros ts taskId. unfold find_by_id. induction ts as [|t ts IH]; simpl.
  - split; [intros _ []|reflexivity].
  - destruct (String.eqb_spec (id t) taskId) as [E|E].
    + split; [discriminate|]. intros H. exfalso. apply H. left. assumption.
    + rewrite IH. split; intros H; [intros [H'|H']; contradiction|].
      intros H'. apply H. right. assumption.
Qed.

(** The first task with a given id, with what precedes and follows it. *)
Lemma find_by_id_split :
  forall ts taskId,
    In taskId (map id ts) ->
    exists before t after,
      ts = before ++ t :: after /\ id t = taskId /\
      (forall u, In u before -> id u <> taskId) /\
      find_by_id ts taskId = Some t.
Proof.
  intros ts taskId. unfold find_by_id. induction ts as [|a ts IH]; simpl.
  - intros [].
  - intros H. destruct (String.eqb_spec (id a) taskId) as [E|E].
    + exists [], a, ts. repeat split; try assumption. intros u [].
    + destruct H as [H|H]; [contradiction|].
      destruct (IH H) as (before & t & after & -> & Hid & Hb & Hf).
      exists (a :: before), t, after. repeat split; try assumption.
      intros u [<-|Hu]; [assumption|]. apply Hb. assumption.
Qed.

Lemma update_first_split :
  forall before t after taskId s,
    id t = taskId ->
    (forall u, In u before -> id u <> taskId) ->
    update_first taskId s (before ++ t :: after)
    = before ++ set_status t s :: after.
Proof.
  intros before t after taskId s Hid. induction before as [|a before IH];
    simpl; intros Hb.
  - apply String.eqb_eq in Hid. rewrite Hid. reflexivity.
  - destruct (String.eqb_spec (id a) taskId) as [E|E].
    + exfalso. apply (Hb a); [left; reflexivity|assumption].
    + f_equal. apply IH. intros u Hu. apply Hb. right. assumption.
Qed.

Lemma in_range_spec :
  forall i p,
    in_range i p = true <-> (0 <= i < Z.of_nat (length (tasks p)))%Z.
Proof.
  intros i p. unfold in_range. rewrite andb_true_iff.
  rewrite Z.leb_le, Z.ltb_lt. tauto.
Qed.

Lemma in_range_nth :
  forall i p,
    in_range i p = true ->
    exists t, nth_error (tasks p) (Z.to_nat i) = Some t.
Proof.
  intros i p H. apply in_range_spec in H.
  destruct (nth_error (tasks p) (Z.to_nat i)) eqn:E; [eauto|].
  apply nth_error_None in E. lia.
Qed.

Lemma firstn_In :
  forall (A : Type) (n : nat) (l : list A) (x : A),
    In x (firstn n l) -> In x l.
Proof.
  intros A n. induction n as [|n IH]; intros [|a l] x H; simpl in *;
    try contradiction.
  destruct H as [H|H]; [left; assumption|right; apply IH; assumption].
Qed.

Lemma skipn_In :
  forall (A : Type) (n : nat) (l : list A) (x : A),
    In x (skipn n l) -> In x l.
Proof.
  intros A n. induction n as [|n IH]; intros [|a l] x H; simpl in *;
    try contradiction; try assumption.
  right. apply IH. assumption.
Qed.

Lemma splice1_In :
  forall (A : Type) (i : nat) (l : list A) (x : A),
    In x (splice1 i l) -> In x l.
Proof.
  intros A i l x H. unfold splice1 in H. apply in_app_or in H.
  destruct H as [H|H].
  - apply (firstn_In A i). assumption.
  - apply (skipn_In A (S i)). assumption.
Qed.

Lemma splice1_length :
  forall (A : Type) (i : nat) (l : list A),
    i < length l -> length (splice1 i l) = length l - 1.
Proof.
  intros A i l H. unfold splice1.
  rewrite length_app, length_firstn, length_skipn. lia.
Qed.

(** ** Removing a task *)

(** C5: for every plan and every index in range, [removeTask] succeeds,
    removes one task, and the id of the removed task occurs in the
    [dependencies] of no task that remains in the plan. *)
Theorem removeTask_scrubs_removed_id :
  forall (p : Plan) (i : Z) (h : Host),
    (0 <= i < Z.of_nat (length (tasks p)))%Z ->
    exists removed p' h',
      nth_error (tasks p) (Z.to_nat i) = Some removed /\
      removeTask p i h = (Ok p', h') /\
      length (tasks p') = length (tasks p) - 1 /\
      forall t, In t (tasks p') -> ~ In (id removed) (dependencies t).
Proof.
  intros p i h Hi. apply in_range_spec in Hi as Hr.
  destruct (in_range_nth i p Hr) as [removed Hn].
  exists removed. unfold removeTask. rewrite Hr, Hn.
  eexists. eexists. split; [reflexivity|]. split; [reflexivity|].
  cbn [set_tasks tasks]. split.
  - rewrite length_map. apply splice1_length. lia.
  - intros t Ht. apply in_map_iff in Ht. destruct Ht as [u [<- _]].
    cbn [set_dependencies dependencies]. intros Hin.
    apply filter_In in Hin. destruct Hin as [_ Hne].
    rewrite String.eqb_refl in Hne. discriminate.
Qed.

Lemma removeTask_scrubs_removed_id_witness :
  exists removed p' h',
    nth_error (tasks (sample_plan pending pending)) (Z.to_nat 0)
      = Some removed /\
    removeTask (sample_plan pending pending) 0 sample_host = (Ok p', h') /\
    length (tasks p') = length (tasks (sample_plan pending pending)) - 1 /\
    forall t, In t (tasks p') -> ~ In (id removed) (dependencies t).
Proof.
  apply (removeTask_scrubs_removed_id (sample_plan pending pending) 0
           sample_host).
  simpl. lia.
Defined.

(** ** Invalid task references *)

(** C7: with a task index out of range [modifyTask] and [removeTask], and
    with a task id that no task of the plan has [updateTaskStatus], return
    the plan with every field unchanged, [updated] included, and read
    neither the clock nor the random source. *)
Theorem invalid_reference_is_noop :
  forall (p : Plan) (i : Z) (taskId : string) (s : TaskStatus)
         (response : string) (h : Host),
    (i < 0 \/ Z.of_nat (length (tasks p)) <= i)%Z ->
    ~ In taskId (map id (tasks p)) ->
    modifyTask p i response h = (Ok (Plan_toValue p), h) /\
    removeTask p i h = (Ok p, h) /\
    updateTaskStatus p taskId s h = (Ok p, h).
Proof.
  intros p i taskId s response h Hi Hid.
  assert (Hr : in_range i p = false).
  { destruct (in_range i p) eqn:E; [|reflexivity].
    apply in_range_spec in E. lia. }
  unfold modifyTask, removeTask, updateTaskStatus. rewrite Hr. simpl.
  apply find_by_id_None in Hid. rewrite Hid. repeat split.
Qed.

Lemma invalid_reference_is_noop_witness :
  modifyTask (sample_plan pending pending) 2 "{}" sample_host
    = (Ok (Plan_toValue (sample_plan pending pending)), sample_host) /\
  removeTask (sample_plan pending pending) 2 sample_host
    = (Ok (sample_plan pending pending), sample_host) /\
  updateTaskStatus (sample_plan pending pending) "C" completed sample_host
    = (Ok (sample_plan pending pending), sample_host).
Proof.
  apply (invalid_reference_is_noop (sample_plan pending pending) 2 "C"
           completed "{}" sample_host).
  - right. simpl. lia.
  - simpl. intros [H|[H|[]]]; discriminate.
Defined.

(** ** Status updates *)

(** C10: when some task has the id, [updateTaskStatus] sets the status of
    the first such task to the requested status whatever its status was,
    leaves the other tasks and the other fields of the plan as they were,
    and sets [updated] to the current time. *)
Theorem updateTaskStatus_sets_any_status :
  forall (p : Plan) (taskId : string) (s : TaskStatus) (h : Host),
    In taskId (map id (tasks p)) ->
    exists p' h' before t after,
      updateTaskStatus p taskId s h = (Ok p', h') /\
      tasks p = before ++ t :: after /\
      id t = taskId /\
      (forall u, In u before -> id u <> taskId) /\
      tasks p' = before ++ set_status t s :: after /\
      find_by_id (tasks p') taskId = Some (set_status t s) /\
      status (set_status t s) = s /\
      updated p' = Date_ms (clock h (clock_reads h)) /\
      plan_id p' = plan_id p /\ plan_title p' = plan_title p /\
      plan_description p' = plan_description p /\
      created p' = created p /\ plan_status p' = plan_status p.
Proof.
  intros p taskId s h Hin.
  destruct (find_by_id_split _ _ Hin) as (before & t & after & E & Hid & Hb & Hf).
  unfold updateTaskStatus. rewrite Hf.
  eexists. eexists. exists before, t, after.
  split; [reflexivity|]. cbn [set_tasks tasks updated plan_id plan_title
    plan_description created plan_status].
  rewrite E at 2 3. rewrite (update_first_split _ _ _ _ _ Hid Hb).
  repeat split; try assumption.
  unfold find_by_id. clear E Hf Hin.
  induction before as [|a before IH]; simpl.
  - apply String.eqb_eq in Hid. rewrite Hid. reflexivity.
  - destruct (String.eqb_spec (id a) taskId) as [E|E].
    + exfalso. apply (Hb a); [left; reflexivity|assumption].
    + apply IH. intros u Hu. apply Hb. right. assumption.
Qed.

Lemma updateTaskStatus_sets_any_status_witness :
  exists p' h' before t after,
    updateTaskStatus (sample_plan completed pending) "A" pending sample_host
      = (Ok p', h') /\
    tasks (sample_plan completed pending) = before ++ t :: after /\
    id t = "A" /\
    (forall u, In u before -> id u <> "A") /\
    tasks p' = before ++ set_status t pending :: after /\
    find_by_id (tasks p') "A" = Some (set_status t pending) /\
    status (set_status t pending) = pending /\
    updated p' = Date_ms (clock sample_host (clock_reads sample_host)) /\
    plan_id p' = plan_id (sample_plan completed pending) /\
    plan_title p' = plan_title (sample_plan completed pending) /\
    plan_description p' = plan_description (sample_plan completed pending) /\
    created p' = created (sample_plan completed pending) /\
    plan_status p' = plan_status (sample_plan completed pending).
Proof.
  apply (updateTaskStatus_sets_any_status (sample_plan completed pending)
           "A" pending sample_host).
  simpl. left. reflexivity.
Defined.

(** ** Import of unreadable text *)

(** C9: on every text that is not valid JSON [importPlan] throws
    ["Failed to import plan"] to its caller; it returns no plan and reads
    neither the clock nor the random source. *)
Theorem importPlan_rejects_invalid_json :
  forall (planJson : string) (h : Host),
    Js.JSON_parse planJson = None ->
    importPlan planJson h = (Throw (Error "Failed to import plan"), h).
Proof.
  intros planJson h H. unfold importPlan, try_catch, importPlan_try.
  rewrite H. reflexivity.
Qed.

Lemma importPlan_rejects_invalid_json_witness :
  importPlan "{ id: plan-1 }" sample_host
  = (Throw (Error "Failed to import plan"), sample_host).
Proof.
  apply (importPlan_rejects_invalid_json "{ id: plan-1 }" sample_host).
  vm_compute. reflexivity.
Defined.

(** ** Executable tasks *)

Lemma canExecuteTask_spec :
  forall p t, canExecuteTask t p = true <-> dependencies_met p t.
Proof.
  intros p t. unfold canExecuteTask, dependencies_met.
  destruct (dependencies t) as [|d0 ds] eqn:E.
  - simpl. split; [intros _ d []|reflexivity].
  - cbn [length Nat.eqb]. rewrite forallb_forall. split.
    + intros H d Hd. specialize (H d Hd).
      destruct (find_by_id (tasks p) d) as [u|]; [|discriminate].
      exists u. split; [reflexivity|].
      destruct (TaskStatus_eqb_spec (status u) completed); congruence.
    + intros H d Hd. destruct (H d Hd) as [u [-> Hu]]. rewrite Hu.
      reflexivity.
Qed.

Lemma In_fold_add :
  forall (l acc : list string) (x : string),
    In x (fold_left (fun s y => JsSet.add String.eqb y s) l acc)
    <-> In x l \/ In x acc.
Proof.
  induction l as [|a l IH]; intros acc x; simpl.
  - tauto.
  - rewrite IH. rewrite (In_add String.eqb String.eqb_spec).
    split; intros H; intuition congruence.
Qed.

Lemma find_by_id_unique :
  forall ts u,
    NoDup (map id ts) -> In u ts -> find_by_id ts (id u) = Some u.
Proof.
  unfold find_by_id. induction ts as [|a ts IH]; intros u Hnd Hin.
  - destruct Hin.
  - simpl. inversion Hnd as [|? ? Hna Hnd']; subst.
    destruct Hin as [->|Hin].
    + rewrite String.eqb_refl. reflexivity.
    + destruct (String.eqb_spec (id a) (id u)) as [E|E].
      * exfalso. apply Hna. rewrite E. apply in_map. assumption.
      * apply IH; assumption.
Qed.

Lemma forallb_same :
  forall (A : Type) (f g : A -> bool) (l : list A),
    (forall x, In x l -> f x = g x) -> forallb f l = forallb g l.
Proof.
  intros A f g l. induction l as [|a l IH]; intros H; [reflexivity|].
  simpl. rewrite (H a (or_introl eq_refl)), IH; [reflexivity|].
  intros x Hx. apply H. right. assumption.
Qed.

Lemma filter_twice :
  forall (A : Type) (f g : A -> bool) (l : list A),
    filter f (filter g l) = filter (fun x => g x && f x) l.
Proof.
  intros A f g l. induction l as [|a l IH]; [reflexivity|]. simpl.
  destruct (g a); simpl; [destruct (f a)|]; rewrite IH; reflexivity.
Qed.

(** C8: [getExecutableTasks] returns exactly the pending tasks of the plan
    whose dependency ids all resolve to completed tasks; a pending task
    without dependencies is returned, a pending task with a dependency that
    resolves to a task that is not completed is not.  The result is a
    function of the plan alone.  When the ids of the plan are distinct,
    [getExecutableTaskIds] lists the ids of the same tasks. *)
Theorem getExecutableTasks_exact :
  forall (p : Plan),
    (forall t, In t (getExecutableTasks p) <->
               In t (tasks p) /\ status t = pending /\ dependencies_met p t) /\
    (forall t, In t (tasks p) -> status t = pending ->
               dependencies t = [] -> In t (getExecutableTasks p)) /\
    (forall t d u, In d (dependencies t) ->
               find_by_id (tasks p) d = Some u -> status u <> completed ->
               ~ In t (getExecutableTasks p)) /\
    (forall t d, In d (dependencies t) ->
               find_by_id (tasks p) d = None ->
               ~ In t (getExecutableTasks p)) /\
    (NoDup (map id (tasks p)) ->
       getExecutableTaskIds p = map id (getExecutableTasks p)).
Proof.
  intros p.
  assert (Hexact : forall t, In t (getExecutableTasks p) <->
            In t (tasks p) /\ status t = pending /\ dependencies_met p t).
  { intros t. unfold getExecutableTasks. rewrite filter_In, andb_true_iff.
    rewrite canExecuteTask_spec.
    destruct (TaskStatus_eqb_spec (status t) pending); split;
      intros H; intuition congruence. }
  split; [exact Hexact|]. split; [|split; [|split]].
  - intros t Ht Hs Hd. apply Hexact. repeat split; try assumption.
    intros d. rewrite Hd. intros [].
  - intros t d u Hd Hf Hu Hin. apply Hexact in Hin.
    destruct Hin as (_ & _ & Hmet). destruct (Hmet d Hd) as [u' [Hf' Hu']].
    congruence.
  - intros t d Hd Hf Hin. apply Hexact in Hin.
    destruct Hin as (_ & _ & Hmet). destruct (Hmet d Hd) as [u' [Hf' _]].
    congruence.
  - intros Hnd. unfold getExecutableTaskIds, getExecutableTasks. f_equal.
    rewrite filter_twice.
    apply filter_ext_in. intros t Ht.
    destruct (TaskStatus_eqb (status t) pending); [|reflexivity]. simpl.
    unfold canExecuteTask.
    destruct (dependencies t) as [|d0 ds]; [reflexivity|].
    cbn [length Nat.eqb].
    apply forallb_same. intros d _.
    match goal with |- JsSet.has _ _ ?s = _ => set (done := s) end.
    destruct (find_by_id (tasks p) d) as [u|] eqn:Hf.
    + apply find_by_id_Some in Hf as [Hu Hid].
      destruct (TaskStatus_eqb_spec (status u) completed) as [Hc|Hc].
      * apply (has_In String.eqb String.eqb_spec). unfold done.
        apply In_fold_add. left. rewrite <- Hid. apply in_map.
        apply filter_In. split; [assumption|]. rewrite Hc. reflexivity.
      * apply (has_false String.eqb String.eqb_spec). unfold done.
        rewrite In_fold_add. intros [H|[]].
        apply in_map_iff in H. destruct H as [v [Hv Hvin]].
        apply filter_In in Hvin. destruct Hvin as [Hvin Hvc].
        assert (v = u).
        { pose proof (find_by_id_unique _ _ Hnd Hvin) as F1.
          pose proof (find_by_id_unique _ _ Hnd Hu) as F2.
          rewrite Hv, <- Hid in F1. congruence. }
        subst v. apply Hc.
        destruct (TaskStatus_eqb_spec (status u) completed); congruence.
    + apply (has_false String.eqb String.eqb_spec). unfold done.
      rewrite In_fold_add. intros [H|[]].
      apply find_by_id_None in Hf. apply Hf.
      apply in_map_iff in H. destruct H as [v [Hv Hvin]].
      apply filter_In in Hvin. rewrite <- Hv. apply in_map. tauto.
Qed.

(** The scenario of the specification: A without dependencies, B depending
    on A. *)
Example getExecutableTasks_scenario :
  map id (getExecutableTasks (sample_plan pending pending)) = ["A"] /\
  map id (getExecutableTasks (sample_plan completed pending)) = ["B"] /\
  map id (getExecutableTasks (sample_plan failed pending)) = [] /\
  map id (getExecutableTasks (sample_plan in_progress pending)) = [].
Proof. repeat split. Qed.

(** ** Modifying a task *)

Lemma obj_get_set :
  forall k k' v props,
    Js.obj_get k (Js.obj_set k' v props)
    = if String.eqb k' k then Some v else Js.obj_get k props.
Proof.
  intros k k' v props. induction props as [|[k0 v0] props IH]; simpl.
  - reflexivity.
  - destruct (String.eqb_spec k0 k') as [->|Hne]; simpl.
    + destruct (String.eqb_spec k' k); reflexivity.
    + destruct (String.eqb_spec k0 k) as [->|Hne'].
      * destruct (String.eqb_spec k' k); [congruence|reflexivity].
      * assumption.
Qed.

(** After [{...target, ...source}] a key holds the value the source gives
    it last, and the value of the target when the source does not have it. *)
Lemma obj_get_assign :
  forall k source target,
    Js.obj_get k (Js.assign target source)
    = match Js.obj_get k (rev source) with
      | Some x => Some x
      | None => Js.obj_get k target
      end.
Proof.
  intros k source. unfold Js.assign.
  induction source as [|[k0 v0] source IH] using rev_ind; intros target.
  - reflexivity.
  - rewrite fold_left_app, rev_app_distr. simpl.
    rewrite obj_get_set. destruct (String.eqb k0 k); [reflexivity|].
    apply IH.
Qed.

Lemma nth_error_replace_nth :
  forall (A : Type) (l : list A) (i j : nat) (x : A),
    nth_error (replace_nth i x l) j
    = if (j =? i)%nat
      then match nth_error l j with Some _ => Some x | None => None end
      else nth_error l j.
Proof.
  intros A l. induction l as [|a l IH]; intros i j x.
  - destruct i, j; simpl; try reflexivity;
      destruct (_ =? _)%nat; reflexivity.
  - destruct i as [|i], j as [|j]; simpl; try reflexivity. apply IH.
Qed.

(** C6: for every plan, every index in range and every answer of the
    generation service, [modifyTask] returns the plan with the task at that
    index holding the id it had before, and the other tasks untouched.
    When the answer is JSON, the task takes, for every key other than
    [id], the value the parsed answer gives it, and keeps its own value
    for the keys the answer does not have; when the answer is not JSON the
    task is unchanged. *)
Theorem modifyTask_preserves_id :
  forall (p : Plan) (i : Z) (response : string) (h : Host),
    (0 <= i < Z.of_nat (length (tasks p)))%Z ->
    exists t v h' o,
      nth_error (tasks p) (Z.to_nat i) = Some t /\
      modifyTask p i response h = (Ok v, h') /\
      nth_error (tasks_of v) (Z.to_nat i) = Some o /\
      prop "id" o = Some (Js.VStr (id t)) /\
      (forall j, j <> Z.to_nat i ->
         nth_error (tasks_of v) j = nth_error (map Task_toValue (tasks p)) j) /\
      match Js.JSON_parse (response_text response) with
      | Some modifiedTask =>
          forall k, k <> "id" ->
            prop k o
            = match Js.obj_get k (rev (Js.spread_props modifiedTask)) with
              | Some x => Some x
              | None => Js.obj_get k (Task_props t)
              end
      | None => o = Task_toValue t
      end.
Proof.
  intros p i response h Hi. apply in_range_spec in Hi as Hr.
  destruct (in_range_nth i p Hr) as [t Ht]. exists t.
  unfold modifyTask, try_catch. rewrite Hr. cbn [negb].
  destruct (Js.JSON_parse (response_text response)) as [m|] eqn:Hp.
  - rewrite Ht. eexists. eexists. exists (merge_task t m).
    split; [reflexivity|]. split; [reflexivity|].
    cbn [plan_object tasks_of Js.obj_get String.eqb Ascii.eqb Bool.eqb].
    split; [|split; [|split]].
    + rewrite nth_error_replace_nth, Nat.eqb_refl, nth_error_map, Ht.
      reflexivity.
    + unfold merge_task, prop. rewrite obj_get_set, String.eqb_refl.
      reflexivity.
    + intros j Hj. rewrite nth_error_replace_nth.
      apply Nat.eqb_neq in Hj. rewrite Hj. reflexivity.
    + intros k Hk.
      unfold merge_task, prop. rewrite obj_get_set.
      destruct (String.eqb_spec "id" k) as [E|_]; [congruence|].
      apply obj_get_assign.
  - eexists. eexists. exists (Task_toValue t).
    split; [assumption|]. split; [reflexivity|].
    unfold Plan_toValue.
    cbn [plan_object tasks_of Js.obj_get String.eqb Ascii.eqb Bool.eqb].
    split; [|split; [|split]].
    + rewrite nth_error_map, Ht. reflexivity.
    + reflexivity.
    + reflexivity.
    + reflexivity.
Qed.

Lemma modifyTask_preserves_id_witness :
  exists t v h' o,
    nth_error (tasks (sample_plan pending pending)) (Z.to_nat 1) = Some t /\
    modifyTask (sample_plan pending pending) 1
      sample_answer sample_host = (Ok v, h') /\
    nth_error (tasks_of v) (Z.to_nat 1) = Some o /\
    prop "id" o = Some (Js.VStr (id t)) /\
    (forall j, j <> Z.to_nat 1 ->
       nth_error (tasks_of v) j
       = nth_error (map Task_toValue (tasks (sample_plan pending pending))) j) /\
    match Js.JSON_parse (response_text sample_answer) with
    | Some modifiedTask =>
        forall k, k <> "id" ->
          prop k o
          = match Js.obj_get k (rev (Js.spread_props modifiedTask)) with
            | Some x => Some x
            | None => Js.obj_get k (Task_props t)
            end
    | None => o = Task_toValue t
    end.
Proof.
  apply (modifyTask_preserves_id (sample_plan pending pending) 1
           sample_answer sample_host).
  simpl. lia.
Defined.

(** An answer that carries an [id] and a new title: the title changes, the
    id does not. *)
Example modifyTask_ignores_payload_id :
  exists v h',
    modifyTask (sample_plan pending pending) 1
      sample_answer sample_host = (Ok v, h') /\
    map (prop "id") (tasks_of v) = [Some (Js.VStr "A"); Some (Js.VStr "B")] /\
    map (prop "title") (tasks_of v)
      = [Some (Js.VStr "title"); Some (Js.VStr "New title")].
Proof. eexists. eexists. vm_compute. repeat split. Qed.

(** The spread of a string has one key for each code unit: a letter with
    an accent is one code unit, a character outside the basic plane is
    two. *)
Example spread_of_a_string :
  map fst
    (Js.spread_props
       (Js.VStr (Js.utf8 97 ++ Js.utf8 233 ++ Js.utf8 128512)%string))
  = ["0"; "1"; "2"; "3"].
Proof. reflexivity. Qed.

(** ** Building a plan *)

Lemma bind_Ok :
  forall (A B : Type) (c : M A) (k : A -> M B) (h h' : Host) (b : B),
    bind c k h = (Ok b, h') ->
    exists a h1, c h = (Ok a, h1) /\ k a h1 = (Ok b, h').
Proof.
  intros A B c k h h' b H. unfold bind in H.
  destruct (c h) as [[a|e] h1]; [|discriminate]. eauto.
Qed.

Ltac bind_inv H :=
  let a := fresh "a" in
  let h1 := fresh "h" in
  let H1 := fresh "Hc" in
  apply bind_Ok in H; destruct H as (a & h1 & H1 & H).

Lemma processTasks_from_length :
  forall tasksData index h ts h',
    processTasks_from index tasksData h = (Ok ts, h') ->
    length ts = length tasksData.
Proof.
  induction tasksData as [|d tasksData IH]; intros index h ts h' H.
  - inversion H. reflexivity.
  - cbn [processTasks_from] in H. bind_inv H. bind_inv H.
    inversion H; subst. simpl. f_equal. eapply IH. eassumption.
Qed.

Lemma tasks_data_Ok :
  forall a h arr h',
    tasks_data a h = (Ok arr, h') -> arr = array_or_empty a.
Proof.
  intros a h arr h' H. unfold tasks_data in H.
  destruct a as [v|]; [|inversion H; reflexivity].
  destruct v; simpl in H; try (inversion H; reflexivity);
    repeat match type of H with
           | (if ?b then _ else _) _ = _ => destruct b
           end; inversion H; reflexivity.
Qed.

Lemma get_prop_Ok :
  forall v k h o h',
    get_prop v k h = (Ok o, h') -> o = prop k v /\ h' = h.
Proof.
  intros v k h o h' H. destruct v; inversion H; split; reflexivity.
Qed.

(** C2, as the code has it: on every text [parsePlanResponse] returns a
    plan and throws nothing; the plan is the fallback plan with its single
    task, or it has one task for each entry of the [tasks] array of the
    extracted payload (none when the payload has no such array). *)
Theorem parsePlanResponse_total :
  forall (planResponse requirements : string) (h : Host),
    exists v h',
      parsePlanResponse planResponse requirements h = (Ok v, h') /\
      (length (tasks_of v) = 1 \/
       Js.truthy (extractJsonFromResponse planResponse) = true /\
       length (tasks_of v)
       = length (payload_tasks (extractJsonFromResponse planResponse))).
Proof.
  intros planResponse requirements h.
  unfold parsePlanResponse, try_catch.
  destruct (parsePlanResponse_try planResponse requirements h)
    as [[v|e] h1] eqn:E.
  - exists v, h1. split; [reflexivity|]. right.
    unfold parsePlanResponse_try in E.
    destruct (Js.truthy (extractJsonFromResponse planResponse)) eqn:Ht;
      [|discriminate].
    split; [reflexivity|]. cbn [negb] in E.
    do 8 bind_inv E.
    apply get_prop_Ok in Hc4 as [-> ->].
    apply tasks_data_Ok in Hc5 as ->.
    apply processTasks_from_length in Hc6.
    do 3 bind_inv E. inversion E; subst.
    cbn [tasks_of Js.obj_get String.eqb Ascii.eqb Bool.eqb].
    rewrite length_map. assumption.
  - eexists. eexists. split; [reflexivity|]. left. reflexivity.
Qed.

(** C2 fails on the empty object: the payload is usable, it has no tasks,
    and the plan that is built has none. *)
Lemma parsePlanResponse_empty_object :
  exists v h',
    parsePlanResponse "{}" "Build a web app" sample_host = (Ok v, h') /\
    tasks_of v = [] /\
    length (tasks_of v) = 0.
Proof. eexists. eexists. vm_compute. repeat split. Qed.

(** The other degenerate inputs: the empty text gives the fallback plan,
    a payload that is not an object gives a plan without tasks. *)
Example parsePlanResponse_degenerate_inputs :
  (exists v h',
     parsePlanResponse "" "Build a web app" sample_host = (Ok v, h') /\
     length (tasks_of v) = 1) /\
  (exists v h',
     parsePlanResponse "42" "Build a web app" sample_host = (Ok v, h') /\
     length (tasks_of v) = 0).
Proof. split; eexists; eexists; vm_compute; repeat split. Qed.

(** ** The dependency graph *)

Section Graph.
Context {K : Type}.

Lemma reaches_snoc :
  forall (tasks : list (K * list K)) a b c,
    reaches tasks a b -> edge tasks b c -> reaches tasks a c.
Proof.
  intros tasks a b c H. induction H as [a b H|a b b' H _ IH]; intros Hc.
  - eapply reaches_step; [eassumption|]. apply reaches_edge. assumption.
  - eapply reaches_step; [eassumption|]. apply IH. assumption.
Qed.

Lemma in_all_keys_id :
  forall (tasks : list (K * list K)) t,
    In t tasks -> In (fst t) (Validator.all_keys tasks).
Proof.
  intros tasks t H. unfold Validator.all_keys. apply in_or_app. left.
  apply in_map. assumption.
Qed.

Lemma in_all_keys_dep :
  forall (tasks : list (K * list K)) t d,
    In t tasks -> In d (snd t) -> In d (Validator.all_keys tasks).
Proof.
  intros tasks t d H Hd. unfold Validator.all_keys. apply in_or_app. right.
  apply in_concat. exists (snd t). split; [apply in_map|]; assumption.
Qed.
End Graph.

(** ** The traversal terminates

    Every call that goes past the two membership tests adds an id that was
    not yet in [visited]; the ids come from [all_keys], so the depth of the
    recursion is at most their number.  Only the reflexivity of the
    equality test is used. *)

Section Termination.
Context {K : Type} (eqb : K -> K -> bool).
Hypothesis eqb_refl : forall x, eqb x x = true.
Variable tasks : list (K * list K).

Abbreviation unseen := (Traversal.unseen eqb).
Abbreviation grows := (Traversal.grows eqb).

Lemma has_app :
  forall x s s',
    JsSet.has eqb x (s ++ s') = JsSet.has eqb x s || JsSet.has eqb x s'.
Proof. intros. unfold JsSet.has. apply existsb_app. Qed.

Lemma grows_add : forall x s, grows s (JsSet.add eqb x s).
Proof.
  intros x s k H. unfold JsSet.add.
  destruct (JsSet.has eqb x s); [assumption|].
  rewrite has_app, H. reflexivity.
Qed.

Lemma has_add_self : forall x s, JsSet.has eqb x (JsSet.add eqb x s) = true.
Proof.
  intros x s. unfold JsSet.add. destruct (JsSet.has eqb x s) eqn:E.
  - assumption.
  - rewrite has_app. simpl. rewrite eqb_refl. apply orb_true_r.
Qed.

Lemma unseen_le :
  forall keys s s', grows s s' -> unseen keys s' <= unseen keys s.
Proof.
  intros keys s s' H. unfold Traversal.unseen.
  induction keys as [|k keys IH]; simpl; [lia|].
  destruct (JsSet.has eqb k s) eqn:E.
  - rewrite (H k E). simpl. assumption.
  - simpl. destruct (JsSet.has eqb k s'); simpl; lia.
Qed.

Lemma unseen_lt :
  forall keys s s' x,
    grows s s' -> In x keys ->
    JsSet.has eqb x s = false -> JsSet.has eqb x s' = true ->
    unseen keys s' < unseen keys s.
Proof.
  intros keys s s' x H. unfold Traversal.unseen.
  induction keys as [|k keys IH]; simpl; intros Hin Hs Hs'; [contradiction|].
  destruct Hin as [->|Hin].
  - rewrite Hs, Hs'. simpl.
    pose proof (unseen_le keys s s' H) as Hle. unfold Traversal.unseen in Hle. lia.
  - specialize (IH Hin Hs Hs').
    destruct (JsSet.has eqb k s) eqn:E.
    + rewrite (H k E). simpl. assumption.
    + simpl. destruct (JsSet.has eqb k s'); simpl; lia.
Qed.

Lemma unseen_bound : forall keys s, unseen keys s <= length keys.
Proof. intros. unfold Traversal.unseen. apply filter_length_le. Qed.

Lemma find_task_In :
  forall x t, Validator.find_task eqb tasks x = Some t -> In t tasks.
Proof.
  intros x t H. unfold Validator.find_task in H.
  apply find_some in H. tauto.
Qed.

Lemma hasCycle_loop_terminates :
  forall (rec : K -> Validator.state -> option (bool * Validator.state))
         (n : nat) (x : K),
    (forall d st, In d (Validator.all_keys tasks) ->
       unseen (Validator.all_keys tasks) (Validator.visited st) < n ->
       exists r st', rec d st = Some (r, st') /\
         grows (Validator.visited st) (Validator.visited st')) ->
    forall deps st,
      (forall d, In d deps -> In d (Validator.all_keys tasks)) ->
      unseen (Validator.all_keys tasks) (Validator.visited st) < n ->
      exists r st', Validator.hasCycle_loop eqb rec x deps st = Some (r, st') /\
        grows (Validator.visited st) (Validator.visited st').
Proof.
  intros rec n x Hrec. induction deps as [|d deps IH]; intros st Hk Hn.
  - simpl. eexists. eexists. split; [reflexivity|]. intros k Hk'. exact Hk'.
  - simpl. destruct (Hrec d st (Hk d (or_introl eq_refl)) Hn)
      as (r & st1 & -> & Hg).
    destruct r.
    + eexists. eexists. split; [reflexivity|]. exact Hg.
    + destruct (IH st1) as (r' & st2 & E & Hg').
      * intros d' Hd'. apply Hk. right. assumption.
      * pose proof (unseen_le (Validator.all_keys tasks) _ _ Hg). lia.
      * exists r', st2. split; [assumption|].
        intros k Hk'. apply Hg', Hg, Hk'.
Qed.

Lemma hasCycle_terminates :
  forall fuel x st,
    In x (Validator.all_keys tasks) ->
    unseen (Validator.all_keys tasks) (Validator.visited st) < fuel ->
    exists r st', Validator.hasCycle eqb fuel tasks x st = Some (r, st') /\
      grows (Validator.visited st) (Validator.visited st').
Proof.
  induction fuel as [|fuel IH]; intros x st Hx Hn; [lia|].
  cbn [Validator.hasCycle].
  destruct (JsSet.has eqb x (Validator.recursionStack st)).
  { eexists. eexists. split; [reflexivity|]. intros k Hk. exact Hk. }
  destruct (JsSet.has eqb x (Validator.visited st)) eqn:Ev.
  { eexists. eexists. split; [reflexivity|]. intros k Hk. exact Hk. }
  set (st1 := Validator.mkState _ _ _).
  assert (Hlt : unseen (Validator.all_keys tasks) (Validator.visited st1) < fuel).
  { assert (unseen (Validator.all_keys tasks) (Validator.visited st1)
            < unseen (Validator.all_keys tasks) (Validator.visited st)).
    { apply (unseen_lt _ _ _ x); try assumption.
      - apply grows_add.
      - apply has_add_self. }
    lia. }
  assert (Hg1 : grows (Validator.visited st) (Validator.visited st1))
    by apply grows_add.
  destruct (Validator.find_task eqb tasks x) as [t|] eqn:Ef.
  - destruct (hasCycle_loop_terminates (Validator.hasCycle eqb fuel tasks)
                fuel x IH (snd t) st1) as (r & st' & E & Hg).
    + intros d Hd. eapply in_all_keys_dep; [|eassumption].
      eapply find_task_In. eassumption.
    + assumption.
    + exists r, st'. split; [assumption|]. intros k Hk. apply Hg, Hg1, Hk.
  - destruct (hasCycle_loop_terminates (Validator.hasCycle eqb fuel tasks)
                fuel x IH [] st1) as (r & st' & E & Hg).
    + intros d [].
    + assumption.
    + exists r, st'. split; [assumption|]. intros k Hk. apply Hg, Hg1, Hk.
Qed.

Lemma roots_terminates :
  forall todo st,
    (forall t, In t todo -> In t tasks) ->
    exists st',
      Validator.roots eqb (S (length (Validator.all_keys tasks))) tasks todo st
      = Some st'.
Proof.
  induction todo as [|t todo IH]; intros st Hin.
  - simpl. eauto.
  - cbn [Validator.roots].
    destruct (JsSet.has eqb (fst t) (Validator.visited st)).
    + apply IH. intros u Hu. apply Hin. right. assumption.
    + destruct (hasCycle_terminates (S (length (Validator.all_keys tasks)))
                  (fst t) st) as (r & st' & -> & _).
      * apply in_all_keys_id. apply Hin. left. reflexivity.
      * pose proof (unseen_bound (Validator.all_keys tasks)
                      (Validator.visited st)). lia.
      * apply IH. intros u Hu. apply Hin. right. assumption.
Qed.

(** [detect] always returns. *)
Lemma detect_terminates :
  exists edges, Validator.detect eqb tasks = Some edges.
Proof.
  unfold Validator.detect, Validator.detect_fuel.
  destruct (roots_terminates tasks Validator.init (fun t H => H)) as [st' ->].
  simpl. eauto.
Qed.
End Termination.

(** ** What the validator reports

    From here on the equality test decides equality, as on strings. *)

Section Detection.
Context {K : Type} (eqb : K -> K -> bool).
Hypothesis eqb_spec : forall x y, reflect (x = y) (eqb x y).
Variable tasks : list (K * list K).

Abbreviation has := (JsSet.has eqb).
Abbreviation add := (JsSet.add eqb).
Abbreviation delete := (JsSet.delete eqb).
Abbreviation find_task := (Validator.find_task eqb tasks).
Abbreviation hasCycle := (Validator.hasCycle eqb).
Abbreviation hasCycle_loop := (Validator.hasCycle_loop eqb).
Abbreviation state := (@Validator.state K).
Abbreviation edges_only := (Traversal.edges_only tasks).
Abbreviation circ_extends := (@Traversal.circ_extends K).
Abbreviation deps_of := (Traversal.deps_of eqb tasks).
Abbreviation finished := (@Traversal.finished K).
Abbreviation tidy := (Traversal.tidy eqb tasks).
Abbreviation clean_call := (Traversal.clean_call eqb tasks).
Abbreviation fresh_avoid := (Traversal.fresh_avoid eqb tasks).

Lemma find_task_Some :
  forall x t, find_task x = Some t -> In t tasks /\ fst t = x.
Proof.
  intros x t H. unfold Validator.find_task in H. apply find_some in H.
  destruct H as [H1 H2]. destruct (eqb_spec (fst t) x); [tauto|discriminate].
Qed.

Lemma find_task_edge :
  forall x t d, find_task x = Some t -> In d (snd t) -> edge tasks x d.
Proof.
  intros x t d H Hd. apply find_task_Some in H as [H1 H2].
  exists t. tauto.
Qed.

(** *** Without a cycle nothing is reported *)

Section Acyclic.
Hypothesis Hacyclic : acyclic tasks.

(** The invariant: every id on the recursion stack reaches the id the
    traversal is looking at. *)
Lemma hasCycle_loop_acyclic :
  forall (rec : K -> state -> option (bool * state))
         (x : K) (stack : list K) (circ : list (K * K)),
    ~ In x stack ->
    (forall d st r st',
       rec d st = Some (r, st') ->
       (forall s, In s (Validator.recursionStack st) -> reaches tasks s d) ->
       r = false /\
       Validator.recursionStack st' = Validator.recursionStack st /\
       Validator.circularDeps st' = Validator.circularDeps st) ->
    (forall s, In s stack -> reaches tasks s x) ->
    forall deps st r st',
      (forall d, In d deps -> edge tasks x d) ->
      Validator.recursionStack st = add x stack ->
      Validator.circularDeps st = circ ->
      hasCycle_loop rec x deps st = Some (r, st') ->
      r = false /\
      Validator.recursionStack st' = stack /\
      Validator.circularDeps st' = circ.
Proof.
  intros rec x stack circ Hx Hrec Hpath.
  induction deps as [|d deps IH]; intros st r st' Hd Hs Hc H.
  - simpl in H. inversion H; subst. simpl. rewrite Hs.
    rewrite (delete_add_fresh eqb eqb_spec) by assumption. auto.
  - simpl in H. destruct (rec d st) as [[r1 st1]|] eqn:E; [|discriminate].
    apply Hrec in E.
    + destruct E as (-> & Hs1 & Hc1).
      apply (IH st1 r st'); try assumption.
      * intros d' Hd'. apply Hd. right. assumption.
      * congruence.
      * congruence.
    + intros s Hin. rewrite Hs in Hin.
      apply (In_add eqb eqb_spec) in Hin. destruct Hin as [->|Hin].
      * apply reaches_edge. apply Hd. left. reflexivity.
      * eapply reaches_snoc; [apply Hpath; assumption|].
        apply Hd. left. reflexivity.
Qed.

Lemma hasCycle_acyclic :
  forall fuel x st r st',
    hasCycle fuel tasks x st = Some (r, st') ->
    (forall s, In s (Validator.recursionStack st) -> reaches tasks s x) ->
    r = false /\
    Validator.recursionStack st' = Validator.recursionStack st /\
    Validator.circularDeps st' = Validator.circularDeps st.
Proof.
  induction fuel as [|fuel IH]; intros x st r st' H Hpath; [discriminate|].
  cbn [Validator.hasCycle] in H.
  destruct (has x (Validator.recursionStack st)) eqn:Es.
  { apply (has_In eqb eqb_spec) in Es. apply Hpath in Es.
    exfalso. exact (Hacyclic x Es). }
  destruct (has x (Validator.visited st)).
  { inversion H; subst. auto. }
  apply (has_false eqb eqb_spec) in Es.
  destruct (find_task x) as [t|] eqn:Ef.
  - eapply (hasCycle_loop_acyclic _ x (Validator.recursionStack st)
              (Validator.circularDeps st) Es IH Hpath (snd t));
      [| | |exact H]; try reflexivity.
    intros d Hd. eapply find_task_edge; eassumption.
  - eapply (hasCycle_loop_acyclic _ x (Validator.recursionStack st)
              (Validator.circularDeps st) Es IH Hpath []);
      [| | |exact H]; try reflexivity.
    intros d [].
Qed.

Lemma roots_acyclic :
  forall fuel todo st st',
    Validator.roots eqb fuel tasks todo st = Some st' ->
    Validator.recursionStack st = [] ->
    Validator.circularDeps st = [] ->
    Validator.circularDeps st' = [].
Proof.
  intros fuel. induction todo as [|t todo IH]; intros st st' H Hs Hc.
  - inversion H; subst. assumption.
  - cbn [Validator.roots] in H.
    destruct (has (fst t) (Validator.visited st)).
    + eapply IH; eassumption.
    + destruct (hasCycle fuel tasks (fst t) st) as [[r st1]|] eqn:E;
        [|discriminate].
      apply hasCycle_acyclic in E.
      * destruct E as (_ & Hs1 & Hc1). eapply IH; [eassumption| |];
          congruence.
      * rewrite Hs. intros s [].
Qed.

Lemma detect_acyclic : Validator.detect eqb tasks = Some [].
Proof.
  assert (Hrefl : forall x, eqb x x = true).
  { intros x. destruct (eqb_spec x x); congruence. }
  destruct (detect_terminates eqb Hrefl tasks) as [edges E].
  rewrite E. f_equal. unfold Validator.detect, Validator.detect_fuel in E.
  destruct (Validator.roots eqb _ tasks tasks Validator.init) as [st'|] eqn:R;
    [|discriminate].
  inversion E; subst. eapply roots_acyclic; [eassumption| |]; reflexivity.
Qed.
End Acyclic.
(** *** What is reported is a dependency *)

Lemma circ_extends_refl : forall st, circ_extends st st.
Proof. intros st. exists []. rewrite app_nil_r. reflexivity. Qed.

Lemma circ_extends_trans :
  forall a b c, circ_extends a b -> circ_extends b c -> circ_extends a c.
Proof.
  intros a b c [l E] [l' E']. exists (l ++ l').
  rewrite E', E, app_assoc. reflexivity.
Qed.

Lemma circ_extends_nil :
  forall st st',
    circ_extends st st' -> Validator.circularDeps st' = [] ->
    Validator.circularDeps st = [].
Proof.
  intros st st' [l E] H. rewrite E in H. apply app_eq_nil in H. tauto.
Qed.

Lemma hasCycle_loop_reports :
  forall (rec : K -> state -> option (bool * state))
         (x : K),
    (forall d st r st',
       rec d st = Some (r, st') ->
       circ_extends st st' /\ (edges_only st -> edges_only st')) ->
    forall deps st r st',
      (forall d, In d deps -> edge tasks x d) ->
      hasCycle_loop rec x deps st = Some (r, st') ->
      circ_extends st st' /\ (edges_only st -> edges_only st').
Proof.
  intros rec x Hrec. induction deps as [|d deps IH]; intros st r st' Hd H.
  - simpl in H. inversion H; subst. split.
    + exists []. simpl. rewrite app_nil_r. reflexivity.
    + intros He. exact He.
  - simpl in H. destruct (rec d st) as [[r1 st1]|] eqn:E; [|discriminate].
    apply Hrec in E. destruct E as [[l El] Hedge]. destruct r1.
    + inversion H; subst. split.
      * exists (l ++ [(x, d)]). simpl. rewrite El, app_assoc. reflexivity.
      * intros He e Hin. simpl in Hin. apply in_app_or in Hin.
        destruct Hin as [Hin|[<-|[]]]; [apply (Hedge He); assumption|].
        simpl. apply Hd. left. reflexivity.
    + apply IH in H; [|intros d' Hd'; apply Hd; right; assumption].
      destruct H as [Hx Hedge']. split.
      * eapply circ_extends_trans; [exists l; exact El|exact Hx].
      * intros He. apply Hedge', Hedge, He.
Qed.

Lemma hasCycle_reports :
  forall fuel x st r st',
    hasCycle fuel tasks x st = Some (r, st') ->
    circ_extends st st' /\ (edges_only st -> edges_only st').
Proof.
  induction fuel as [|fuel IH]; intros x st r st' H; [discriminate|].
  cbn [Validator.hasCycle] in H.
  destruct (has x (Validator.recursionStack st)).
  { inversion H; subst. split; [apply circ_extends_refl|auto]. }
  destruct (has x (Validator.visited st)).
  { inversion H; subst. split; [apply circ_extends_refl|auto]. }
  destruct (find_task x) as [t|] eqn:Ef.
  - eapply (hasCycle_loop_reports _ x IH (snd t)) in H.
    + exact H.
    + intros d Hd. eapply find_task_edge; eassumption.
  - eapply (hasCycle_loop_reports _ x IH []) in H.
    + exact H.
    + intros d [].
Qed.

Lemma roots_reports :
  forall fuel todo st st',
    Validator.roots eqb fuel tasks todo st = Some st' ->
    circ_extends st st' /\ (edges_only st -> edges_only st').
Proof.
  intros fuel. induction todo as [|t todo IH]; intros st st' H.
  - inversion H; subst. split; [apply circ_extends_refl|auto].
  - cbn [Validator.roots] in H.
    destruct (has (fst t) (Validator.visited st)); [apply IH; assumption|].
    destruct (hasCycle fuel tasks (fst t) st) as [[r st1]|] eqn:E;
      [|discriminate].
    apply hasCycle_reports in E. destruct E as [Hx Hedge].
    apply IH in H. destruct H as [Hx' Hedge']. split.
    + eapply circ_extends_trans; eassumption.
    + intros He. apply Hedge', Hedge, He.
Qed.

Lemma hasCycle_loop_extends :
  forall (rec : K -> state -> option (bool * state))
         (x : K),
    (forall d st r st', rec d st = Some (r, st') -> circ_extends st st') ->
    forall deps st r st',
      hasCycle_loop rec x deps st = Some (r, st') -> circ_extends st st'.
Proof.
  intros rec x Hrec. induction deps as [|d deps IH]; intros st r st' H.
  - simpl in H. inversion H; subst. exists []. simpl.
    rewrite app_nil_r. reflexivity.
  - simpl in H. destruct (rec d st) as [[r1 st1]|] eqn:E; [|discriminate].
    apply Hrec in E. destruct r1.
    + inversion H; subst. eapply circ_extends_trans; [exact E|].
      exists [(x, d)]. reflexivity.
    + eapply circ_extends_trans; [exact E|]. eapply IH. eassumption.
Qed.

(** *** A traversal that reports nothing

    As long as nothing is reported, the ids that are visited and no longer
    on the stack are closed under dependency, and no two of them depend on
    each other. *)

Lemma In_dec_has : forall (x : K) (s : list K), In x s \/ ~ In x s.
Proof.
  intros x s. destruct (has x s) eqn:E.
  - left. apply (has_In eqb eqb_spec). assumption.
  - right. apply (has_false eqb eqb_spec). assumption.
Qed.

Lemma hasCycle_loop_clean :
  forall (rec : K -> state -> option (bool * state))
         (x : K) (V S : list K),
    (forall d st r st',
       rec d st = Some (r, st') -> circ_extends st st') ->
    (forall d st r st',
       rec d st = Some (r, st') -> Validator.circularDeps st' = [] ->
       tidy st -> clean_call d st r st') ->
    forall deps P st r st',
      hasCycle_loop rec x deps st = Some (r, st') ->
      Validator.circularDeps st' = [] ->
      tidy st ->
      Validator.recursionStack st = add x S ->
      incl (add x V) (Validator.visited st) ->
      fresh_avoid x V S st ->
      (forall d, In d P -> finished st d) ->
      r = false /\
      exists e,
        tidy e /\
        Validator.recursionStack e = add x S /\
        incl (add x V) (Validator.visited e) /\
        fresh_avoid x V S e /\
        (forall d, In d (P ++ deps) -> finished e d) /\
        st' = Validator.mkState (Validator.visited e)
                (delete x (Validator.recursionStack e))
                (Validator.circularDeps e).
Proof.
  intros rec x V S Hext Hrec.
  induction deps as [|d deps IH]; intros P st r st' H Hnil Ht Hs Hv Hk Hp.
  - simpl in H. inversion H; subst. split; [reflexivity|].
    exists st. rewrite app_nil_r. repeat (split; [assumption|]). reflexivity.
  - simpl in H. destruct (rec d st) as [[r1 st1]|] eqn:E; [|discriminate].
    destruct r1.
    { inversion H; subst. simpl in Hnil. apply app_eq_nil in Hnil.
      destruct Hnil as [_ Hnil]. discriminate. }
    assert (Hnil1 : Validator.circularDeps st1 = []).
    { eapply circ_extends_nil; [|exact Hnil].
      eapply hasCycle_loop_extends; eassumption. }
    pose proof (Hrec d st false st1 E Hnil1 Ht) as Hcall.
    destruct Hcall as [[Hf _]|(_ & Hd & Ht1 & Hs1 & Hv1 & Hdv & Hnew)];
      [discriminate|].
    destruct (IH (P ++ [d]) st1 r st' H Hnil Ht1) as (Hr & e & He).
    + congruence.
    + intros k Hin. apply Hv1, Hv, Hin.
    + intros u Hu Hnu s Hin.
      destruct (In_dec_has u (Validator.visited st)) as [Hold|Hfresh].
      * exact (Hk u Hold Hnu s Hin).
      * apply (Hnew u Hu Hfresh). rewrite Hs. assumption.
    + intros d' Hin. apply in_app_or in Hin. destruct Hin as [Hin|[<-|[]]].
      * destruct (Hp d' Hin) as [H1 H2]. split; [apply Hv1; assumption|].
        rewrite Hs1. assumption.
      * split; [assumption|]. rewrite Hs1. assumption.
    + split; [assumption|]. exists e.
      rewrite <- app_assoc in He. simpl in He. exact He.
Qed.

Lemma tidy_enter :
  forall (x : K) (st : state),
    tidy st ->
    ~ In x (Validator.visited st) ->
    tidy (Validator.mkState (add x (Validator.visited st))
            (add x (Validator.recursionStack st))
            (Validator.circularDeps st)).
Proof.
  intros x st (G1 & G2 & G3) Hx.
  assert (Hold : forall u,
            finished (Validator.mkState (add x (Validator.visited st))
                        (add x (Validator.recursionStack st))
                        (Validator.circularDeps st)) u ->
            finished st u /\ u <> x).
  { intros u [Hu Hnu]. simpl in Hu, Hnu.
    rewrite (In_add eqb eqb_spec) in Hu, Hnu.
    destruct Hu as [->|Hu]; [exfalso; apply Hnu; left; reflexivity|].
    split; [split; [assumption|]|]; intros F; apply Hnu; [right|left];
      assumption. }
  split; [|split].
  - simpl. intros s Hs. rewrite (In_add eqb eqb_spec) in *.
    destruct Hs as [->|Hs]; [left; reflexivity|right; apply G1; assumption].
  - intros u d Hu Hd. apply Hold in Hu as [Hu _].
    destruct (G2 u d Hu Hd) as [Hd1 Hd2]. split; simpl.
    + apply (In_add eqb eqb_spec). right. assumption.
    + rewrite (In_add eqb eqb_spec). intros [->|F]; contradiction.
  - intros u d Hu Hd. apply Hold in Hu as [Hu _]. exact (G3 u d Hu Hd).
Qed.

Lemma hasCycle_clean :
  forall fuel x st r st',
    hasCycle fuel tasks x st = Some (r, st') ->
    Validator.circularDeps st' = [] ->
    tidy st ->
    clean_call x st r st'.
Proof.
  induction fuel as [|fuel IH]; intros x st r st' H Hnil Ht; [discriminate|].
  cbn [Validator.hasCycle] in H.
  destruct (has x (Validator.recursionStack st)) eqn:Es.
  { inversion H; subst. left. apply (has_In eqb eqb_spec) in Es. auto. }
  apply (has_false eqb eqb_spec) in Es.
  destruct (has x (Validator.visited st)) eqn:Ev.
  { inversion H; subst. right. apply (has_In eqb eqb_spec) in Ev.
    repeat (split; [first [assumption | reflexivity | apply incl_refl]|]).
    intros u Hu Hnu. contradiction. }
  apply (has_false eqb eqb_spec) in Ev.
  assert (Hloop : hasCycle_loop (hasCycle fuel tasks) x (deps_of x)
                    (Validator.mkState (add x (Validator.visited st))
                       (add x (Validator.recursionStack st))
                       (Validator.circularDeps st)) = Some (r, st')).
  { unfold Traversal.deps_of. destruct (find_task x); exact H. }
  clear H.
  apply (hasCycle_loop_clean _ x (Validator.visited st)
           (Validator.recursionStack st)
           (fun d s r0 s' E => proj1 (hasCycle_reports fuel d s r0 s' E))
           IH (deps_of x) []) in Hloop; try assumption.
  - destruct Hloop as (-> & e & (E1 & E2 & E3) & Hs & Hv & Hk & Hdeps & ->).
    simpl in Hdeps. right.
    assert (Hxs : forall s, In s (Validator.recursionStack st) ->
                            In s (add x (Validator.recursionStack st))).
    { intros s Hin. apply (In_add eqb eqb_spec). right. assumption. }
    assert (Hxx : In x (add x (Validator.recursionStack st))).
    { apply (In_add eqb eqb_spec). left. reflexivity. }
    assert (Hxv : In x (Validator.visited e)).
    { apply Hv. apply (In_add eqb eqb_spec). left. reflexivity. }
    assert (Hstack : delete x (Validator.recursionStack e)
                     = Validator.recursionStack st).
    { rewrite Hs. apply (delete_add_fresh eqb eqb_spec). assumption. }
    split; [reflexivity|]. split; [assumption|].
    split; [|split; [exact Hstack|split; [|split; [exact Hxv|]]]].
    + (* the state after the call is tidy *)
      assert (Hfin : forall u,
                finished (Validator.mkState (Validator.visited e)
                            (delete x (Validator.recursionStack e))
                            (Validator.circularDeps e)) u ->
                u = x \/ finished e u).
      { intros u [Hu Hnu]. simpl in Hu, Hnu. rewrite Hstack in Hnu.
        destruct (eqb_spec u x) as [->|Hne]; [left; reflexivity|right].
        split; [assumption|]. rewrite Hs, (In_add eqb eqb_spec).
        intros [F|F]; contradiction. }
      assert (Hback : forall d,
                finished e d ->
                finished (Validator.mkState (Validator.visited e)
                            (delete x (Validator.recursionStack e))
                            (Validator.circularDeps e)) d).
      { intros d [Hd Hnd]. split; simpl; [assumption|].
        rewrite Hstack. intros F. apply Hnd. rewrite Hs. apply Hxs, F. }
      split; [|split].
      * simpl. rewrite Hstack. intros s Hin. apply E1. rewrite Hs.
        apply Hxs, Hin.
      * intros u d Hu Hd. apply Hback. apply Hfin in Hu as [->|Hu].
        -- apply Hdeps. assumption.
        -- exact (E2 u d Hu Hd).
      * intros u d Hu Hd. apply Hfin in Hu as [->|Hu];
          [|exact (E3 u d Hu Hd)].
        destruct (Hdeps d Hd) as [Hdv Hds]. rewrite Hs in Hds.
        intros Hcyc.
        destruct (In_dec_has d (Validator.visited st)) as [Hold|Hfresh].
        -- destruct Ht as (_ & G2 & _).
           assert (Hfd : finished st d).
           { split; [assumption|]. intros F. apply Hds, Hxs, F. }
           destruct (G2 d x Hfd Hcyc) as [F _]. contradiction.
        -- apply (Hk d Hdv) with (s := x); try assumption.
           rewrite (In_add eqb eqb_spec). intros [->|F]; [|contradiction].
           apply Hds, Hxx.
    + intros k Hin. apply Hv. apply (In_add eqb eqb_spec). right. assumption.
    + simpl. intros u Hu Hnu s Hin Hdep.
      destruct (eqb_spec u x) as [->|Hne].
      * destruct (Hdeps s Hdep) as [_ F]. apply F. rewrite Hs. apply Hxs, Hin.
      * apply (Hk u Hu) with (s := s); try assumption.
        -- rewrite (In_add eqb eqb_spec). intros [F|F]; contradiction.
        -- apply Hxs, Hin.
  - apply tidy_enter; assumption.
  - reflexivity.
  - apply incl_refl.
  - intros u Hu Hnu. contradiction.
  - intros d [].
Qed.

Lemma roots_clean :
  forall fuel todo st st',
    Validator.roots eqb fuel tasks todo st = Some st' ->
    Validator.circularDeps st' = [] ->
    tidy st ->
    Validator.recursionStack st = [] ->
    tidy st' /\ Validator.recursionStack st' = [] /\
    incl (Validator.visited st) (Validator.visited st') /\
    forall t, In t todo -> In (fst t) (Validator.visited st').
Proof.
  intros fuel. induction todo as [|t todo IH]; intros st st' H Hnil Ht Hs.
  - inversion H; subst. repeat (split; [first [assumption|apply incl_refl]|]).
    intros t [].
  - cbn [Validator.roots] in H.
    destruct (has (fst t) (Validator.visited st)) eqn:Ev.
    + apply (has_In eqb eqb_spec) in Ev.
      destruct (IH st st' H Hnil Ht Hs) as (T & S' & I & A).
      repeat (split; [assumption|]).
      intros u [<-|Hu]; [apply I; assumption|apply A; assumption].
    + destruct (hasCycle fuel tasks (fst t) st) as [[r st1]|] eqn:E;
        [|discriminate].
      assert (Hnil1 : Validator.circularDeps st1 = []).
      { eapply circ_extends_nil; [|exact Hnil].
        eapply roots_reports. eassumption. }
      destruct (hasCycle_clean _ _ _ _ _ E Hnil1 Ht)
        as [(_ & F & _)|(_ & _ & T1 & S1 & I1 & V1 & _)].
      { rewrite Hs in F. destruct F. }
      destruct (IH st1 st' H Hnil T1) as (T & S' & I & A); [congruence|].
      repeat (split; [first [assumption|idtac]|]).
      * intros k Hk. apply I, I1, Hk.
      * intros u [<-|Hu]; [apply I; assumption|apply A; assumption].
Qed.

(** Two tasks that depend on each other: something is reported, and every
    pair that is reported is a dependency of the graph. *)
Lemma detect_mutual :
  forall a b ta tb,
    find_task a = Some ta -> In b (snd ta) ->
    find_task b = Some tb -> In a (snd tb) ->
    exists edges,
      Validator.detect eqb tasks = Some edges /\ edges <> [] /\
      forall e, In e edges -> edge tasks (fst e) (snd e).
Proof.
  intros a b ta tb Fa Hb Fb Ha.
  assert (Hrefl : forall x, eqb x x = true).
  { intros x. destruct (eqb_spec x x); congruence. }
  destruct (detect_terminates eqb Hrefl tasks) as [edges E].
  exists edges. split; [assumption|].
  unfold Validator.detect, Validator.detect_fuel in E.
  destruct (Validator.roots eqb _ tasks tasks Validator.init) as [st'|] eqn:R;
    [|discriminate].
  inversion E; subst. clear E. split.
  - intros Hnil.
    destruct (roots_clean _ _ _ _ R Hnil) as ((_ & _ & G3) & S' & _ & A).
    + repeat split; simpl; intros; try contradiction;
        match goal with H : finished _ _ |- _ => destruct H as [[] _] end.
    + reflexivity.
    + apply find_task_Some in Fa as Fa'. destruct Fa' as [Hta Hida].
      assert (Hfa : finished st' a).
      { split; [rewrite <- Hida; apply A; assumption|].
        rewrite S'. intros []. }
      apply (G3 a b Hfa).
      * unfold Traversal.deps_of. rewrite Fa. assumption.
      * unfold Traversal.deps_of. rewrite Fb. assumption.
  - apply (roots_reports _ _ _ _ R). intros e [].
Qed.
End Detection.

(** ** The topological sort *)

Section TopologicalSort.
Variable ts : list Task.

Abbreviation has := (JsSet.has String.eqb).
Abbreviation add := (JsSet.add String.eqb).
Abbreviation delete := (JsSet.delete String.eqb).
Abbreviation get := (Topo.taskMap_get ts).
Abbreviation keys := (Validator.all_keys (graph_of ts)).
Abbreviation seen := Traversal.seen.
Abbreviation sound := (Traversal.sound ts).
Abbreviation visit_spec := (Traversal.visit_spec ts).
Abbreviation on_path := (Traversal.on_path ts).

Lemma get_Some : forall k t, get k = Some t -> In t ts /\ id t = k.
Proof.
  intros k t H. unfold Topo.taskMap_get in H.
  apply (find_by_id_Some (rev ts)) in H. destruct H as [H1 H2].
  split; [apply in_rev|]; assumption.
Qed.

Lemma get_task : forall t, In t ts -> get (id t) <> None.
Proof.
  intros t H F. apply (find_by_id_None (rev ts)) in F. apply F.
  apply in_map. apply in_rev. rewrite rev_involutive. assumption.
Qed.

Lemma get_unique :
  forall t, NoDup (map id ts) -> In t ts -> get (id t) = Some t.
Proof.
  intros t Hnd H. apply (find_by_id_unique (rev ts)).
  - rewrite map_rev. apply NoDup_rev. assumption.
  - apply in_rev. rewrite rev_involutive. assumption.
Qed.

Lemma id_injective :
  forall t u, NoDup (map id ts) -> In t ts -> In u ts -> id t = id u -> t = u.
Proof.
  intros t u Hnd Ht Hu E.
  pose proof (get_unique t Hnd Ht) as G1.
  pose proof (get_unique u Hnd Hu) as G2. rewrite E in G1. congruence.
Qed.

Lemma dep_in_keys :
  forall t d, In t ts -> In d (dependencies t) -> In d keys.
Proof.
  intros t d Ht Hd.
  apply (in_all_keys_dep (graph_of ts) (id t, dependencies t)).
  - unfold graph_of. apply in_map_iff. exists t. auto.
  - assumption.
Qed.

Lemma id_in_keys : forall t, In t ts -> In (id t) keys.
Proof.
  intros t Ht.
  apply (in_all_keys_id (graph_of ts) (id t, dependencies t)).
  unfold graph_of. apply in_map_iff. exists t. auto.
Qed.

(** *** Termination *)

Lemma forEach_terminates :
  forall (rec : string -> Topo.state -> option Topo.state) (n : nat),
    (forall d st, In d keys -> Traversal.unseen String.eqb keys (seen st) < n ->
       exists st', rec d st = Some st' /\
                   Traversal.grows String.eqb (seen st) (seen st')) ->
    forall deps st,
      (forall d, In d deps -> In d keys) ->
      Traversal.unseen String.eqb keys (seen st) < n ->
      exists st', Topo.forEach rec deps st = Some st' /\
                  Traversal.grows String.eqb (seen st) (seen st').
Proof.
  intros rec n Hrec. induction deps as [|d deps IH]; intros st Hk Hn.
  - simpl. eexists. split; [reflexivity|]. intros k Hk'. exact Hk'.
  - simpl. destruct (Hrec d st (Hk d (or_introl eq_refl)) Hn)
      as (st1 & -> & Hg).
    destruct (IH st1) as (st2 & E & Hg').
    + intros d' Hd'. apply Hk. right. assumption.
    + pose proof (unseen_le String.eqb keys _ _ Hg). lia.
    + exists st2. split; [assumption|]. intros k Hk'. apply Hg', Hg, Hk'.
Qed.

Lemma visit_terminates :
  forall fuel x st,
    In x keys -> Traversal.unseen String.eqb keys (seen st) < fuel ->
    exists st', Topo.visit fuel ts x st = Some st' /\
                Traversal.grows String.eqb (seen st) (seen st').
Proof.
  induction fuel as [|fuel IH]; intros x st Hx Hn; [lia|].
  cbn [Topo.visit].
  destruct (has x (Topo.visiting st)) eqn:Eg.
  { eexists. split; [reflexivity|]. intros k Hk. exact Hk. }
  destruct (has x (Topo.visited st)) eqn:Ev.
  { eexists. split; [reflexivity|]. intros k Hk. exact Hk. }
  set (st1 := Topo.mkState _ _ _).
  assert (Hg1 : Traversal.grows String.eqb (seen st) (seen st1)).
  { intros k Hk. unfold Traversal.seen in *. subst st1. simpl.
    rewrite has_app in *. apply orb_true_iff in Hk.
    destruct Hk as [Hk|Hk]; [rewrite Hk; reflexivity|].
    rewrite (grows_add String.eqb x _ k Hk). apply orb_true_r. }
  assert (Hlt : Traversal.unseen String.eqb keys (seen st1) < fuel).
  { assert (Traversal.unseen String.eqb keys (seen st1)
            < Traversal.unseen String.eqb keys (seen st)).
    { apply (unseen_lt String.eqb keys _ _ x); try assumption.
      - unfold Traversal.seen. rewrite has_app, Eg, Ev. reflexivity.
      - unfold Traversal.seen. subst st1. simpl. rewrite has_app.
        rewrite (has_add_self String.eqb String.eqb_refl).
        apply orb_true_r. }
    lia. }
  destruct (get x) as [t|] eqn:Et.
  - apply get_Some in Et as [Ht _].
    destruct (forEach_terminates (Topo.visit fuel ts) fuel IH
                (dependencies t) st1) as (st2 & -> & Hg2).
    + intros d Hd. eapply dep_in_keys; eassumption.
    + assumption.
    + eexists. split; [reflexivity|]. intros k Hk.
      apply Hg1, Hg2 in Hk. unfold Traversal.seen in *. simpl.
      rewrite has_app in *. apply orb_true_iff in Hk.
      apply orb_true_iff. destruct Hk as [Hk|Hk].
      * left. apply (grows_add String.eqb). assumption.
      * apply (has_In String.eqb String.eqb_spec) in Hk.
        destruct (String.eqb_spec k x) as [->|Hne].
        -- left. apply (has_add_self String.eqb String.eqb_refl).
        -- right. apply (has_In String.eqb String.eqb_spec).
           apply (In_delete String.eqb String.eqb_spec). auto.
  - exists st1. split; [reflexivity|assumption].
Qed.

Lemma topologicalSort_terminates :
  exists sorted, topologicalSort ts = Some sorted.
Proof.
  unfold topologicalSort, Topo.sort_fuel.
  destruct (forEach_terminates
              (Topo.visit (S (length keys)) ts) (S (length keys))
              (visit_terminates (S (length keys)))
              (map id ts) Topo.init) as (st' & -> & _).
  - intros d Hd. apply in_map_iff in Hd. destruct Hd as [t [<- Ht]].
    apply id_in_keys. assumption.
  - pose proof (unseen_bound String.eqb keys (seen Topo.init)). lia.
  - simpl. eauto.
Qed.

(** *** Every task once *)

Lemma visited_grows :
  forall st st' more,
    sound st -> sound st' ->
    Topo.result st' = Topo.result st ++ more ->
    incl (Topo.visited st) (Topo.visited st').
Proof.
  intros st st' more (E & _) (E' & _) H k Hk.
  rewrite E in Hk. rewrite E', H, map_app. apply in_or_app. left. assumption.
Qed.

Lemma forEach_spec :
  forall (rec : string -> Topo.state -> option Topo.state),
    (forall d st st', rec d st = Some st' -> sound st -> visit_spec d st st') ->
    forall deps st st',
      Topo.forEach rec deps st = Some st' -> sound st ->
      sound st' /\
      incl (Topo.visiting st) (Topo.visiting st') /\
      (forall k, In k (Topo.visiting st') ->
         In k (Topo.visiting st) \/ get k = None) /\
      (exists more, Topo.result st' = Topo.result st ++ more) /\
      (forall d, In d deps -> get d <> None ->
         In d (Topo.visiting st) \/ In d (Topo.visited st')).
Proof.
  intros rec Hrec. induction deps as [|d deps IH]; intros st st' H Hs.
  - inversion H; subst. repeat split; try assumption; try apply Hs.
    + apply incl_refl.
    + intros k Hk. left. assumption.
    + exists []. rewrite app_nil_r. reflexivity.
    + intros d [].
  - simpl in H. destruct (rec d st) as [st1|] eqn:E; [|discriminate].
    destruct (Hrec d st st1 E Hs) as (S1 & I1 & O1 & [m1 R1] & D1).
    destruct (IH st1 st' H S1) as (S2 & I2 & O2 & [m2 R2] & D2).
    split; [assumption|]. split; [|split; [|split]].
    + intros k Hk. apply I2, I1, Hk.
    + intros k Hk. destruct (O2 k Hk) as [Hk1|Hk1]; [|right; assumption].
      apply O1. assumption.
    + exists (m1 ++ m2). rewrite R2, R1, app_assoc. reflexivity.
    + intros d' [<-|Hd'] Hget.
      * destruct (D1 Hget) as [Hv|Hv]; [left; assumption|right].
        apply (visited_grows st1 st' m2 S1 S2 R2). assumption.
      * destruct (D2 d' Hd' Hget) as [Hv|Hv]; [|right; assumption].
        destruct (O1 d' Hv) as [Hv'|Hv']; [left; assumption|].
        contradiction.
Qed.

Lemma visit_sound :
  forall fuel x st st',
    Topo.visit fuel ts x st = Some st' -> sound st -> visit_spec x st st'.
Proof.
  induction fuel as [|fuel IH]; intros x st st' H Hs; [discriminate|].
  cbn [Topo.visit] in H.
  assert (Hsame : forall st0 : Topo.state,
            sound st0 ->
            (get x <> None ->
             In x (Topo.visiting st0) \/ In x (Topo.visited st0)) ->
            visit_spec x st0 st0).
  { intros st0 Hs0 Hx. split; [assumption|].
    split; [apply incl_refl|]. split; [intros k Hk; left; assumption|].
    split; [exists []; rewrite app_nil_r; reflexivity|assumption]. }
  destruct (has x (Topo.visiting st)) eqn:Eg.
  { inversion H; subst. apply Hsame; [assumption|]. intros _. left.
    apply (has_In String.eqb String.eqb_spec). assumption. }
  destruct (has x (Topo.visited st)) eqn:Ev.
  { inversion H; subst. apply Hsame; [assumption|]. intros _. right.
    apply (has_In String.eqb String.eqb_spec). assumption. }
  apply (has_false String.eqb String.eqb_spec) in Eg, Ev.
  set (st1 := Topo.mkState (Topo.visited st) (add x (Topo.visiting st))
                (Topo.result st)) in *.
  assert (S1 : sound st1).
  { destruct Hs as (A & B & C & D). repeat split; try assumption.
    simpl. intros k Hk. apply (In_add String.eqb String.eqb_spec) in Hk.
    destruct Hk as [->|Hk]; [assumption|apply D; assumption]. }
  destruct (get x) as [t|] eqn:Et.
  - destruct (Topo.forEach (Topo.visit fuel ts) (dependencies t) st1)
      as [st2|] eqn:E; [|discriminate].
    inversion H; subst st'. clear H.
    destruct (forEach_spec _ IH _ _ _ E S1) as (S2 & I2 & O2 & [m R2] & _).
    apply get_Some in Et as Et'. destruct Et' as [Ht Hid].
    assert (Hx2 : In x (Topo.visiting st2)).
    { apply I2. simpl. apply (In_add String.eqb String.eqb_spec). left.
      reflexivity. }
    destruct S2 as (A & B & C & D).
    assert (Hnv : ~ In x (Topo.visited st2)) by (apply D; assumption).
    split; [|split; [|split; [|split]]]; simpl.
    + split; [|split; [|split]]; simpl.
      * unfold JsSet.add.
        apply (has_false String.eqb String.eqb_spec) in Hnv. rewrite Hnv.
        rewrite map_app, A. simpl. rewrite Hid. reflexivity.
      * apply (NoDup_add String.eqb String.eqb_spec). assumption.
      * intros u Hu. apply in_app_or in Hu.
        destruct Hu as [Hu|[<-|[]]]; [apply C|]; assumption.
      * intros k Hk. apply (In_delete String.eqb String.eqb_spec) in Hk.
        destruct Hk as [Hk Hne]. rewrite (In_add String.eqb String.eqb_spec).
        intros [F|F]; [contradiction|]. exact (D k Hk F).
    + intros k Hk. apply (In_delete String.eqb String.eqb_spec). split.
      * apply I2. simpl. apply (In_add String.eqb String.eqb_spec). right.
        assumption.
      * intros ->. contradiction.
    + intros k Hk. apply (In_delete String.eqb String.eqb_spec) in Hk.
      destruct Hk as [Hk Hne]. destruct (O2 k Hk) as [Hk'|Hk'];
        [|right; assumption].
      simpl in Hk'. apply (In_add String.eqb String.eqb_spec) in Hk'.
      destruct Hk' as [F|Hk']; [contradiction|left; assumption].
    + exists (m ++ [t]). rewrite R2. simpl. rewrite app_assoc. reflexivity.
    + intros _. right. apply (In_add String.eqb String.eqb_spec). left.
      reflexivity.
  - inversion H; subst st'. split; [assumption|].
    split; [|split; [|split]]; simpl.
    + intros k Hk. apply (In_add String.eqb String.eqb_spec). right.
      assumption.
    + intros k Hk. apply (In_add String.eqb String.eqb_spec) in Hk.
      destruct Hk as [->|Hk]; [right; assumption|left; assumption].
    + exists []. rewrite app_nil_r. reflexivity.
    + intros F. contradiction.
Qed.

Lemma roots_sound :
  forall fuel todo st st',
    Topo.forEach (Topo.visit fuel ts) todo st = Some st' ->
    sound st ->
    (forall k, In k (Topo.visiting st) -> get k = None) ->
    (forall k, In k todo -> get k <> None) ->
    sound st' /\
    (forall k, In k (Topo.visiting st') -> get k = None) /\
    forall k, In k todo -> In k (Topo.visited st').
Proof.
  intros fuel todo st st' H Hs Hv Ht.
  destruct (forEach_spec _ (visit_sound fuel) _ _ _ H Hs)
    as (S' & _ & O & _ & D).
  split; [assumption|]. split.
  - intros k Hk. destruct (O k Hk) as [Hk'|Hk']; [apply Hv|]; assumption.
  - intros k Hk. destruct (D k Hk (Ht k Hk)) as [F|F]; [|assumption].
    exfalso. exact (Ht k Hk (Hv k F)).
Qed.

Lemma sound_init : sound Topo.init.
Proof.
  repeat split; simpl; try constructor; intros ? [].
Qed.

(** With distinct ids the result holds every task exactly once. *)
Lemma topologicalSort_permutation :
  NoDup (map id ts) ->
  exists sorted,
    topologicalSort ts = Some sorted /\ Permutation sorted ts.
Proof.
  intros Hnd. destruct topologicalSort_terminates as [sorted E].
  exists sorted. split; [assumption|].
  unfold topologicalSort, Topo.sort_fuel in E.
  destruct (Topo.forEach _ (map id ts) Topo.init) as [st'|] eqn:R;
    [|discriminate].
  inversion E; subst sorted. clear E.
  destruct (roots_sound _ _ _ _ R sound_init) as ((A & B & C & _) & _ & V).
  - intros k [].
  - intros k Hk. apply in_map_iff in Hk. destruct Hk as [t [<- Ht]].
    apply get_task. assumption.
  - apply NoDup_Permutation.
    + rewrite A in B. apply NoDup_map_inv in B. assumption.
    + apply NoDup_map_inv in Hnd. assumption.
    + intros t. split; [apply C|]. intros Ht.
      assert (Hin : In (id t) (Topo.visited st')).
      { apply V. apply in_map. assumption. }
      rewrite A in Hin. apply in_map_iff in Hin.
      destruct Hin as [u [Hid Hu]].
      assert (u = t) by (apply id_injective; auto). subst u. assumption.
Qed.

(** *** Dependencies first *)

Lemma task_edge :
  forall t d, In t ts -> In d (dependencies t) -> edge (graph_of ts) (id t) d.
Proof.
  intros t d Ht Hd. exists (id t, dependencies t). simpl.
  split; [|auto]. unfold graph_of. apply in_map_iff. exists t. auto.
Qed.

Lemma snoc_cases :
  forall (A : Type) (l : list A), l = [] \/ exists l' a, l = l' ++ [a].
Proof.
  intros A l. induction l as [|a l _] using rev_ind; [left|right]; eauto.
Qed.

Section Ordered.
Hypothesis Hacyclic : acyclic (graph_of ts).
Hypothesis Hnodup : NoDup (map id ts).

Lemma forEach_ordered :
  forall (rec : string -> Topo.state -> option Topo.state),
    (forall d st st', rec d st = Some st' -> sound st -> visit_spec d st st') ->
    (forall d st st',
       rec d st = Some st' -> sound st ->
       dependencies_first ts (Topo.result st) -> on_path st d ->
       dependencies_first ts (Topo.result st')) ->
    forall deps st st',
      Topo.forEach rec deps st = Some st' -> sound st ->
      dependencies_first ts (Topo.result st) ->
      (forall d, In d deps -> on_path st d) ->
      dependencies_first ts (Topo.result st').
Proof.
  intros rec Hspec Hrec. induction deps as [|d deps IH];
    intros st st' H Hs Ho Hp.
  - inversion H; subst. assumption.
  - simpl in H. destruct (rec d st) as [st1|] eqn:E; [|discriminate].
    destruct (Hspec d st st1 E Hs) as (S1 & _ & O1 & _ & _).
    apply (IH st1 st' H S1).
    + apply (Hrec d st st1 E Hs Ho). apply Hp. left. reflexivity.
    + intros d' Hd' s Hin Hget. destruct (O1 s Hin) as [Hin'|F];
        [|contradiction].
      apply (Hp d' (or_intror Hd') s Hin' Hget).
Qed.

Lemma visit_ordered :
  forall fuel x st st',
    Topo.visit fuel ts x st = Some st' -> sound st ->
    dependencies_first ts (Topo.result st) -> on_path st x ->
    dependencies_first ts (Topo.result st').
Proof.
  induction fuel as [|fuel IH]; intros x st st' H Hs Ho Hp; [discriminate|].
  cbn [Topo.visit] in H.
  destruct (has x (Topo.visiting st)) eqn:Eg.
  { inversion H; subst. assumption. }
  destruct (has x (Topo.visited st)) eqn:Ev.
  { inversion H; subst. assumption. }
  apply (has_false String.eqb String.eqb_spec) in Eg, Ev.
  set (st1 := Topo.mkState (Topo.visited st) (add x (Topo.visiting st))
                (Topo.result st)) in *.
  assert (S1 : sound st1).
  { destruct Hs as (A & B & C & D). repeat split; try assumption.
    simpl. intros k Hk. apply (In_add String.eqb String.eqb_spec) in Hk.
    destruct Hk as [->|Hk]; [assumption|apply D; assumption]. }
  destruct (get x) as [t|] eqn:Et; [|inversion H; subst; assumption].
  destruct (Topo.forEach (Topo.visit fuel ts) (dependencies t) st1)
    as [st2|] eqn:E; [|discriminate].
  inversion H; subst st'. clear H. simpl.
  apply get_Some in Et as Et'. destruct Et' as [Ht Hid].
  assert (Hp1 : forall d, In d (dependencies t) -> on_path st1 d).
  { intros d Hd s Hin Hget. simpl in Hin.
    apply (In_add String.eqb String.eqb_spec) in Hin.
    destruct Hin as [->|Hin].
    - apply reaches_edge. rewrite <- Hid. apply task_edge; assumption.
    - eapply reaches_snoc; [apply Hp; assumption|].
      rewrite <- Hid. apply task_edge; assumption. }
  pose proof (forEach_ordered _ (visit_sound fuel) IH _ _ _ E S1 Ho Hp1)
    as Ho2.
  destruct (forEach_spec _ (visit_sound fuel) _ _ _ E S1)
    as ((A & B & C & D) & _ & _ & _ & Hdeps).
  intros l1 t' l2 Hsplit d td Hd Htd Hidd.
  destruct (snoc_cases _ l2) as [->|(l2' & a & ->)].
  - apply app_inj_tail in Hsplit. destruct Hsplit as [<- <-].
    assert (Hget : get d <> None).
    { rewrite <- Hidd. apply get_task. assumption. }
    destruct (Hdeps d Hd Hget) as [Hin|Hin].
    + exfalso. apply (Hacyclic d). apply (Hp1 d Hd d Hin Hget).
    + rewrite A in Hin. apply in_map_iff in Hin.
      destruct Hin as [u [Hu Huin]].
      assert (u = td).
      { apply id_injective; auto. congruence. }
      subst u. assumption.
  - rewrite app_comm_cons, app_assoc in Hsplit.
    apply app_inj_tail in Hsplit. destruct Hsplit as [Hsplit _].
    exact (Ho2 l1 t' l2' Hsplit d td Hd Htd Hidd).
Qed.

(** Without a cycle and with distinct ids the sort is a permutation in
    which dependencies come first. *)
Lemma topologicalSort_ordered :
  exists sorted,
    topologicalSort ts = Some sorted /\
    Permutation sorted ts /\
    dependencies_first ts sorted.
Proof.
  destruct (topologicalSort_permutation Hnodup) as (sorted & E & P).
  exists sorted. split; [assumption|]. split; [assumption|].
  unfold topologicalSort, Topo.sort_fuel in E.
  destruct (Topo.forEach _ (map id ts) Topo.init) as [st'|] eqn:R;
    [|discriminate].
  inversion E; subst sorted. clear E.
  apply (forEach_ordered _ (visit_sound _) (visit_ordered _) _ _ _ R
           sound_init).
  - intros l1 t l2 H. destruct l1; discriminate.
  - intros d _ s [].
Qed.
End Ordered.
End TopologicalSort.

(** ** Validation and ordering of a task list *)

Lemma find_task_graph_of :
  forall ts t,
    NoDup (map id ts) -> In t ts ->
    Validator.find_task String.eqb (graph_of ts) (id t)
    = Some (id t, dependencies t).
Proof.
  unfold Validator.find_task. induction ts as [|a ts IH]; intros t Hnd Hin.
  - destruct Hin.
  - simpl. inversion Hnd as [|? ? Hna Hnd']; subst.
    destruct Hin as [->|Hin].
    + rewrite String.eqb_refl. reflexivity.
    + destruct (String.eqb_spec (id a) (id t)) as [E|E].
      * exfalso. apply Hna. rewrite E. apply in_map. assumption.
      * apply IH; assumption.
Qed.

(** C3, as the code has it: on a task list whose dependency graph has no
    cycle [detectCircularDependencies] returns the empty list; when, in
    addition, the ids of the tasks are distinct, [topologicalSort] returns
    a permutation of the list in which every task comes after each task
    its dependencies name. *)
Theorem acyclic_detect_and_sort :
  forall (ts : list Task),
    acyclic (graph_of ts) ->
    detectCircularDependencies ts = Some [] /\
    (NoDup (map id ts) ->
     exists sorted,
       topologicalSort ts = Some sorted /\
       Permutation sorted ts /\
       dependencies_first ts sorted).
Proof.
  intros ts Hacyclic. split.
  - unfold detectCircularDependencies.
    rewrite (detect_acyclic String.eqb String.eqb_spec _ Hacyclic).
    reflexivity.
  - intros Hnd. apply topologicalSort_ordered; assumption.
Qed.

(** The graph of the sample plan has the single edge from B to A. *)
Lemma sample_plan_acyclic :
  forall sa sb, acyclic (graph_of (tasks (sample_plan sa sb))).
Proof.
  intros sa sb a H.
  assert (Hshape : forall x y,
            reaches (graph_of (tasks (sample_plan sa sb))) x y ->
            x = "B" /\ y = "A").
  { intros x y R. induction R as [x y (t & Ht & Hx & Hy)
                                 |x y z (t & Ht & Hx & Hy) _ IH].
    - simpl in Ht. destruct Ht as [<-|[<-|[]]]; simpl in *;
        [contradiction|]. destruct Hy as [<-|[]]. auto.
    - simpl in Ht. destruct Ht as [<-|[<-|[]]]; simpl in *;
        [contradiction|]. destruct IH as [_ ->]. auto. }
  destruct (Hshape a a H) as [E1 E2]. congruence.
Qed.

Lemma acyclic_detect_and_sort_witness :
  detectCircularDependencies (tasks (sample_plan pending pending)) = Some [] /\
  (NoDup (map id (tasks (sample_plan pending pending))) ->
   exists sorted,
     topologicalSort (tasks (sample_plan pending pending)) = Some sorted /\
     Permutation sorted (tasks (sample_plan pending pending)) /\
     dependencies_first (tasks (sample_plan pending pending)) sorted).
Proof.
  apply (acyclic_detect_and_sort (tasks (sample_plan pending pending))).
  apply sample_plan_acyclic.
Defined.

Lemma topologicalSort_twin_tasks :
  acyclic (graph_of twin_tasks) /\
  detectCircularDependencies twin_tasks = Some [] /\
  topologicalSort twin_tasks
  = Some [mkTask "A" "second" "second" [] [] pending "30 minutes" medium None] /\
  length twin_tasks = 2.
Proof.
  split; [|repeat split].
  intros a H. assert (Hnone : forall x y, ~ edge (graph_of twin_tasks) x y).
  { intros x y (t & Ht & _ & Hy). simpl in Ht.
    destruct Ht as [<-|[<-|[]]]; destruct Hy. }
  destruct H as [? ? E|? ? ? E _]; exact (Hnone _ _ E).
Qed.

(** C4, as the code has it: on a task list with distinct ids in which two
    tasks depend on each other, [detectCircularDependencies] returns a list
    that is not empty and holds dependencies of the graph only, and
    [topologicalSort] returns a permutation of the list: every task once. *)
Theorem mutual_dependency_detected_and_sorted :
  forall (ts : list Task) (ta tb : Task),
    NoDup (map id ts) ->
    In ta ts -> In tb ts ->
    In (id tb) (dependencies ta) -> In (id ta) (dependencies tb) ->
    (exists reported,
       detectCircularDependencies ts = Some reported /\
       reported <> [] /\
       forall label, In label reported ->
         exists t d, In t ts /\ In d (dependencies t) /\
                     label = edge_label (id t, d)) /\
    (exists sorted,
       topologicalSort ts = Some sorted /\
       Permutation sorted ts /\ length sorted = length ts).
Proof.
  intros ts ta tb Hnd Hta Htb Hab Hba. split.
  - destruct (detect_mutual String.eqb String.eqb_spec (graph_of ts)
                (id ta) (id tb) (id ta, dependencies ta)
                (id tb, dependencies tb))
      as (edges & E & Hne & Hedges);
      try (apply find_task_graph_of; assumption); try assumption.
    exists (map edge_label edges). unfold detectCircularDependencies.
    rewrite E. split; [reflexivity|]. split.
    + destruct edges; [congruence|discriminate].
    + intros label Hl. apply in_map_iff in Hl.
      destruct Hl as [[x d] [<- Hin]].
      destruct (Hedges _ Hin) as (g & Hg & Hx & Hd). simpl in Hx, Hd.
      unfold graph_of in Hg. apply in_map_iff in Hg.
      destruct Hg as [t [<- Ht]]. simpl in Hx, Hd. subst x.
      exists t, d. auto.
  - destruct (topologicalSort_permutation ts Hnd) as (sorted & E & P).
    exists sorted. repeat split; try assumption.
    apply Permutation_length. assumption.
Qed.

Lemma mutual_dependency_detected_and_sorted_witness :
  (exists reported,
     detectCircularDependencies mutual_tasks = Some reported /\
     reported <> [] /\
     forall label, In label reported ->
       exists t d, In t mutual_tasks /\ In d (dependencies t) /\
                   label = edge_label (id t, d)) /\
  (exists sorted,
     topologicalSort mutual_tasks = Some sorted /\
     Permutation sorted mutual_tasks /\
     length sorted = length mutual_tasks).
Proof.
  apply (mutual_dependency_detected_and_sorted mutual_tasks
           (sample_task "A" ["B"] pending) (sample_task "B" ["A"] pending)).
  - repeat constructor; simpl; intuition discriminate.
  - left. reflexivity.
  - right. left. reflexivity.
  - left. reflexivity.
  - left. reflexivity.
Defined.

Lemma detect_misses_shadowed_cycle :
  NoDup (map id shadowed_cycle) /\
  detectCircularDependencies shadowed_cycle
  = Some ["D -> C"; "C -> D"; "A -> C"; "B -> C"] /\
  (forall reported,
     detectCircularDependencies shadowed_cycle = Some reported ->
     ~ In "A -> B" reported /\ ~ In "B -> A" reported).
Proof.
  split; [|split].
  - repeat constructor; simpl; intuition discriminate.
  - reflexivity.
  - intros reported H. vm_compute in H. inversion H; subst.
    split; simpl; intuition discriminate.
Qed.

(** On the two-task cycle alone both directions are reported, and the sort
    returns both tasks. *)
Example mutual_tasks_run :
  detectCircularDependencies mutual_tasks = Some ["B -> A"; "A -> B"] /\
  option_map (map id) (topologicalSort mutual_tasks) = Some ["B"; "A"].
Proof. split; reflexivity. Qed.

(** ** JSON text read back

    [JSON.parse] reads what [JSON.stringify] wrote: the same value, with its
    dates turned into their [toJSON] strings.  This is proved for the values
    without numbers whose objects have distinct keys, which is what a typed
    plan is made of. *)

Module RoundTripFacts.
Import Js.
Import RoundTrip.
Local Open Scope string_scope.

(** An induction principle that goes through the lists of a value. *)
Lemma value_induction :
  forall P : value -> Prop,
    P VNull ->
    (forall b, P (VBool b)) ->
    (forall m e, P (VNum m e)) ->
    (forall s, P (VStr s)) ->
    (forall items, Forall P items -> P (VArr items)) ->
    (forall props, Forall (fun kv => P (snd kv)) props -> P (VObj props)) ->
    (forall d, P (VDate d)) ->
    forall v, P v.
Proof.
  intros P Hnull Hbool Hnum Hstr Harr Hobj Hdate.
  fix IH 1. intros [ | b | m e | s | items | props | d ].
  - exact Hnull.
  - apply Hbool.
  - apply Hnum.
  - apply Hstr.
  - apply Harr. induction items as [|x items IHl]; constructor.
    + apply IH.
    + exact IHl.
  - apply Hobj. induction props as [|[k x] props IHl]; constructor.
    + apply IH.
    + exact IHl.
  - apply Hdate.
Qed.

Lemma to_json_obj :
  forall iso props, to_json iso (VObj props) = VObj (to_json_props iso props).
Proof.
  intros iso props. simpl. f_equal. unfold to_json_props.
  induction props as [|[k x] props IH]; [reflexivity|].
  simpl. f_equal. exact IH.
Qed.

Lemma weight_arr : forall items, weight (VArr items) = S (weights items).
Proof.
  intros items. induction items as [|x items IH]; reflexivity.
Qed.

Lemma weight_obj : forall props, weight (VObj props) = S (weights_props props).
Proof.
  intros props. induction props as [|[k x] props IH]; [reflexivity|].
  simpl in *. congruence.
Qed.

Lemma print_arr :
  forall iso ind x xs,
    print iso ind (VArr (x :: xs))
    = "[" ++ newline ++ (ind ++ "  ") ++ print iso (ind ++ "  ") x ++
      print_items iso (ind ++ "  ") xs ++ newline ++ ind ++ "]".
Proof.
  intros iso ind x xs.
  assert (E : forall l, print_items iso (ind ++ "  ") l
              = (fix more (l : list value) : string :=
                   match l with
                   | [] => ""
                   | y :: rest =>
                       "," ++ newline ++ (ind ++ "  ") ++
                       print iso (ind ++ "  ") y ++ more rest
                   end) l).
  { induction l as [|y l IH]; [reflexivity|].
    cbn [print_items]. rewrite IH. reflexivity. }
  rewrite E. reflexivity.
Qed.

Lemma print_obj :
  forall iso ind kv xs,
    print iso ind (VObj (kv :: xs))
    = "{" ++ newline ++ (ind ++ "  ") ++ quote (fst kv) ++ ": " ++
      print iso (ind ++ "  ") (snd kv) ++
      print_members iso (ind ++ "  ") xs ++ newline ++ ind ++ "}".
Proof.
  intros iso ind [k x] xs.
  assert (E : forall l, print_members iso (ind ++ "  ") l
              = (fix more (l : list (string * value)) : string :=
                   match l with
                   | [] => ""
                   | (k', y) :: rest =>
                       "," ++ newline ++ (ind ++ "  ") ++ quote k' ++ ": " ++
                       print iso (ind ++ "  ") y ++ more rest
                   end) l).
  { induction l as [|[k' y] l IH]; [reflexivity|].
    cbn [print_members fst snd]. rewrite IH. reflexivity. }
  rewrite E. reflexivity.
Qed.
(** *** Strings *)

Lemma append_assoc :
  forall a b c : string, (a ++ b) ++ c = a ++ (b ++ c).
Proof.
  induction a as [|x a IH]; intros b c; [reflexivity|].
  simpl. rewrite IH. reflexivity.
Qed.

Lemma append_nil_r : forall a : string, a ++ "" = a.
Proof.
  induction a as [|x a IH]; [reflexivity|]. simpl. rewrite IH. reflexivity.
Qed.

Lemma length_append :
  forall a b : string,
    String.length (a ++ b) = String.length a + String.length b.
Proof.
  induction a as [|x a IH]; intros b; [reflexivity|].
  simpl. rewrite IH. reflexivity.
Qed.

Lemma blank_nil : blank "".
Proof. intros rest. reflexivity. Qed.

Lemma blank_indent : forall ind, blank ind -> blank (ind ++ "  ").
Proof.
  intros ind H rest. rewrite append_assoc, H. reflexivity.
Qed.

Lemma skip_newline_indent :
  forall ind rest,
    blank ind -> skip_ws (newline ++ ind ++ rest) = skip_ws rest.
Proof. intros ind rest H. simpl. apply H. Qed.

(** *** String literals *)

Lemma read_units_quote_char :
  forall c s',
    read_units (quote_char c ++ s')
    = match read_units s' with
      | Some (us, r) => Some (unit_of c :: us, r)
      | None => None
      end.
Proof.
  intros c s'.
  destruct c as [[] [] [] [] [] [] [] []]; reflexivity.
Qed.

Lemma encode_unit_of :
  forall c us, encode_units (unit_of c :: us) = String c (encode_units us).
Proof.
  intros c us.
  destruct c as [[] [] [] [] [] [] [] []];
    try reflexivity; destruct us as [|[c'|u'] us']; reflexivity.
Qed.

Lemma read_units_quote_body :
  forall s rest,
    read_units (quote_body s ++ String dquote rest) = Some (units_of s, rest).
Proof.
  induction s as [|c s IH]; intros rest; [reflexivity|].
  cbn [quote_body units_of]. rewrite append_assoc.
  rewrite read_units_quote_char, IH. reflexivity.
Qed.

Lemma encode_units_of : forall s, encode_units (units_of s) = s.
Proof.
  induction s as [|c s IH]; [reflexivity|].
  cbn [units_of]. rewrite encode_unit_of, IH. reflexivity.
Qed.

Lemma parse_string_quote :
  forall s rest,
    parse_string (quote_body s ++ String dquote rest) = Some (s, rest).
Proof.
  intros s rest. unfold parse_string.
  rewrite read_units_quote_body, encode_units_of. reflexivity.
Qed.

Lemma quote_append :
  forall s rest,
    quote s ++ rest = String dquote (quote_body s ++ String dquote rest).
Proof.
  intros s rest. unfold quote. simpl. rewrite append_assoc. reflexivity.
Qed.

(** *** Values *)

Lemma parse_value_eq :
  forall f s,
    parse_value (S f) s
    = match skip_ws s with
      | EmptyString => None
      | String c r =>
          if Ascii.eqb c "n" then literal "null" VNull (String c r)
          else if Ascii.eqb c "t" then literal "true" (VBool true) (String c r)
          else if Ascii.eqb c "f" then literal "false" (VBool false) (String c r)
          else if Ascii.eqb c dquote then
            match parse_string r with
            | Some (str, r') => Some (VStr str, r')
            | None => None
            end
          else if Ascii.eqb c "[" then
            match skip_ws r with
            | String c' r' =>
                if Ascii.eqb c' "]" then Some (VArr [], r')
                else parse_elements f r []
            | EmptyString => None
            end
          else if Ascii.eqb c "{" then
            match skip_ws r with
            | String c' r' =>
                if Ascii.eqb c' "}" then Some (VObj [], r')
                else parse_members f r []
            | EmptyString => None
            end
          else parse_number (String c r)
      end.
Proof. reflexivity. Qed.

Lemma parse_elements_eq :
  forall f s acc,
    parse_elements (S f) s acc
    = match parse_value f s with
      | Some (v, r) =>
          match skip_ws r with
          | String c r' =>
              if Ascii.eqb c "," then parse_elements f r' (acc ++ [v])%list
              else if Ascii.eqb c "]" then Some (VArr (acc ++ [v])%list, r')
              else None
          | EmptyString => None
          end
      | None => None
      end.
Proof. reflexivity. Qed.

Lemma parse_members_eq :
  forall f s acc,
    parse_members (S f) s acc
    = match skip_ws s with
      | String c r =>
          if Ascii.eqb c dquote then
            match parse_string r with
            | Some (k, r1) =>
                match skip_ws r1 with
                | String c1 r2 =>
                    if Ascii.eqb c1 ":" then
                      match parse_value f r2 with
                      | Some (v, r3) =>
                          match skip_ws r3 with
                          | String c3 r4 =>
                              if Ascii.eqb c3 "," then
                                parse_members f r4 (obj_set k v acc)
                              else if Ascii.eqb c3 "}" then
                                Some (VObj (obj_set k v acc), r4)
                              else None
                          | EmptyString => None
                          end
                      | None => None
                      end
                    else None
                | EmptyString => None
                end
            | None => None
            end
          else None
      | EmptyString => None
      end.
Proof. reflexivity. Qed.

(** The parser looks at a text through [skip_ws] only. *)
Lemma parse_value_skip :
  forall fuel s s',
    skip_ws s = skip_ws s' -> parse_value fuel s = parse_value fuel s'.
Proof.
  intros [|f] s s' H; [reflexivity|].
  rewrite !parse_value_eq, H. reflexivity.
Qed.

Lemma skip_starts_value : forall s, starts_value s -> skip_ws s = s.
Proof.
  intros s (c & r & -> & H & _). simpl. rewrite H. reflexivity.
Qed.

Lemma print_starts_value :
  forall iso ind v rest, plain v -> starts_value (print iso ind v ++ rest).
Proof.
  intros iso ind v rest H. unfold starts_value.
  inversion H as [ | b | s | d | items Hi | props Hn Hp ]; subst.
  - eexists. eexists. simpl. repeat split.
  - destruct b; eexists; eexists; simpl; repeat split.
  - cbn [print]. rewrite quote_append. eexists. eexists. repeat split.
  - destruct d; cbn [print].
    + rewrite quote_append. eexists. eexists. repeat split.
    + eexists. eexists. simpl. repeat split.
  - destruct items as [|x xs].
    + eexists. eexists. simpl. repeat split.
    + rewrite print_arr. eexists. eexists. simpl. repeat split.
  - destruct props as [|kv xs].
    + eexists. eexists. simpl. repeat split.
    + rewrite print_obj. eexists. eexists. simpl. repeat split.
Qed.

Lemma skip_first :
  forall c r, is_ws c = false -> skip_ws (String c r) = String c r.
Proof. intros c r H. simpl. rewrite H. reflexivity. Qed.

Lemma parse_elements_print :
  forall iso ind ind' rest,
    blank ind -> blank ind' ->
    forall xs x acc fuel,
      Forall (reads_back iso) (x :: xs) ->
      Forall plain (x :: xs) ->
      weights (x :: xs) <= fuel ->
      parse_elements fuel
        (newline ++ ind' ++ print iso ind' x ++ print_items iso ind' xs ++
         newline ++ ind ++ "]" ++ rest) acc
      = Some (VArr (acc ++ map (to_json iso) (x :: xs))%list, rest).
Proof.
  intros iso ind ind' rest Hind Hind'.
  induction xs as [|y ys IH]; intros x acc fuel Hrb Hpl Hw;
    (destruct fuel as [|f]; [simpl in Hw; lia|]);
    rewrite parse_elements_eq;
    inversion Hrb as [|? ? Hx Hrb']; subst;
    inversion Hpl as [|? ? Px Hpl']; subst;
    match goal with
    | |- context [parse_value f (newline ++ ind' ++ ?t)] =>
        rewrite (parse_value_skip f (newline ++ ind' ++ t) t)
          by (rewrite skip_newline_indent by assumption; reflexivity)
    end;
    rewrite (Hx Px ind' f _ Hind') by (simpl in Hw; lia).
  - change (print_items iso ind' [] ++ newline ++ ind ++ "]" ++ rest)
      with (newline ++ ind ++ "]" ++ rest).
    rewrite skip_newline_indent by assumption.
    change ("]" ++ rest) with (String "]" rest).
    rewrite skip_first by reflexivity.
    cbn [Ascii.eqb Bool.eqb andb]. reflexivity.
  - replace (print_items iso ind' (y :: ys) ++ newline ++ ind ++ "]" ++ rest)
      with (String ","
              (newline ++ ind' ++ print iso ind' y ++
               print_items iso ind' ys ++ newline ++ ind ++ "]" ++ rest)).
    2:{ cbn [print_items]. rewrite !append_assoc. reflexivity. }
    rewrite skip_first by reflexivity.
    cbn [Ascii.eqb Bool.eqb andb].
    rewrite (IH y (acc ++ [to_json iso x])%list f Hrb' Hpl')
      by (simpl in Hw |- *; lia).
    rewrite <- app_assoc. reflexivity.
Qed.

Lemma obj_set_fresh :
  forall k v acc,
    ~ In k (map fst acc) -> obj_set k v acc = (acc ++ [(k, v)])%list.
Proof.
  intros k v acc. induction acc as [|[k' v'] acc IH]; intros H.
  - reflexivity.
  - simpl in *. destruct (String.eqb_spec k' k) as [E|E].
    + exfalso. apply H. left. assumption.
    + rewrite IH; [reflexivity|]. intros F. apply H. right. assumption.
Qed.

Lemma parse_members_print :
  forall iso ind ind' rest,
    blank ind -> blank ind' ->
    forall xs kv acc fuel,
      Forall (fun kv => reads_back iso (snd kv)) (kv :: xs) ->
      Forall (fun kv => plain (snd kv)) (kv :: xs) ->
      NoDup (map fst acc ++ map fst (kv :: xs))%list ->
      weights_props (kv :: xs) <= fuel ->
      parse_members fuel
        (newline ++ ind' ++ quote (fst kv) ++ ": " ++
         print iso ind' (snd kv) ++ print_members iso ind' xs ++
         newline ++ ind ++ "}" ++ rest) acc
      = Some (VObj (acc ++ to_json_props iso (kv :: xs))%list, rest).
Proof.
  intros iso ind ind' rest Hind Hind'.
  induction xs as [|y ys IH]; intros kv acc fuel Hrb Hpl Hnd Hw;
    (destruct fuel as [|f]; [simpl in Hw; lia|]);
    rewrite parse_members_eq;
    inversion Hrb as [|? ? Hx Hrb']; subst;
    inversion Hpl as [|? ? Px Hpl']; subst;
    rewrite skip_newline_indent by assumption;
    rewrite quote_append;
    rewrite skip_first by reflexivity;
    cbn [Ascii.eqb Bool.eqb andb dquote];
    rewrite parse_string_quote;
    match goal with
    | |- context [skip_ws (": " ++ ?t)] =>
        change (": " ++ t) with (String ":" (String " " t))
    end;
    rewrite skip_first by reflexivity;
    cbn [Ascii.eqb Bool.eqb andb];
    match goal with
    | |- context [parse_value f (String " " ?t)] =>
        rewrite (parse_value_skip f (String " " t) t) by reflexivity
    end;
    rewrite (Hx Px ind' f _ Hind') by (simpl in Hw; lia);
    assert (Hfresh : ~ In (fst kv) (map fst acc));
    try (intros F; apply NoDup_remove_2 in Hnd; apply Hnd;
         apply in_or_app; left; exact F);
    rewrite (obj_set_fresh _ _ _ Hfresh).
  - change (print_members iso ind' [] ++ newline ++ ind ++ "}" ++ rest)
      with (newline ++ ind ++ "}" ++ rest).
    rewrite skip_newline_indent by assumption.
    change ("}" ++ rest) with (String "}" rest).
    rewrite skip_first by reflexivity.
    cbn [Ascii.eqb Bool.eqb andb]. reflexivity.
  - replace (print_members iso ind' (y :: ys) ++
             newline ++ ind ++ "}" ++ rest)
      with (String ","
              (newline ++ ind' ++ quote (fst y) ++ ": " ++
               print iso ind' (snd y) ++ print_members iso ind' ys ++
               newline ++ ind ++ "}" ++ rest)).
    2:{ cbn [print_members]. rewrite !append_assoc. reflexivity. }
    rewrite skip_first by reflexivity.
    cbn [Ascii.eqb Bool.eqb andb].
    rewrite (IH y (acc ++ [(fst kv, to_json iso (snd kv))])%list f Hrb' Hpl').
    + rewrite <- app_assoc. reflexivity.
    + rewrite map_app. simpl. rewrite <- app_assoc. simpl.
      simpl in Hnd. exact Hnd.
    + simpl in Hw |- *. lia.
Qed.

Lemma parse_value_quoted :
  forall f s rest,
    parse_value (S f) (quote s ++ rest) = Some (VStr s, rest).
Proof.
  intros f s rest. rewrite parse_value_eq, quote_append.
  rewrite skip_first by reflexivity.
  cbn [Ascii.eqb Bool.eqb andb dquote]. rewrite parse_string_quote.
  reflexivity.
Qed.

Lemma literal_here :
  forall word v rest, literal word v (word ++ rest) = Some (v, rest).
Proof.
  intros word v rest. unfold literal.
  assert (P : prefix word (word ++ rest) = true).
  { induction word as [|c word IH]; [destruct rest; reflexivity|].
    simpl. destruct (ascii_dec c c); [assumption|congruence]. }
  assert (D : drop (String.length word) (word ++ rest) = rest).
  { clear P. induction word as [|c word IH]; [reflexivity|assumption]. }
  rewrite P, D. reflexivity.
Qed.

Lemma parse_value_literal :
  forall f c word v rest,
    is_ws c = false ->
    (if Ascii.eqb c "n" then literal "null" VNull (String c word ++ rest)
     else if Ascii.eqb c "t"
          then literal "true" (VBool true) (String c word ++ rest)
     else if Ascii.eqb c "f"
          then literal "false" (VBool false) (String c word ++ rest)
     else None) = Some (v, rest) ->
    Ascii.eqb c "n" || Ascii.eqb c "t" || Ascii.eqb c "f" = true ->
    parse_value (S f) (String c word ++ rest) = Some (v, rest).
Proof.
  intros f c word v rest Hc H Hntf. rewrite parse_value_eq.
  cbn [append]. rewrite skip_first by assumption. cbn [append] in H.
  destruct (Ascii.eqb c "n"); [exact H|].
  destruct (Ascii.eqb c "t"); [exact H|].
  destruct (Ascii.eqb c "f"); [exact H|discriminate].
Qed.

Lemma parse_print : forall iso v, reads_back iso v.
Proof.
  intros iso. apply value_induction; unfold reads_back.
  - intros _ ind [|f] rest _ Hw; [simpl in Hw; lia|].
    apply (parse_value_literal f "n" "ull"); try reflexivity.
    apply (literal_here "null").
  - intros b _ ind [|f] rest _ Hw; [simpl in Hw; lia|].
    destruct b.
    + apply (parse_value_literal f "t" "rue"); try reflexivity.
      apply (literal_here "true").
    + apply (parse_value_literal f "f" "alse"); try reflexivity.
      apply (literal_here "false").
  - intros m e H. inversion H.
  - intros s _ ind [|f] rest _ Hw; [simpl in Hw; lia|].
    apply parse_value_quoted.
  - intros items IH Hp ind fuel rest Hind Hw.
    inversion Hp as [ | | | | ? Hitems | ]; subst.
    destruct fuel as [|f]; [simpl in Hw; lia|].
    destruct items as [|x xs]; [reflexivity|].
    rewrite print_arr, parse_value_eq.
    replace (("[" ++ newline ++ (ind ++ "  ") ++
              print iso (ind ++ "  ") x ++
              print_items iso (ind ++ "  ") xs ++ newline ++ ind ++ "]")
             ++ rest)
      with (String "["
              (newline ++ (ind ++ "  ") ++ print iso (ind ++ "  ") x ++
               print_items iso (ind ++ "  ") xs ++
               newline ++ ind ++ "]" ++ rest)).
    2:{ cbn [append]. rewrite !append_assoc. reflexivity. }
    rewrite skip_first by reflexivity.
    cbn [Ascii.eqb Bool.eqb andb dquote].
    rewrite skip_newline_indent by (apply blank_indent; assumption).
    inversion Hitems as [|? ? Px _]; subst.
    pose proof (print_starts_value iso (ind ++ "  ") x
                  (print_items iso (ind ++ "  ") xs ++
                   newline ++ ind ++ "]" ++ rest) Px) as Hstart.
    rewrite (skip_starts_value _ Hstart).
    destruct Hstart as (c & r & E & _ & Hb & _).
    rewrite weight_arr in Hw.
    rewrite E, Hb.
    rewrite <- E.
    rewrite (parse_elements_print iso ind (ind ++ "  ") rest Hind
               (blank_indent ind Hind) xs x [] f IH Hitems)
      by lia.
    reflexivity.
  - intros props IH Hp ind fuel rest Hind Hw.
    inversion Hp as [ | | | | | ? Hnd Hprops ]; subst.
    destruct fuel as [|f]; [simpl in Hw; lia|].
    destruct props as [|kv xs]; [reflexivity|].
    rewrite print_obj, parse_value_eq, to_json_obj.
    replace (("{" ++ newline ++ (ind ++ "  ") ++ quote (fst kv) ++ ": " ++
              print iso (ind ++ "  ") (snd kv) ++
              print_members iso (ind ++ "  ") xs ++ newline ++ ind ++ "}")
             ++ rest)
      with (String "{"
              (newline ++ (ind ++ "  ") ++ quote (fst kv) ++ ": " ++
               print iso (ind ++ "  ") (snd kv) ++
               print_members iso (ind ++ "  ") xs ++
               newline ++ ind ++ "}" ++ rest)).
    2:{ rewrite !append_assoc. reflexivity. }
    rewrite skip_first by reflexivity.
    cbn [Ascii.eqb Bool.eqb andb dquote].
    rewrite skip_newline_indent by (apply blank_indent; assumption).
    rewrite quote_append. rewrite skip_first by reflexivity.
    cbn [Ascii.eqb Bool.eqb andb dquote].
    rewrite <- quote_append.
    rewrite weight_obj in Hw.
    rewrite (parse_members_print iso ind (ind ++ "  ") rest Hind
               (blank_indent ind Hind) xs kv [] f IH Hprops Hnd)
      by lia.
    reflexivity.
  - intros d _ ind [|f] rest _ Hw; [simpl in Hw; lia|].
    destruct d as [t|].
    + cbn [print to_json]. apply parse_value_quoted.
    + apply (parse_value_literal f "n" "ull"); try reflexivity.
      apply (literal_here "null").
Qed.

(** *** Enough fuel *)

Lemma print_items_length :
  forall iso ind' xs,
    Forall (fun x => plain x ->
              forall ind, weight x <= String.length (print iso ind x)) xs ->
    Forall plain xs ->
    weights xs <= String.length (print_items iso ind' xs).
Proof.
  intros iso ind' xs. induction xs as [|y ys IH]; intros H Hp; [simpl; lia|].
  inversion H as [|? ? Hy H']; subst. inversion Hp as [|? ? Py Hp']; subst.
  cbn [print_items weights]. rewrite !length_append.
  specialize (IH H' Hp'). specialize (Hy Py ind'). simpl String.length. lia.
Qed.

Lemma print_members_length :
  forall iso ind' xs,
    Forall (fun kv => plain (snd kv) ->
              forall ind, weight (snd kv)
                          <= String.length (print iso ind (snd kv))) xs ->
    Forall (fun kv => plain (snd kv)) xs ->
    weights_props xs <= String.length (print_members iso ind' xs).
Proof.
  intros iso ind' xs. induction xs as [|y ys IH]; intros H Hp; [simpl; lia|].
  inversion H as [|? ? Hy H']; subst. inversion Hp as [|? ? Py Hp']; subst.
  cbn [print_members weights_props]. rewrite !length_append.
  specialize (IH H' Hp'). specialize (Hy Py ind'). simpl String.length. lia.
Qed.

Lemma weight_le_length :
  forall iso v,
    plain v -> forall ind, weight v <= String.length (print iso ind v).
Proof.
  intros iso.
  apply (value_induction
           (fun v => plain v ->
              forall ind, weight v <= String.length (print iso ind v))).
  - intros _ ind. simpl. lia.
  - intros [] _ ind; simpl; lia.
  - intros m e H. inversion H.
  - intros s _ ind. simpl. lia.
  - intros items IH Hp ind.
    inversion Hp as [ | | | | ? Hitems | ]; subst.
    destruct items as [|x xs]; [simpl; lia|].
    rewrite print_arr, weight_arr. rewrite !length_append.
    inversion IH as [|? ? Hx IH']; subst.
    inversion Hitems as [|? ? Px Hitems']; subst.
    pose proof (print_items_length iso (ind ++ "  ") xs IH' Hitems').
    pose proof (Hx Px (ind ++ "  ")).
    cbn [weights]. simpl String.length. lia.
  - intros props IH Hp ind.
    inversion Hp as [ | | | | | ? Hnd Hprops ]; subst.
    destruct props as [|kv xs]; [simpl; lia|].
    rewrite print_obj, weight_obj. rewrite !length_append.
    inversion IH as [|? ? Hx IH']; subst.
    inversion Hprops as [|? ? Px Hprops']; subst.
    pose proof (print_members_length iso (ind ++ "  ") xs IH' Hprops').
    pose proof (Hx Px (ind ++ "  ")).
    cbn [weights_props]. simpl String.length. lia.
  - intros [t|] _ ind; simpl; lia.
Qed.

(** [JSON.parse(JSON.stringify(v, null, 2))] *)
Lemma JSON_parse_stringify :
  forall iso v,
    plain v -> JSON_parse (JSON_stringify iso v) = Some (to_json iso v).
Proof.
  intros iso v Hp. unfold JSON_parse, JSON_stringify.
  rewrite <- (append_nil_r (print iso "" v)) at 2.
  rewrite (parse_print iso v Hp "" _ "" blank_nil).
  - reflexivity.
  - pose proof (weight_le_length iso v Hp ""). lia.
Qed.
End RoundTripFacts.

(** ** What the validator reports is made of the ids it was given *)

Section ReportedKeys.
Context {K : Type} (eqb : K -> K -> bool).
Variable tasks : list (K * list K).
Variable P : K -> Prop.
Hypothesis Hkeys : forall k, In k (Validator.all_keys tasks) -> P k.

Abbreviation pairs_of := (Traversal.pairs_of P).

Lemma hasCycle_loop_keys :
  forall (rec : K -> Validator.state -> option (bool * Validator.state))
         (x : K),
    P x ->
    (forall d st r st',
       P d -> rec d st = Some (r, st') ->
       pairs_of (Validator.circularDeps st) ->
       pairs_of (Validator.circularDeps st')) ->
    forall deps st r st',
      (forall d, In d deps -> P d) ->
      Validator.hasCycle_loop eqb rec x deps st = Some (r, st') ->
      pairs_of (Validator.circularDeps st) ->
      pairs_of (Validator.circularDeps st').
Proof.
  intros rec x Hx Hrec. induction deps as [|d deps IH];
    intros st r st' Hd H Hp.
  - simpl in H. inversion H; subst. exact Hp.
  - simpl in H. destruct (rec d st) as [[r1 st1]|] eqn:E; [|discriminate].
    pose proof (Hrec d st r1 st1 (Hd d (or_introl eq_refl)) E Hp) as Hp1.
    destruct r1.
    + inversion H; subst. simpl. intros e Hin. apply in_app_or in Hin.
      destruct Hin as [Hin|[<-|[]]]; [apply Hp1; assumption|].
      simpl. split; [assumption|]. apply Hd. left. reflexivity.
    + apply (IH st1 r st'); try assumption.
      intros d' Hd'. apply Hd. right. assumption.
Qed.

Lemma hasCycle_keys :
  forall fuel x st r st',
    P x ->
    Validator.hasCycle eqb fuel tasks x st = Some (r, st') ->
    pairs_of (Validator.circularDeps st) ->
    pairs_of (Validator.circularDeps st').
Proof.
  induction fuel as [|fuel IH]; intros x st r st' Hx H Hp; [discriminate|].
  cbn [Validator.hasCycle] in H.
  destruct (JsSet.has eqb x (Validator.recursionStack st)).
  { inversion H; subst. exact Hp. }
  destruct (JsSet.has eqb x (Validator.visited st)).
  { inversion H; subst. exact Hp. }
  destruct (Validator.find_task eqb tasks x) as [t|] eqn:Ef.
  - eapply (hasCycle_loop_keys _ x Hx IH (snd t)); [|exact H|exact Hp].
    intros d Hd. apply Hkeys. eapply in_all_keys_dep; [|exact Hd].
    unfold Validator.find_task in Ef. apply find_some in Ef. tauto.
  - eapply (hasCycle_loop_keys _ x Hx IH []); [|exact H|exact Hp].
    intros d [].
Qed.

Lemma roots_keys :
  forall fuel todo st st',
    (forall t, In t todo -> In t tasks) ->
    Validator.roots eqb fuel tasks todo st = Some st' ->
    pairs_of (Validator.circularDeps st) ->
    pairs_of (Validator.circularDeps st').
Proof.
  intros fuel. induction todo as [|t todo IH]; intros st st' Hin H Hp.
  - inversion H; subst. exact Hp.
  - cbn [Validator.roots] in H.
    assert (Hin' : forall u, In u todo -> In u tasks).
    { intros u Hu. apply Hin. right. assumption. }
    destruct (JsSet.has eqb (fst t) (Validator.visited st)).
    + exact (IH st st' Hin' H Hp).
    + destruct (Validator.hasCycle eqb fuel tasks (fst t) st)
        as [[r st1]|] eqn:E; [|discriminate].
      apply (IH st1 st' Hin' H).
      eapply hasCycle_keys; [|exact E|exact Hp].
      apply Hkeys. apply in_all_keys_id. apply Hin. left. reflexivity.
Qed.

Lemma detect_keys :
  forall edges, Validator.detect eqb tasks = Some edges -> pairs_of edges.
Proof.
  intros edges H. unfold Validator.detect, Validator.detect_fuel in H.
  destruct (Validator.roots eqb _ tasks tasks Validator.init) as [st'|] eqn:R;
    [|discriminate].
  inversion H; subst.
  eapply roots_keys; [|exact R|]; [auto|intros e []].
Qed.

Lemma invalid_keys : pairs_of (Validator.invalid eqb tasks).
Proof.
  unfold Validator.invalid. intros e He.
  apply in_flat_map in He. destruct He as (t & Ht & He).
  apply in_flat_map in He. destruct He as (d & Hd & He).
  destruct (JsSet.has eqb d _); [destruct He|].
  destruct He as [<-|[]]. simpl. split.
  - apply Hkeys. apply in_all_keys_id. assumption.
  - apply Hkeys. eapply in_all_keys_dep; eassumption.
Qed.
End ReportedKeys.

(** ** Export, then import *)

Lemma sameValueZero_refl : forall x, Js.sameValueZero x x = true.
Proof.
  intros [[i j] v]. unfold Js.sameValueZero. simpl.
  destruct v; simpl; try reflexivity;
    rewrite ?Nat.eqb_refl, ?Z.eqb_refl, ?String.eqb_refl; try reflexivity.
  destruct b; reflexivity.
Qed.

Lemma located_deps_values :
  forall deps i j k,
    In k (located_deps i j deps) -> In (snd k) deps.
Proof.
  induction deps as [|d deps IH]; intros i j k H; [destruct H|].
  simpl in H. destruct H as [<-|H]; [left; reflexivity|].
  right. eapply IH. eassumption.
Qed.

Lemma located_graph_values :
  forall bs i k,
    In k (Validator.all_keys (located_graph i bs)) ->
    exists b, In b bs /\
      (snd k = Built.id b \/ In (snd k) (Built.dependencies b)).
Proof.
  induction bs as [|b bs IH]; intros i k H.
  - destruct H.
  - unfold Validator.all_keys in H. simpl in H.
    destruct H as [<-|H].
    + exists b. split; [left; reflexivity|left; reflexivity].
    + apply in_app_or in H. destruct H as [H|H].
      * destruct (IH (S i) k) as (b' & Hb' & Hk).
        { unfold Validator.all_keys. apply in_or_app. left. assumption. }
        exists b'. split; [right; assumption|assumption].
      * apply in_app_or in H. destruct H as [H|H].
        -- exists b. split; [left; reflexivity|right].
           eapply located_deps_values. eassumption.
        -- destruct (IH (S i) k) as (b' & Hb' & Hk).
           { unfold Validator.all_keys. apply in_or_app. right. assumption. }
           exists b'. split; [right; assumption|assumption].
Qed.

(** Nothing is thrown when every id and dependency is a string. *)
Lemma validatePlan_strings :
  forall bs h,
    (forall b, In b bs -> is_string (Built.id b)) ->
    (forall b d, In b bs -> In d (Built.dependencies b) -> is_string d) ->
    validatePlan bs h = (Ok tt, h).
Proof.
  intros bs h Hid Hdeps. unfold validatePlan.
  assert (Hkeys : forall k,
            In k (Validator.all_keys (located_graph 0 bs)) ->
            Js.toString_throws (snd k) = false).
  { intros k Hk. apply located_graph_values in Hk.
    destruct Hk as (b & Hb & [E|Hd]).
    - destruct (Hid b Hb) as [s Hs]. rewrite E, Hs. reflexivity.
    - destruct (Hdeps b _ Hb Hd) as [s Hs]. rewrite Hs. reflexivity. }
  assert (Hquiet : forall l,
            Traversal.pairs_of
              (fun k => Js.toString_throws (snd k) = false) l ->
            existsb label_throws l = false).
  { intros l Hl. destruct (existsb label_throws l) eqn:E; [|reflexivity].
    apply existsb_exists in E. destruct E as (e & He & Ht).
    destruct (Hl e He) as [H1 H2]. unfold label_throws in Ht.
    cbv beta in H1, H2. unfold Js.located in *.
    rewrite H1, H2 in Ht. discriminate. }
  destruct (detect_terminates Js.sameValueZero sameValueZero_refl
              (located_graph 0 bs)) as [edges E].
  rewrite E.
  rewrite (Hquiet edges (detect_keys Js.sameValueZero _ _ Hkeys edges E)).
  rewrite (Hquiet _ (invalid_keys Js.sameValueZero _ _ Hkeys)).
  reflexivity.
Qed.

Lemma or_else_string :
  forall s default h,
    exists s',
      or_else (Some (Js.VStr s)) (ret (Js.VStr default)) h
      = (Ok (Js.VStr s'), h).
Proof.
  intros s default h. unfold or_else. simpl.
  destruct (String.eqb s ""); simpl; eexists; reflexivity.
Qed.

Lemma check_trim_string :
  forall s h, check_trim (Js.VStr s) h = (Ok tt, h).
Proof.
  intros s h. unfold check_trim. destruct (Js.truthy (Js.VStr s)); reflexivity.
Qed.

Lemma clamp_priority_typed :
  forall pr,
    clamp_priority (Some (Js.VStr (priority_string pr))) = priority_string pr.
Proof. intros []; reflexivity. Qed.

(** A task that was exported is built again with its id and its
    dependencies, when its id is not empty. *)
Lemma processTask_typed :
  forall t index h,
    id t <> "" ->
    exists b,
      processTask (Task_toValue t) index h = (Ok b, h) /\
      Built.id b = Js.VStr (id t) /\
      Built.dependencies b = map Js.VStr (dependencies t).
Proof.
  intros t index h Hid. unfold processTask, Task_toValue, Task_props.
  cbn [get_prop app Js.obj_get String.eqb Ascii.eqb Bool.eqb bind ret
       array_or_empty strings].
  assert (Ht : Js.truthy (Js.VStr (id t)) = true).
  { simpl. destruct (String.eqb_spec (id t) ""); [contradiction|reflexivity]. }
  unfold or_else at 1. rewrite Ht. unfold validateTask.
  cbv [bind]. cbn [ret Built.title Built.description Built.estimatedTime].
  destruct (or_else_string (title t)
              ("Task " ++ Js.string_of_nat (index + 1)) h) as [s1 ->].
  cbv beta iota.
  destruct (or_else_string (description t) "No description provided" h)
    as [s2 ->].
  cbv beta iota.
  destruct (or_else_string (estimatedTime t) "30 minutes" h) as [s3 ->].
  cbv beta iota.
  cbn [Built.title Built.description Built.estimatedTime].
  rewrite !check_trim_string. cbv beta iota.
  rewrite clamp_priority_typed.
  eexists. split; [reflexivity|]. split; reflexivity.
Qed.

Lemma processTasks_typed :
  forall ts index h,
    (forall t, In t ts -> id t <> "") ->
    exists bs,
      processTasks_from index (map Task_toValue ts) h = (Ok bs, h) /\
      map Built.id bs = map (fun t => Js.VStr (id t)) ts /\
      map Built.dependencies bs
      = map (fun t => map Js.VStr (dependencies t)) ts.
Proof.
  induction ts as [|t ts IH]; intros index h Hid.
  - exists []. repeat split.
  - destruct (processTask_typed t index h (Hid t (or_introl eq_refl)))
      as (b & Eb & Hb1 & Hb2).
    destruct (IH (S index) h (fun u Hu => Hid u (or_intror Hu)))
      as (bs & Ebs & Hbs1 & Hbs2).
    exists (b :: bs). cbn [map processTasks_from]. unfold bind.
    rewrite Eb, Ebs. simpl. rewrite Hb1, Hb2, Hbs1, Hbs2. repeat split.
Qed.

Lemma plain_strings : forall l, RoundTrip.plain (strings l).
Proof.
  intros l. constructor. induction l as [|s l IH]; constructor.
  - constructor.
  - exact IH.
Qed.

Lemma plain_task : forall t, RoundTrip.plain (Task_toValue t).
Proof.
  intros t. unfold Task_toValue, Task_props. constructor.
  - destruct (code t); simpl;
      repeat (constructor; [simpl; intuition discriminate|]); constructor.
  - destruct (code t); simpl;
      repeat (constructor; [first [apply plain_strings | constructor]|]);
      constructor.
Qed.

Lemma plain_plan : forall p, RoundTrip.plain (Plan_toValue p).
Proof.
  intros p. unfold Plan_toValue, plan_object. constructor.
  - simpl. repeat (constructor; [simpl; intuition discriminate|]).
    constructor.
  - repeat (constructor; [simpl; try constructor|]); try constructor.
    induction (tasks p) as [|t ts IH]; constructor.
    + apply plain_task.
    + exact IH.
Qed.

Lemma to_json_strings :
  forall iso l, RoundTrip.to_json iso (strings l) = strings l.
Proof.
  intros iso l. unfold strings. simpl. f_equal.
  induction l as [|s l IH]; [reflexivity|]. simpl. rewrite IH. reflexivity.
Qed.

Lemma to_json_task :
  forall iso t, RoundTrip.to_json iso (Task_toValue t) = Task_toValue t.
Proof.
  intros iso t. unfold Task_toValue. rewrite RoundTripFacts.to_json_obj.
  f_equal. unfold Task_props, RoundTrip.to_json_props.
  rewrite map_app. cbn [map fst snd]. rewrite !to_json_strings.
  destruct (code t); reflexivity.
Qed.

Lemma to_json_plan :
  forall iso p,
    RoundTrip.to_json iso (Plan_toValue p)
    = Js.VObj
        [ ("id", Js.VStr (plan_id p));
          ("title", Js.VStr (plan_title p));
          ("description", Js.VStr (plan_description p));
          ("tasks", Js.VArr (map Task_toValue (tasks p)));
          ("created", date_json iso (created p));
          ("updated", date_json iso (updated p));
          ("status", Js.VStr (plan_status_string (plan_status p))) ].
Proof.
  intros iso p. unfold Plan_toValue, plan_object.
  rewrite RoundTripFacts.to_json_obj. unfold RoundTrip.to_json_props.
  cbn [map fst snd].
  assert (Et : RoundTrip.to_json iso (Js.VArr (map Task_toValue (tasks p)))
               = Js.VArr (map Task_toValue (tasks p))).
  { change (RoundTrip.to_json iso (Js.VArr (map Task_toValue (tasks p))))
      with (Js.VArr (map (RoundTrip.to_json iso)
                       (map Task_toValue (tasks p)))).
    f_equal. rewrite map_map. rewrite <- (map_id (map Task_toValue (tasks p))).
    rewrite map_map. apply map_ext. intros t. apply to_json_task. }
  assert (Ed : forall d, RoundTrip.to_json iso (Js.VDate d) = date_json iso d).
  { intros [t|]; reflexivity. }
  rewrite Et, !Ed. reflexivity.
Qed.

Lemma or_else_id :
  forall s prefix h,
    exists s' h',
      or_else (Some (Js.VStr s)) (g <- generateId prefix ;; ret (Js.VStr g)) h
      = (Ok (Js.VStr s'), h').
Proof.
  intros s prefix h. unfold or_else. simpl.
  destruct (String.eqb s ""); simpl; eexists; eexists; reflexivity.
Qed.

Lemma created_of_json :
  forall iso d h,
    exists c h',
      match Some (date_json iso d) with
      | Some v => if Js.truthy v then Date_of v else new_Date
      | None => new_Date
      end h = (Ok c, h').
Proof.
  intros iso d h. destruct d as [t|]; simpl.
  - destruct (String.eqb (iso t) ""); simpl; eexists; eexists; reflexivity.
  - eexists. eexists. reflexivity.
Qed.

Lemma map_prop_built :
  forall k (f : Built.task -> Js.value) bs,
    (forall b, prop k (Built.toValue b) = Some (f b)) ->
    map (prop k) (map Built.toValue bs) = map (fun b => Some (f b)) bs.
Proof.
  intros k f bs H. rewrite map_map. apply map_ext. exact H.
Qed.

(** X28: a plan whose task ids are not empty is imported from its exported
    text without error, and the imported plan has the same task ids in the
    same order and the same dependencies. *)
Theorem exportPlan_importPlan_keeps_ids_and_dependencies :
  forall (p : Plan) (h_export h_import : Host),
    (forall t, In t (tasks p) -> id t <> "") ->
    exists v h',
      importPlan (exportPlan h_export p) h_import = (Ok v, h') /\
      map (prop "id") (tasks_of v)
      = map (fun t => Some (Js.VStr (id t))) (tasks p) /\
      map (prop "dependencies") (tasks_of v)
      = map (fun t => Some (strings (dependencies t))) (tasks p).
Proof.
  intros p h_export h Hid.
  unfold importPlan, try_catch, importPlan_try, exportPlan.
  rewrite (RoundTripFacts.JSON_parse_stringify _ _ (plain_plan p)).
  rewrite to_json_plan.
  set (gen := (g <- generateId "plan" ;; ret (Js.VStr g))).
  cbv [bind].
  cbn [get_prop ret Js.obj_get String.eqb Ascii.eqb Bool.eqb tasks_data
       Js.truthy].
  subst gen.
  destruct (or_else_id (plan_id p) "plan" h) as (pid & h1 & ->).
  cbv beta iota.
  destruct (or_else_string (plan_title p) "Imported Plan" h1) as [s1 ->].
  cbv beta iota.
  destruct (or_else_string (plan_description p) "Imported plan" h1)
    as [s2 ->].
  cbv beta iota. unfold processTasks.
  destruct (processTasks_typed (tasks p) 0 h1 Hid) as (bs & -> & Hb1 & Hb2).
  cbv beta iota.
  destruct (created_of_json (toISOString h_export) (created p) h1)
    as (c & h2 & ->).
  cbv beta iota. cbn [new_Date Date_now bind ret]. cbv [bind].
  cbn [Date_now ret]. cbv beta iota.
  match goal with
  | |- context [or_else ?a (ret (Js.VStr "draft")) ?hh] =>
      destruct (or_else_string (plan_status_string (plan_status p))
                  "draft" hh) as [s3 ->]
  end.
  cbv beta iota.
  rewrite validatePlan_strings.
  - eexists. eexists. split; [reflexivity|].
    cbn [tasks_of Js.obj_get String.eqb Ascii.eqb Bool.eqb].
    split.
    + rewrite (map_prop_built "id" Built.id) by reflexivity.
      rewrite <- (map_map Built.id Some), Hb1, map_map. reflexivity.
    + rewrite (map_prop_built "dependencies"
                 (fun b => Js.VArr (Built.dependencies b))) by reflexivity.
      rewrite <- (map_map Built.dependencies (fun d => Some (Js.VArr d))).
      rewrite Hb2, map_map. reflexivity.
  - intros b Hb. assert (In (Built.id b) (map Built.id bs)) as Hin
      by (apply in_map; assumption).
    rewrite Hb1 in Hin. apply in_map_iff in Hin.
    destruct Hin as (t & <- & _). eexists. reflexivity.
  - intros b d Hb Hd.
    assert (In (Built.dependencies b) (map Built.dependencies bs)) as Hin
      by (apply in_map; assumption).
    rewrite Hb2 in Hin. apply in_map_iff in Hin.
    destruct Hin as (t & E & _). rewrite <- E in Hd.
    apply in_map_iff in Hd. destruct Hd as (s & <- & _).
    eexists. reflexivity.
Qed.

Lemma exportPlan_importPlan_keeps_ids_and_dependencies_witness :
  exists v h',
    importPlan (exportPlan sample_host approved_plan) sample_host
      = (Ok v, h') /\
    map (prop "id") (tasks_of v)
    = map (fun t => Some (Js.VStr (id t))) (tasks approved_plan) /\
    map (prop "dependencies") (tasks_of v)
    = map (fun t => Some (strings (dependencies t))) (tasks approved_plan).
Proof.
  apply (exportPlan_importPlan_keeps_ids_and_dependencies approved_plan
           sample_host sample_host).
  simpl. intros t [<-|[<-|[]]]; discriminate.
Defined.

(** C1: the import of the exported text of a plan restores the status of
    the plan, but not the statuses of its tasks: the tasks are built anew,
    and the completed task comes back pending. *)
Lemma importPlan_forgets_task_status :
  exists v h',
    importPlan (exportPlan sample_host approved_plan) sample_host
      = (Ok v, h') /\
    prop "status" v = Some (Js.VStr "approved") /\
    map (prop "id") (tasks_of v) = [Some (Js.VStr "A"); Some (Js.VStr "B")] /\
    map (prop "status") (tasks_of v)
    = [Some (Js.VStr "pending"); Some (Js.VStr "pending")] /\
    map status (tasks approved_plan) = [completed; pending].
Proof. eexists. eexists. vm_compute. repeat split. Qed.

(** A task whose id is empty is given a generated id by the import. *)
Example importPlan_replaces_empty_id :
  exists v h',
    importPlan (exportPlan sample_host stale_plan) sample_host = (Ok v, h') /\
    map (prop "id") (tasks_of v)
    = [Some (Js.VStr "task-1000-r0"); Some (Js.VStr "B")] /\
    map (fun t => Some (Js.VStr (id t))) (tasks stale_plan)
    = [Some (Js.VStr ""); Some (Js.VStr "B")].
Proof. eexists. eexists. vm_compute. repeat split. Qed.

(** ** What a report means

    Whatever the graph, an id is reported only when a cycle can be reached
    from it. *)

Section AlarmFacts.
Context {K : Type} (eqb : K -> K -> bool).
Hypothesis eqb_spec : forall x y, reflect (x = y) (eqb x y).
Variable tasks : list (K * list K).

Abbreviation leads := (leads_to_cycle tasks).
Abbreviation alarm_spec := (Alarm.alarm_spec tasks).

Lemma leads_edge : forall a b, edge tasks a b -> leads b -> leads a.
Proof.
  intros a b E (c & [->|R] & C); exists c; split; try assumption; right.
  - apply reaches_edge. assumption.
  - eapply reaches_step; eassumption.
Qed.

Lemma hasCycle_loop_alarm :
  forall (rec : K -> Validator.state -> option (bool * Validator.state))
         (x : K) (stack0 : list K) (circ0 : list (K * K)),
    (forall d st r st',
       rec d st = Some (r, st') ->
       (forall s, In s (Validator.recursionStack st) ->
          reaches tasks s d \/ leads s) ->
       alarm_spec st r st' d) ->
    (forall s, In s stack0 -> reaches tasks s x \/ leads s) ->
    forall deps st r st',
      (forall d, In d deps -> edge tasks x d) ->
      (forall s, In s (Validator.recursionStack st) ->
         s = x \/ In s stack0 \/ leads s) ->
      (forall e, In e (Validator.circularDeps st) ->
         In e circ0 \/ (edge tasks (fst e) (snd e) /\ leads (snd e))) ->
      Validator.hasCycle_loop eqb rec x deps st = Some (r, st') ->
      (r = true -> leads x) /\
      (forall s, In s (Validator.recursionStack st') ->
         (r = true /\ s = x) \/ In s stack0 \/ leads s) /\
      (forall e, In e (Validator.circularDeps st') ->
         In e circ0 \/ (edge tasks (fst e) (snd e) /\ leads (snd e))).
Proof.
  intros rec x stack0 circ0 Hrec Hpath.
  induction deps as [|d deps IH]; intros st r st' Hd Hs Hc H.
  - simpl in H. inversion H; subst. simpl. split; [discriminate|]. split.
    + intros s Hin. apply (In_delete eqb eqb_spec) in Hin as [Hin Hne].
      destruct (Hs s Hin) as [->|[?|?]]; [congruence|auto|auto].
    + assumption.
  - simpl in H. destruct (rec d st) as [[r1 st1]|] eqn:E; [|discriminate].
    assert (Hx : edge tasks x d) by (apply Hd; left; reflexivity).
    apply Hrec in E.
    2:{ intros s Hin. destruct (Hs s Hin) as [->|[Hin0|Hl]].
        - left. apply reaches_edge. assumption.
        - destruct (Hpath s Hin0) as [R|L]; [|right; assumption].
          left. eapply reaches_snoc; eassumption.
        - right. assumption. }
    destruct E as (Hr1 & Hs1 & Hc1).
    assert (Hs1' : forall s, In s (Validator.recursionStack st1) ->
                     s = x \/ In s stack0 \/ leads s).
    { intros s Hin. destruct (Hs1 s Hin) as [Hin'|L]; [auto|tauto]. }
    assert (Hc1' : forall e, In e (Validator.circularDeps st1) ->
              In e circ0 \/ (edge tasks (fst e) (snd e) /\ leads (snd e))).
    { intros e Hin. destruct (Hc1 e Hin) as [Hin'|L]; [auto|tauto]. }
    destruct r1.
    + inversion H; subst. simpl. specialize (Hr1 eq_refl).
      split; [intros _; eapply leads_edge; eassumption|]. split.
      * intros s Hin. destruct (Hs1' s Hin) as [->|[?|?]]; auto.
      * intros e Hin. apply in_app_or in Hin. destruct Hin as [Hin|[<-|[]]].
        -- auto.
        -- right. simpl. auto.
    + apply (IH st1 r st'); try assumption.
      intros d' Hd'. apply Hd. right. assumption.
Qed.

Lemma hasCycle_alarm :
  forall fuel x st r st',
    Validator.hasCycle eqb fuel tasks x st = Some (r, st') ->
    (forall s, In s (Validator.recursionStack st) ->
       reaches tasks s x \/ leads s) ->
    alarm_spec st r st' x.
Proof.
  induction fuel as [|fuel IH]; intros x st r st' H Hpath; [discriminate|].
  cbn [Validator.hasCycle] in H.
  destruct (JsSet.has eqb x (Validator.recursionStack st)) eqn:Es.
  { inversion H; subst. apply (has_In eqb eqb_spec) in Es.
    split; [|split; auto].
    intros _. destruct (Hpath x Es) as [R|L]; [|assumption].
    exists x. auto. }
  destruct (JsSet.has eqb x (Validator.visited st)).
  { inversion H; subst. split; [discriminate|]. split; auto. }
  set (st1 := Validator.mkState (JsSet.add eqb x (Validator.visited st))
                (JsSet.add eqb x (Validator.recursionStack st))
                (Validator.circularDeps st)) in H.
  assert (Hloop : exists deps,
            (forall d, In d deps -> edge tasks x d) /\
            Validator.hasCycle_loop eqb (Validator.hasCycle eqb fuel tasks)
              x deps st1 = Some (r, st')).
  { destruct (Validator.find_task eqb tasks x) as [t|] eqn:Ef.
    - exists (snd t). split; [|exact H].
      intros d Hd. eapply (find_task_edge eqb eqb_spec); eassumption.
    - exists []. split; [intros d []|exact H]. }
  destruct Hloop as (deps & Hd & Hloop).
  apply (hasCycle_loop_alarm _ x (Validator.recursionStack st)
           (Validator.circularDeps st) IH Hpath deps st1 r st' Hd) in Hloop.
  - destruct Hloop as (Hr & Hs & Hc). split; [assumption|]. split.
    + intros s Hin. destruct (Hs s Hin) as [[-> ->]|[?|?]]; auto.
    + assumption.
  - simpl. intros s Hin. apply (In_add eqb eqb_spec) in Hin. tauto.
  - simpl. auto.
Qed.

Lemma roots_alarm :
  forall fuel todo st st',
    Validator.roots eqb fuel tasks todo st = Some st' ->
    (forall s, In s (Validator.recursionStack st) -> leads s) ->
    (forall e, In e (Validator.circularDeps st) ->
       edge tasks (fst e) (snd e) /\ leads (snd e)) ->
    forall e, In e (Validator.circularDeps st') ->
      edge tasks (fst e) (snd e) /\ leads (snd e).
Proof.
  intros fuel. induction todo as [|t todo IH]; intros st st' H Hs Hc.
  - inversion H; subst. assumption.
  - cbn [Validator.roots] in H.
    destruct (JsSet.has eqb (fst t) (Validator.visited st)).
    + eapply IH; eassumption.
    + destruct (Validator.hasCycle eqb fuel tasks (fst t) st)
        as [[r st1]|] eqn:E; [|discriminate].
      apply hasCycle_alarm in E; [|auto].
      destruct E as (_ & Hs1 & Hc1).
      eapply IH; [eassumption| |].
      * intros s Hin. destruct (Hs1 s Hin); auto.
      * intros e Hin. destruct (Hc1 e Hin); auto.
Qed.

Lemma detect_alarm :
  forall edges,
    Validator.detect eqb tasks = Some edges ->
    forall e, In e edges -> edge tasks (fst e) (snd e) /\ leads (snd e).
Proof.
  intros edges E. unfold Validator.detect, Validator.detect_fuel in E.
  destruct (Validator.roots eqb _ tasks tasks Validator.init) as [st'|] eqn:R;
    [|discriminate].
  inversion E; subst. eapply roots_alarm; [eassumption| |]; intros ? [].
Qed.
End AlarmFacts.

(** ** A traversal that reports nothing, for cycles of any length *)

Section Quiet.
Context {K : Type} (eqb : K -> K -> bool).
Hypothesis eqb_spec : forall x y, reflect (x = y) (eqb x y).
Variable tasks : list (K * list K).

Abbreviation has := (JsSet.has eqb).
Abbreviation add := (JsSet.add eqb).
Abbreviation delete := (JsSet.delete eqb).
Abbreviation deps_of := (Traversal.deps_of eqb tasks).
Abbreviation finished := (@Traversal.finished K).
Abbreviation follows := (Settled.follows eqb tasks).
Abbreviation settled := (Settled.settled eqb tasks).
Abbreviation quiet_call := (Settled.quiet_call eqb tasks).
Abbreviation circ_extends := (@Traversal.circ_extends K).

Lemma finished_closed :
  forall st u v, settled st -> finished st u -> follows u v -> finished st v.
Proof.
  intros st u v (_ & G2 & _) Hu F. induction F as [a b Hb|a b c Hb _ IH].
  - exact (G2 a b Hu Hb).
  - apply IH. exact (G2 a b Hu Hb).
Qed.

Lemma hasCycle_loop_quiet :
  forall (rec : K -> Validator.state -> option (bool * Validator.state))
         (x : K) (S : list K),
    (forall d st r st',
       rec d st = Some (r, st') -> circ_extends st st') ->
    (forall d st r st',
       rec d st = Some (r, st') -> Validator.circularDeps st' = [] ->
       settled st -> quiet_call d st r st') ->
    forall deps P st r st',
      Validator.hasCycle_loop eqb rec x deps st = Some (r, st') ->
      Validator.circularDeps st' = [] ->
      settled st ->
      Validator.recursionStack st = add x S ->
      In x (Validator.visited st) ->
      (forall d, In d P -> finished st d) ->
      r = false /\
      exists e,
        settled e /\
        Validator.recursionStack e = add x S /\
        incl (Validator.visited st) (Validator.visited e) /\
        (forall d, In d (P ++ deps) -> finished e d) /\
        st' = Validator.mkState (Validator.visited e)
                (delete x (Validator.recursionStack e))
                (Validator.circularDeps e).
Proof.
  intros rec x S Hext Hrec.
  induction deps as [|d deps IH]; intros P st r st' H Hnil Ht Hs Hv Hp.
  - simpl in H. inversion H; subst. split; [reflexivity|].
    exists st. rewrite app_nil_r.
    repeat (split; [first [assumption|apply incl_refl]|]). reflexivity.
  - simpl in H. destruct (rec d st) as [[r1 st1]|] eqn:E; [|discriminate].
    destruct r1.
    { inversion H; subst. simpl in Hnil. apply app_eq_nil in Hnil.
      destruct Hnil as [_ Hnil]. discriminate. }
    assert (Hnil1 : Validator.circularDeps st1 = []).
    { eapply (circ_extends_nil); [|exact Hnil].
      eapply (hasCycle_loop_extends eqb); eassumption. }
    pose proof (Hrec d st false st1 E Hnil1 Ht) as Hcall.
    destruct Hcall as [[Hf _]|(_ & Hd & Ht1 & Hs1 & Hv1 & Hdv)];
      [discriminate|].
    destruct (IH (P ++ [d]) st1 r st' H Hnil Ht1) as (Hr & e & He).
    + congruence.
    + apply Hv1, Hv.
    + intros d' Hin. apply in_app_or in Hin. destruct Hin as [Hin|[<-|[]]].
      * destruct (Hp d' Hin) as [H1 H2]. split; [apply Hv1; assumption|].
        rewrite Hs1. assumption.
      * split; [assumption|]. rewrite Hs1. assumption.
    + split; [assumption|]. destruct He as (E1 & E2 & E3 & E4 & E5).
      exists e. split; [assumption|]. split; [assumption|].
      split; [intros k Hk; apply E3, Hv1, Hk|].
      split; [|assumption].
      rewrite <- app_assoc in E4. exact E4.
Qed.

Lemma settled_enter :
  forall (x : K) (st : Validator.state),
    settled st ->
    ~ In x (Validator.visited st) ->
    settled (Validator.mkState (add x (Validator.visited st))
               (add x (Validator.recursionStack st))
               (Validator.circularDeps st)).
Proof.
  intros x st (G1 & G2 & G3) Hx.
  assert (Hold : forall u,
            finished (Validator.mkState (add x (Validator.visited st))
                        (add x (Validator.recursionStack st))
                        (Validator.circularDeps st)) u ->
            finished st u /\ u <> x).
  { intros u [Hu Hnu]. simpl in Hu, Hnu.
    rewrite (In_add eqb eqb_spec) in Hu, Hnu.
    destruct Hu as [->|Hu]; [exfalso; apply Hnu; left; reflexivity|].
    split; [split; [assumption|]|]; intros F; apply Hnu; [right|left];
      assumption. }
  split; [|split].
  - simpl. intros s Hs. rewrite (In_add eqb eqb_spec) in *.
    destruct Hs as [->|Hs]; [left; reflexivity|right; apply G1; assumption].
  - intros u d Hu Hd. apply Hold in Hu as [Hu _].
    destruct (G2 u d Hu Hd) as [Hd1 Hd2]. split; simpl.
    + apply (In_add eqb eqb_spec). right. assumption.
    + rewrite (In_add eqb eqb_spec). intros [->|F]; contradiction.
  - intros u Hu. apply Hold in Hu as [Hu _]. exact (G3 u Hu).
Qed.

Lemma hasCycle_quiet :
  forall fuel x st r st',
    Validator.hasCycle eqb fuel tasks x st = Some (r, st') ->
    Validator.circularDeps st' = [] ->
    settled st ->
    quiet_call x st r st'.
Proof.
  induction fuel as [|fuel IH]; intros x st r st' H Hnil Ht; [discriminate|].
  cbn [Validator.hasCycle] in H.
  destruct (has x (Validator.recursionStack st)) eqn:Es.
  { inversion H; subst. left. apply (has_In eqb eqb_spec) in Es. auto. }
  apply (has_false eqb eqb_spec) in Es.
  destruct (has x (Validator.visited st)) eqn:Ev.
  { inversion H; subst. right. apply (has_In eqb eqb_spec) in Ev.
    repeat (split; [first [assumption | reflexivity | apply incl_refl]|]).
    assumption. }
  apply (has_false eqb eqb_spec) in Ev.
  assert (Hloop : Validator.hasCycle_loop eqb
                    (Validator.hasCycle eqb fuel tasks) x (deps_of x)
                    (Validator.mkState (add x (Validator.visited st))
                       (add x (Validator.recursionStack st))
                       (Validator.circularDeps st)) = Some (r, st')).
  { unfold Traversal.deps_of.
    destruct (Validator.find_task eqb tasks x); exact H. }
  clear H.
  apply (hasCycle_loop_quiet _ x (Validator.recursionStack st)
           (fun d s r0 s' E =>
              proj1 (hasCycle_reports eqb eqb_spec tasks fuel d s r0 s' E))
           IH (deps_of x) []) in Hloop; try assumption.
  - destruct Hloop as (-> & e & (E1 & E2 & E3) & Hs & Hv & Hdeps & ->).
    simpl in Hdeps, Hv. right.
    assert (Hxs : forall s, In s (Validator.recursionStack st) ->
                            In s (add x (Validator.recursionStack st))).
    { intros s Hin. apply (In_add eqb eqb_spec). right. assumption. }
    assert (Hxx : In x (add x (Validator.recursionStack st))).
    { apply (In_add eqb eqb_spec). left. reflexivity. }
    assert (Hxv : In x (Validator.visited e)).
    { apply Hv. apply (In_add eqb eqb_spec). left. reflexivity. }
    assert (Hstack : delete x (Validator.recursionStack e)
                     = Validator.recursionStack st).
    { rewrite Hs. apply (delete_add_fresh eqb eqb_spec). assumption. }
    assert (Hnx : ~ finished e x).
    { intros [_ F]. apply F. rewrite Hs. exact Hxx. }
    split; [reflexivity|]. split; [assumption|].
    split; [|split; [exact Hstack|split; [|exact Hxv]]].
    + assert (Hfin : forall u,
                finished (Validator.mkState (Validator.visited e)
                            (delete x (Validator.recursionStack e))
                            (Validator.circularDeps e)) u ->
                u = x \/ finished e u).
      { intros u [Hu Hnu]. simpl in Hu, Hnu. rewrite Hstack in Hnu.
        destruct (eqb_spec u x) as [->|Hne]; [left; reflexivity|right].
        split; [assumption|]. rewrite Hs, (In_add eqb eqb_spec).
        intros [F|F]; contradiction. }
      assert (Hback : forall d,
                finished e d ->
                finished (Validator.mkState (Validator.visited e)
                            (delete x (Validator.recursionStack e))
                            (Validator.circularDeps e)) d).
      { intros d [Hd Hnd]. split; simpl; [assumption|].
        rewrite Hstack. intros F. apply Hnd. rewrite Hs. apply Hxs, F. }
      split; [|split].
      * simpl. rewrite Hstack. intros s Hin. apply E1. rewrite Hs.
        apply Hxs, Hin.
      * intros u d Hu Hd. apply Hback. apply Hfin in Hu as [->|Hu].
        -- apply Hdeps. assumption.
        -- exact (E2 u d Hu Hd).
      * intros u Hu. apply Hfin in Hu as [->|Hu]; [|exact (E3 u Hu)].
        intros F. apply Hnx. inversion F as [a b Hb|a b c Hb Hbc]; subst.
        -- apply Hdeps. assumption.
        -- eapply finished_closed; [split; [|split]; eassumption| |exact Hbc].
           apply Hdeps. assumption.
    + intros k Hin. apply Hv. apply (In_add eqb eqb_spec). right. assumption.
  - apply settled_enter; assumption.
  - reflexivity.
  - simpl. apply (In_add eqb eqb_spec). left. reflexivity.
  - intros d [].
Qed.

Lemma roots_quiet :
  forall fuel todo st st',
    Validator.roots eqb fuel tasks todo st = Some st' ->
    Validator.circularDeps st' = [] ->
    settled st ->
    Validator.recursionStack st = [] ->
    settled st' /\ Validator.recursionStack st' = [] /\
    incl (Validator.visited st) (Validator.visited st') /\
    forall t, In t todo -> In (fst t) (Validator.visited st').
Proof.
  intros fuel. induction todo as [|t todo IH]; intros st st' H Hnil Ht Hs.
  - inversion H; subst. repeat (split; [first [assumption|apply incl_refl]|]).
    intros t [].
  - cbn [Validator.roots] in H.
    destruct (has (fst t) (Validator.visited st)) eqn:Ev.
    + apply (has_In eqb eqb_spec) in Ev.
      destruct (IH st st' H Hnil Ht Hs) as (T & S' & I & A).
      repeat (split; [assumption|]).
      intros u [<-|Hu]; [apply I; assumption|apply A; assumption].
    + destruct (Validator.hasCycle eqb fuel tasks (fst t) st)
        as [[r st1]|] eqn:E; [|discriminate].
      assert (Hnil1 : Validator.circularDeps st1 = []).
      { eapply circ_extends_nil; [|exact Hnil].
        eapply (roots_reports eqb eqb_spec tasks). eassumption. }
      destruct (hasCycle_quiet _ _ _ _ _ E Hnil1 Ht)
        as [(_ & F & _)|(_ & _ & T1 & S1 & I1 & V1)].
      { rewrite Hs in F. destruct F. }
      destruct (IH st1 st' H Hnil T1) as (T & S' & I & A); [congruence|].
      repeat (split; [first [assumption|idtac]|]).
      * intros k Hk. apply I, I1, Hk.
      * intros u [<-|Hu]; [apply I; assumption|apply A; assumption].
Qed.

(** Nothing reported: no id follows itself. *)
Lemma detect_quiet :
  Validator.detect eqb tasks = Some [] -> forall a, ~ follows a a.
Proof.
  intros E a F.
  unfold Validator.detect, Validator.detect_fuel in E.
  destruct (Validator.roots eqb _ tasks tasks Validator.init) as [st'|] eqn:R;
    [|discriminate].
  inversion E as [Hnil]. clear E.
  destruct (roots_quiet _ _ _ _ R Hnil) as ((_ & _ & G3) & S' & _ & A).
  - repeat split; simpl; intros; try contradiction;
      match goal with H : finished _ _ |- _ => destruct H as [[] _] end.
  - reflexivity.
  - apply (G3 a); [|exact F]. split; [|rewrite S'; intros []].
    assert (Hd : exists b, In b (deps_of a)).
    { inversion F; subst; eexists; eassumption. }
    destruct Hd as [b Hb]. unfold Traversal.deps_of in Hb.
    destruct (Validator.find_task eqb tasks a) as [t|] eqn:Ef; [|destruct Hb].
    apply (find_task_Some eqb eqb_spec) in Ef as [Ht <-]. apply A. exact Ht.
Qed.

Lemma find_task_unique :
  forall t, NoDup (map fst tasks) -> In t tasks ->
    Validator.find_task eqb tasks (fst t) = Some t.
Proof.
  intros t. unfold Validator.find_task.
  induction tasks as [|u rest IH]; intros Hnd Hin; [destruct Hin|].
  simpl in *. inversion Hnd as [|? ? Hu Hrest]; subst.
  destruct (eqb_spec (fst u) (fst t)) as [E|N].
  - destruct Hin as [->|Hin]; [reflexivity|].
    exfalso. apply Hu. rewrite E. apply in_map. assumption.
  - destruct Hin as [->|Hin]; [congruence|]. apply IH; assumption.
Qed.

Lemma reaches_follows :
  NoDup (map fst tasks) ->
  forall a b, reaches tasks a b -> follows a b.
Proof.
  intros Hnd a b R.
  assert (Hedge : forall x y, edge tasks x y -> In y (deps_of x)).
  { intros x y (t & Ht & <- & Hy). unfold Traversal.deps_of.
    rewrite (find_task_unique t Hnd Ht). assumption. }
  induction R as [x y E|x y z E _ IH].
  - apply Settled.follows_one. apply Hedge, E.
  - eapply Settled.follows_step; [apply Hedge, E|exact IH].
Qed.

Lemma detect_complete :
  NoDup (map fst tasks) ->
  Validator.detect eqb tasks = Some [] -> acyclic tasks.
Proof.
  intros Hnd E a R. apply (detect_quiet E a). apply reaches_follows; assumption.
Qed.
End Quiet.

(** ** Validation on typed tasks *)

Lemma map_edge_label_nil :
  forall edges : list (string * string), map edge_label edges = [] -> edges = [].
Proof. intros [|e l] H; [reflexivity|discriminate]. Qed.

Lemma graph_of_ids : forall ts, map fst (graph_of ts) = map id ts.
Proof.
  intros ts. unfold graph_of. rewrite map_map. reflexivity.
Qed.

Lemma graph_of_edge :
  forall ts a b,
    edge (graph_of ts) a b <->
    exists t, In t ts /\ id t = a /\ In b (dependencies t).
Proof.
  intros ts a b. unfold edge, graph_of. split.
  - intros (p & Hp & Ha & Hb). apply in_map_iff in Hp.
    destruct Hp as (t & <- & Ht). exists t. auto.
  - intros (t & Ht & Ha & Hb). exists (id t, dependencies t).
    split; [apply in_map_iff; exists t; auto|auto].
Qed.

(** X1: on a task list with distinct ids, [detectCircularDependencies]
    returns the empty list exactly when the dependency graph has no cycle,
    whatever the length of the cycle. *)
Theorem detectCircularDependencies_empty_iff_acyclic :
  forall ts,
    NoDup (map id ts) ->
    (detectCircularDependencies ts = Some [] <-> acyclic (graph_of ts)).
Proof.
  intros ts Hnd. unfold detectCircularDependencies. split.
  - intros H.
    destruct (Validator.detect String.eqb (graph_of ts)) as [edges|] eqn:E;
      [|discriminate].
    simpl in H. inversion H as [Hm]. apply map_edge_label_nil in Hm. subst.
    apply (detect_complete String.eqb String.eqb_spec); [|assumption].
    rewrite graph_of_ids. assumption.
  - intros H. rewrite (detect_acyclic String.eqb String.eqb_spec _ H).
    reflexivity.
Qed.

Lemma detectCircularDependencies_empty_iff_acyclic_witness :
  detectCircularDependencies (tasks (sample_plan pending pending)) = Some []
  <-> acyclic (graph_of (tasks (sample_plan pending pending))).
Proof.
  apply (detectCircularDependencies_empty_iff_acyclic
           (tasks (sample_plan pending pending))).
  simpl. repeat constructor; simpl; intuition discriminate.
Defined.

(** X2: on every task list [detectCircularDependencies] returns, and each
    pair it reports is a dependency of some task of the list whose target
    leads to a cycle: the target depends on itself, directly or not, or
    reaches an id that does. *)
Theorem detectCircularDependencies_reports_lead_to_cycle :
  forall ts,
    exists edges,
      detectCircularDependencies ts = Some (map edge_label edges) /\
      forall a b, In (a, b) edges ->
        (exists t, In t ts /\ id t = a /\ In b (dependencies t)) /\
        leads_to_cycle (graph_of ts) b.
Proof.
  intros ts.
  destruct (detect_terminates String.eqb String.eqb_refl (graph_of ts))
    as [edges E].
  exists edges. unfold detectCircularDependencies. rewrite E.
  split; [reflexivity|]. intros a b Hin.
  destruct (detect_alarm String.eqb String.eqb_spec _ _ E (a, b) Hin)
    as [He Hl].
  split; [apply graph_of_edge; exact He|exact Hl].
Qed.

Lemma In_invalid :
  forall (g : list (string * list string)) (a d : string),
    In (a, d) (Validator.invalid String.eqb g) <->
    (exists t, In t g /\ fst t = a /\ In d (snd t)) /\ ~ In d (map fst g).
Proof.
  intros g a d. unfold Validator.invalid.
  set (taskIds := fold_left _ g []).
  assert (Hids : forall x, In x taskIds <-> In x (map fst g)).
  { intros x. subst taskIds.
    assert (G : forall l acc,
              In x (fold_left (fun s (t : string * list string) =>
                                 JsSet.add String.eqb (fst t) s) l acc)
              <-> In x (map fst l) \/ In x acc).
    { induction l as [|u l IH]; intros acc; simpl; [tauto|].
      rewrite IH, (In_add String.eqb String.eqb_spec).
      split; intros H; intuition congruence. }
    rewrite G. simpl. tauto. }
  rewrite in_flat_map. split.
  - intros (t & Ht & Hin). apply in_flat_map in Hin.
    destruct Hin as (x & Hx & Hin).
    destruct (JsSet.has String.eqb x taskIds) eqn:Eh; [destruct Hin|].
    destruct Hin as [Hin|[]]. inversion Hin; subst.
    split; [exists t; auto|].
    apply (has_false String.eqb String.eqb_spec) in Eh.
    rewrite <- Hids. assumption.
  - intros ((t & Ht & <- & Hd) & Hn). exists t. split; [assumption|].
    apply in_flat_map. exists d. split; [assumption|].
    destruct (JsSet.has String.eqb d taskIds) eqn:Eh.
    + apply (has_In String.eqb String.eqb_spec) in Eh.
      apply Hids in Eh. contradiction.
    + left. reflexivity.
Qed.

Lemma In_findInvalidDependencies :
  forall ts msg,
    In msg (findInvalidDependencies ts) <->
    exists t d,
      In t ts /\ In d (dependencies t) /\
      (forall u, In u ts -> id u <> d) /\
      msg = (id t ++ " depends on non-existent task " ++ d)%string.
Proof.
  intros ts msg. unfold findInvalidDependencies. rewrite in_map_iff. split.
  - intros ([a d] & <- & Hin). apply In_invalid in Hin.
    destruct Hin as [He Hn]. apply graph_of_edge in He.
    destruct He as (t & Ht & <- & Hd). exists t, d.
    repeat (split; [assumption|]). split; [|reflexivity].
    intros u Hu E. apply Hn. rewrite graph_of_ids, <- E.
    apply in_map. assumption.
  - intros (t & d & Ht & Hd & Hn & ->). exists (id t, d).
    split; [reflexivity|]. apply In_invalid. split.
    + apply graph_of_edge. exists t. auto.
    + rewrite graph_of_ids. intros Hin. apply in_map_iff in Hin.
      destruct Hin as (u & E & Hu). exact (Hn u Hu E).
Qed.

Lemma no_dangling_iff :
  forall ts,
    findInvalidDependencies ts = [] <->
    forall t d, In t ts -> In d (dependencies t) ->
      exists u, In u ts /\ id u = d.
Proof.
  intros ts. split.
  - intros H t d Ht Hd.
    destruct (in_dec string_dec d (map id ts)) as [Hin|Hn].
    + apply in_map_iff in Hin. destruct Hin as (u & E & Hu). exists u. auto.
    + exfalso.
      assert (Hm : In (invalid_label (id t, d)) (findInvalidDependencies ts)).
      { unfold findInvalidDependencies. apply in_map. apply In_invalid.
        split; [apply graph_of_edge; exists t; auto|].
        rewrite graph_of_ids. assumption. }
      rewrite H in Hm. destruct Hm.
  - intros H. destruct (findInvalidDependencies ts) as [|msg l] eqn:E;
      [reflexivity|].
    assert (Hm : In msg (findInvalidDependencies ts))
      by (rewrite E; left; reflexivity).
    unfold findInvalidDependencies in Hm. apply in_map_iff in Hm.
    destruct Hm as ([a d] & _ & Hin). apply In_invalid in Hin.
    destruct Hin as [He Hn]. apply graph_of_edge in He.
    destruct He as (t & Ht & _ & Hd). destruct (H t d Ht Hd) as (u & Hu & Eu).
    exfalso. apply Hn. rewrite graph_of_ids, <- Eu. apply in_map. assumption.
Qed.

(** X3: [findInvalidDependencies] reports a message exactly for each task
    and each of its dependencies that is the id of no task of the list, and
    the message names both; the report is empty exactly when every
    dependency is the id of a task of the list. *)
Theorem findInvalidDependencies_exact :
  forall ts,
    (forall msg,
       In msg (findInvalidDependencies ts) <->
       exists t d,
         In t ts /\ In d (dependencies t) /\
         (forall u, In u ts -> id u <> d) /\
         msg = (id t ++ " depends on non-existent task " ++ d)%string) /\
    (findInvalidDependencies ts = [] <->
     forall t d, In t ts -> In d (dependencies t) ->
       exists u, In u ts /\ id u = d).
Proof.
  intros ts. split.
  - intros msg. apply In_findInvalidDependencies.
  - apply no_dangling_iff.
Qed.

(** ** More on the topological sort *)

Section SortFacts.
Variable ts : list Task.

Abbreviation has := (JsSet.has String.eqb).
Abbreviation add := (JsSet.add String.eqb).
Abbreviation get := (Topo.taskMap_get ts).

(** *** What the result holds *)

Lemma forEach_from_map :
  forall (rec : string -> Topo.state -> option Topo.state),
    (forall d st st', rec d st = Some st' ->
       forall t, In t (Topo.result st') ->
         In t (Topo.result st) \/ get (id t) = Some t) ->
    forall deps st st',
      Topo.forEach rec deps st = Some st' ->
      forall t, In t (Topo.result st') ->
        In t (Topo.result st) \/ get (id t) = Some t.
Proof.
  intros rec Hrec. induction deps as [|d deps IH]; intros st st' H t Ht.
  - inversion H; subst. auto.
  - simpl in H. destruct (rec d st) as [st1|] eqn:E; [|discriminate].
    destruct (IH st1 st' H t Ht) as [Hin|Hg]; [|auto].
    exact (Hrec d st st1 E t Hin).
Qed.

Lemma visit_from_map :
  forall fuel x st st',
    Topo.visit fuel ts x st = Some st' ->
    forall t, In t (Topo.result st') ->
      In t (Topo.result st) \/ get (id t) = Some t.
Proof.
  induction fuel as [|fuel IH]; intros x st st' H t Ht; [discriminate|].
  cbn [Topo.visit] in H.
  destruct (has x (Topo.visiting st)); [inversion H; subst; auto|].
  destruct (has x (Topo.visited st)); [inversion H; subst; auto|].
  destruct (get x) as [u|] eqn:Eu.
  - destruct (Topo.forEach _ (dependencies u) _) as [st2|] eqn:E;
      [|discriminate].
    inversion H; subst. simpl in Ht. apply in_app_or in Ht.
    destruct Ht as [Ht|[<-|[]]].
    + destruct (forEach_from_map _ IH _ _ _ E t Ht) as [Hin|Hg]; auto.
    + right. apply (get_Some ts) in Eu as Hu. destruct Hu as [_ <-].
      assumption.
  - inversion H; subst. auto.
Qed.

(** *** A list already in order *)

Lemma visit_S :
  forall fuel x st,
    Topo.visit (S fuel) ts x st =
    if has x (Topo.visiting st) then Some st
    else if has x (Topo.visited st) then Some st
    else
      let st1 := Topo.mkState (Topo.visited st)
                   (add x (Topo.visiting st)) (Topo.result st) in
      match get x with
      | Some task =>
          match Topo.forEach (Topo.visit fuel ts) (dependencies task) st1 with
          | None => None
          | Some st2 =>
              Some (Topo.mkState
                      (add x (Topo.visited st2))
                      (JsSet.delete String.eqb x (Topo.visiting st2))
                      (Topo.result st2 ++ [task]))
          end
      | None => Some st1
      end.
Proof. reflexivity. Qed.

Lemma forEach_settled_deps :
  forall fuel deps st,
    (forall d, In d deps -> In d (Topo.visited st) \/ get d = None) ->
    exists st',
      Topo.forEach (Topo.visit (S fuel) ts) deps st = Some st' /\
      Topo.visited st' = Topo.visited st /\
      Topo.result st' = Topo.result st /\
      (forall k, In k (Topo.visiting st') ->
         In k (Topo.visiting st) \/ get k = None).
Proof.
  intros fuel. induction deps as [|d deps IH]; intros st Hd.
  - exists st. simpl. auto.
  - cbn [Topo.forEach Topo.visit].
    assert (Hrest : forall st1,
              Topo.visited st1 = Topo.visited st ->
              Topo.result st1 = Topo.result st ->
              (forall k, In k (Topo.visiting st1) ->
                 In k (Topo.visiting st) \/ get k = None) ->
              exists st',
                Topo.forEach (Topo.visit (S fuel) ts) deps st1 = Some st' /\
                Topo.visited st' = Topo.visited st /\
                Topo.result st' = Topo.result st /\
                (forall k, In k (Topo.visiting st') ->
                   In k (Topo.visiting st) \/ get k = None)).
    { intros st1 Hv Hr Hg. destruct (IH st1) as (st' & E & Hv' & Hr' & Hg').
      - intros d' Hd'. rewrite Hv. apply Hd. right. assumption.
      - exists st'. split; [assumption|]. split; [congruence|].
        split; [congruence|]. intros k Hk.
        destruct (Hg' k Hk) as [Hin|Hn]; auto. }
    destruct (has d (Topo.visiting st)); [apply Hrest; auto|].
    destruct (has d (Topo.visited st)) eqn:Ev; [apply Hrest; auto|].
    apply (has_false String.eqb String.eqb_spec) in Ev.
    destruct (Hd d (or_introl eq_refl)) as [F|Hn]; [contradiction|].
    rewrite Hn. apply Hrest; simpl; auto.
    intros k Hk. apply (In_add String.eqb String.eqb_spec) in Hk.
    destruct Hk as [->|Hk]; auto.
Qed.

Lemma forEach_in_order :
  NoDup (map id ts) ->
  forall fuel l2 l1 st,
    ts = l1 ++ l2 ->
    (forall l t l', l2 = l ++ t :: l' ->
       forall d, In d (dependencies t) ->
         In d (map id (l1 ++ l)) \/ get d = None) ->
    Topo.visited st = map id l1 ->
    Topo.result st = l1 ->
    (forall k, In k (Topo.visiting st) -> get k = None) ->
    exists st',
      Topo.forEach (Topo.visit (S (S fuel)) ts) (map id l2) st = Some st' /\
      Topo.result st' = l1 ++ l2.
Proof.
  intros Hnd fuel. induction l2 as [|t l2 IH]; intros l1 st E Hord Hv Hr Hg.
  - exists st. simpl. rewrite app_nil_r. auto.
  - cbn [map Topo.forEach]. rewrite visit_S.
    assert (Ht : In t ts) by (rewrite E; apply in_elt).
    assert (Hgt : get (id t) = Some t) by (apply get_unique; assumption).
    destruct (has (id t) (Topo.visiting st)) eqn:Eg.
    { apply (has_In String.eqb String.eqb_spec) in Eg. apply Hg in Eg.
      congruence. }
    destruct (has (id t) (Topo.visited st)) eqn:Ev.
    { apply (has_In String.eqb String.eqb_spec) in Ev. rewrite Hv in Ev.
      exfalso. rewrite E, map_app in Hnd. simpl in Hnd.
      apply NoDup_remove_2 in Hnd. apply Hnd. apply in_or_app. auto. }
    apply (has_false String.eqb String.eqb_spec) in Ev.
    rewrite Hgt. cbv zeta.
    destruct (forEach_settled_deps fuel (dependencies t)
                (Topo.mkState (Topo.visited st)
                   (add (id t) (Topo.visiting st)) (Topo.result st)))
      as (st2 & -> & Hv2 & Hr2 & Hg2).
    { simpl. intros d Hd. rewrite Hv.
      destruct (Hord [] t l2 eq_refl d Hd) as [Hin|Hn]; [|auto].
      rewrite app_nil_r in Hin. auto. }
    simpl in Hv2, Hr2, Hg2.
    replace (l1 ++ t :: l2) with ((l1 ++ [t]) ++ l2)
      by (rewrite <- app_assoc; reflexivity).
    apply (IH (l1 ++ [t])).
    + rewrite <- app_assoc. exact E.
    + intros l u l' El d Hd. rewrite <- app_assoc. simpl.
      apply (Hord (t :: l) u l'); [rewrite El; reflexivity|assumption].
    + simpl. rewrite Hv2, map_app. simpl. unfold JsSet.add.
      rewrite <- Hv.
      apply (has_false String.eqb String.eqb_spec) in Ev. rewrite Ev.
      reflexivity.
    + simpl. rewrite Hr2, Hr. reflexivity.
    + simpl. intros k Hk.
      apply (In_delete String.eqb String.eqb_spec) in Hk as [Hk Hne].
      destruct (Hg2 k Hk) as [Hin|Hn]; [|assumption].
      apply (In_add String.eqb String.eqb_spec) in Hin.
      destruct Hin as [->|Hin]; [congruence|auto].
Qed.

Lemma sort_fixed :
  NoDup (map id ts) -> dependencies_first ts ts ->
  topologicalSort ts = Some ts.
Proof.
  intros Hnd Hord. unfold topologicalSort, Topo.sort_fuel.
  destruct ts as [|t0 rest] eqn:Ets; [reflexivity|]. rewrite <- Ets in *.
  assert (Hk : exists f, length (Validator.all_keys (graph_of ts)) = S f).
  { rewrite Ets. simpl. eauto. }
  destruct Hk as [f ->].
  destruct (forEach_in_order Hnd f ts [] Topo.init) as (st' & -> & Hr);
    try reflexivity.
  - intros l t l' El d Hd. simpl.
    destruct (get d) as [td|] eqn:Eg; [left|right; reflexivity].
    apply (get_Some ts) in Eg as [Htd <-].
    apply in_map. eapply Hord; eauto.
  - intros k [].
  - simpl. rewrite Hr. reflexivity.
Qed.
End SortFacts.

(** X4: a task list with distinct ids in which every task comes after the
    tasks its dependencies name is returned by [topologicalSort] as it
    is. *)
Theorem topologicalSort_keeps_ordered_list :
  forall ts,
    NoDup (map id ts) -> dependencies_first ts ts ->
    topologicalSort ts = Some ts.
Proof.
  intros ts Hnd Hord. unfold topologicalSort, Topo.sort_fuel.
  destruct ts as [|t0 rest] eqn:Ets; [reflexivity|]. rewrite <- Ets in *.
  assert (Hk : exists f, length (Validator.all_keys (graph_of ts)) = S f).
  { rewrite Ets. simpl. eauto. }
  destruct Hk as [f ->].
  destruct (forEach_in_order ts Hnd f ts [] Topo.init) as (st' & -> & Hr);
    try reflexivity.
  - intros l t l' El d Hd. simpl.
    destruct (Topo.taskMap_get ts d) as [td|] eqn:Eg;
      [left|right; reflexivity].
    apply (get_Some ts) in Eg as [Htd <-].
    apply in_map. eapply Hord; eauto.
  - intros k [].
  - simpl. rewrite Hr. reflexivity.
Qed.

Lemma topologicalSort_keeps_ordered_list_witness :
  topologicalSort (tasks (sample_plan pending pending))
  = Some (tasks (sample_plan pending pending)).
Proof.
  apply (topologicalSort_keeps_ordered_list
           (tasks (sample_plan pending pending))).
  - simpl. repeat constructor; simpl; intuition discriminate.
  - intros l1 t l2 E d td Hd Htd Hid.
    destruct l1 as [|a [|b [|c l1]]]; simpl in E; inversion E; subst;
      simpl in Hd; try contradiction.
    + destruct Hd as [Hd|[]]. simpl in Htd.
      destruct Htd as [Htd|[Htd|[]]]; subst td; [left; reflexivity|].
      discriminate.
Defined.

(** X5: on a task list with distinct ids and no cycle, sorting the result
    of [topologicalSort] again changes nothing. *)
Theorem topologicalSort_idempotent :
  forall ts,
    acyclic (graph_of ts) -> NoDup (map id ts) ->
    exists sorted,
      topologicalSort ts = Some sorted /\
      topologicalSort sorted = Some sorted.
Proof.
  intros ts Ha Hnd.
  destruct (topologicalSort_ordered ts Ha Hnd) as (sorted & E & Hp & Ho).
  exists sorted. split; [assumption|]. apply sort_fixed.
  - apply (Permutation_NoDup (l := map id ts)); [|assumption].
    apply Permutation_map. apply Permutation_sym. assumption.
  - intros l1 t l2 El d td Hd Htd Hid.
    apply (Ho l1 t l2 El d td Hd); [|assumption].
    eapply Permutation_in; eassumption.
Qed.

Lemma topologicalSort_idempotent_witness :
  exists sorted,
    topologicalSort (tasks (sample_plan pending pending)) = Some sorted /\
    topologicalSort sorted = Some sorted.
Proof.
  apply (topologicalSort_idempotent (tasks (sample_plan pending pending))).
  - apply sample_plan_acyclic.
  - simpl. repeat constructor; simpl; intuition discriminate.
Defined.

(** X6: on every task list, with or without cycles and repeated ids,
    [topologicalSort] returns a list without repeated ids that holds
    exactly the tasks the id map holds: for each id, the last task of the
    list with that id. *)
Theorem topologicalSort_one_task_per_id :
  forall ts,
    exists sorted,
      topologicalSort ts = Some sorted /\
      NoDup (map id sorted) /\
      forall t, In t sorted <-> Topo.taskMap_get ts (id t) = Some t.
Proof.
  intros ts. destruct (topologicalSort_terminates ts) as [sorted E].
  exists sorted. split; [assumption|].
  unfold topologicalSort, Topo.sort_fuel in E.
  destruct (Topo.forEach _ (map id ts) Topo.init) as [st'|] eqn:R;
    [|discriminate].
  inversion E; subst sorted. clear E.
  destruct (roots_sound ts _ _ _ _ R (sound_init ts))
    as ((A & B & C & _) & _ & V).
  - intros k [].
  - intros k Hk. apply in_map_iff in Hk. destruct Hk as [t [<- Ht]].
    apply get_task. assumption.
  - assert (Hmap : forall t, In t (Topo.result st') ->
                     Topo.taskMap_get ts (id t) = Some t).
    { intros t Ht.
      destruct (forEach_from_map ts _ (visit_from_map ts _) _ _ _ R t Ht)
        as [[]|Hg]. assumption. }
    split; [rewrite <- A; assumption|].
    intros t. split; [apply Hmap|]. intros Hg.
    apply (get_Some ts) in Hg as Hin. destruct Hin as [Hin _].
    assert (Hv : In (id t) (Topo.visited st')).
    { apply V. apply in_map. assumption. }
    rewrite A in Hv. apply in_map_iff in Hv. destruct Hv as (u & Eu & Hu).
    apply Hmap in Hu as Hgu. rewrite Eu in Hgu.
    assert (u = t) by congruence. subst. assumption.
Qed.

(** ** Removing a task keeps the plan valid *)

(** ** Removing a task keeps the plan valid *)

Lemma splice1_keeps :
  forall (A : Type) (l : list A) (i : nat) (x w : A),
    nth_error l i = Some x -> In w l -> w = x \/ In w (splice1 i l).
Proof.
  intros A. unfold splice1.
  induction l as [|a l IH]; intros i x w Hn Hw; [destruct Hw|].
  destruct i as [|i]; simpl in *.
  - inversion Hn; subst. destruct Hw as [<-|Hw]; auto.
  - destruct Hw as [<-|Hw]; [auto|].
    destruct (IH i x w Hn Hw); auto.
Qed.

Lemma removeTask_Ok :
  forall (p : Plan) (i : Z) (h : Host),
    (0 <= i < Z.of_nat (length (tasks p)))%Z ->
    exists removed,
      nth_error (tasks p) (Z.to_nat i) = Some removed /\
      removeTask p i h =
      (Ok (set_tasks p
             (map (fun task =>
                     set_dependencies task
                       (filter (fun depId => negb (String.eqb depId (id removed)))
                               (dependencies task)))
                  (splice1 (Z.to_nat i) (tasks p)))
             (Date_ms (clock h (clock_reads h)))),
       mkHost (clock h) (S (clock_reads h)) (random36 h) (random_reads h)
              (toISOString h) (Date_from h)).
Proof.
  intros p i h Hi. apply in_range_spec in Hi as Hr.
  destruct (in_range_nth i p Hr) as [removed Hn].
  exists removed. split; [assumption|].
  unfold removeTask. rewrite Hr, Hn. reflexivity.
Qed.

(** X7: when every dependency of the plan names a task of the plan, this
    is still so after [removeTask] at an index in range. *)
Theorem removeTask_keeps_references_valid :
  forall (p : Plan) (i : Z) (h : Host),
    (0 <= i < Z.of_nat (length (tasks p)))%Z ->
    findInvalidDependencies (tasks p) = [] ->
    exists p' h',
      removeTask p i h = (Ok p', h') /\
      findInvalidDependencies (tasks p') = [].
Proof.
  intros p i h Hi Hv. destruct (removeTask_Ok p i h Hi) as (removed & Hn & ->).
  eexists. eexists. split; [reflexivity|]. cbn [set_tasks tasks].
  apply no_dangling_iff. intros t d Ht Hd.
  apply in_map_iff in Ht. destruct Ht as (u & <- & Hu).
  cbn [set_dependencies dependencies] in Hd.
  apply filter_In in Hd. destruct Hd as [Hd Hne].
  apply splice1_In in Hu.
  destruct (proj1 (no_dangling_iff (tasks p)) Hv u d Hu Hd) as (w & Hw & Ew).
  destruct (splice1_keeps _ _ _ _ _ Hn Hw) as [->|Hin].
  - rewrite <- Ew, String.eqb_refl in Hne. discriminate.
  - eexists. split; [apply in_map; exact Hin|]. exact Ew.
Qed.

Lemma removeTask_keeps_references_valid_witness :
  exists p' h',
    removeTask (sample_plan pending pending) 0 sample_host = (Ok p', h') /\
    findInvalidDependencies (tasks p') = [].
Proof.
  apply (removeTask_keeps_references_valid (sample_plan pending pending) 0
           sample_host).
  - simpl. lia.
  - reflexivity.
Defined.

(** ** Removing a task keeps the graph acyclic *)

Lemma scrub_edge :
  forall (ts : list Task) (i : nat) (rid a b : string),
    edge (graph_of
            (map (fun task =>
                    set_dependencies task
                      (filter (fun depId => negb (String.eqb depId rid))
                              (dependencies task)))
                 (splice1 i ts))) a b ->
    edge (graph_of ts) a b.
Proof.
  intros ts i rid a b He. apply graph_of_edge in He.
  destruct He as (t & Ht & Ha & Hb). apply in_map_iff in Ht.
  destruct Ht as (u & <- & Hu). cbn [set_dependencies id dependencies] in *.
  apply filter_In in Hb. destruct Hb as [Hb _]. apply splice1_In in Hu.
  apply graph_of_edge. exists u. auto.
Qed.

Lemma reaches_mono :
  forall (K : Type) (g g' : list (K * list K)),
    (forall a b, edge g a b -> edge g' a b) ->
    forall a b, reaches g a b -> reaches g' a b.
Proof.
  intros K g g' H a b R. induction R as [x y E|x y z E _ IH].
  - apply reaches_edge. auto.
  - eapply reaches_step; [apply H; eassumption|assumption].
Qed.

(** X8: when the ids of the plan are distinct and
    [detectCircularDependencies] reports nothing, the same holds after
    [removeTask] at an index in range. *)
Theorem removeTask_keeps_acyclic :
  forall (p : Plan) (i : Z) (h : Host),
    (0 <= i < Z.of_nat (length (tasks p)))%Z ->
    NoDup (map id (tasks p)) ->
    detectCircularDependencies (tasks p) = Some [] ->
    exists p' h',
      removeTask p i h = (Ok p', h') /\
      NoDup (map id (tasks p')) /\
      detectCircularDependencies (tasks p') = Some [].
Proof.
  intros p i h Hi Hnd Hc. destruct (removeTask_Ok p i h Hi) as (removed & Hn & ->).
  eexists. eexists. split; [reflexivity|]. cbn [set_tasks tasks]. split.
  - rewrite map_map. cbn [set_dependencies id].
    unfold splice1. rewrite map_app.
    rewrite <- (firstn_skipn (Z.to_nat i) (tasks p)) in Hnd.
    rewrite map_app in Hnd.
    assert (Hs : skipn (Z.to_nat i) (tasks p)
                 = removed :: skipn (S (Z.to_nat i)) (tasks p)).
    { clear - Hn. revert Hn. generalize (Z.to_nat i) as n.
      induction (tasks p) as [|a l IH]; intros [|n] Hn; simpl in *;
        try discriminate.
      - inversion Hn. reflexivity.
      - apply IH. assumption. }
    rewrite Hs in Hnd. simpl in Hnd. apply NoDup_remove_1 in Hnd. exact Hnd.
  - unfold detectCircularDependencies.
    rewrite (detect_acyclic String.eqb String.eqb_spec); [reflexivity|].
    intros a R.
    assert (Ha : acyclic (graph_of (tasks p))).
    { apply (detect_complete String.eqb String.eqb_spec).
      - rewrite graph_of_ids. assumption.
      - unfold detectCircularDependencies in Hc.
        destruct (Validator.detect String.eqb (graph_of (tasks p)))
          as [edges|]; [|discriminate].
        simpl in Hc. inversion Hc as [Hm].
        apply map_edge_label_nil in Hm. subst. reflexivity. }
    apply (Ha a). eapply reaches_mono; [|exact R].
    intros x y. apply scrub_edge.
Qed.

Lemma removeTask_keeps_acyclic_witness :
  exists p' h',
    removeTask (sample_plan pending pending) 0 sample_host = (Ok p', h') /\
    NoDup (map id (tasks p')) /\
    detectCircularDependencies (tasks p') = Some [].
Proof.
  apply (removeTask_keeps_acyclic (sample_plan pending pending) 0 sample_host).
  - simpl. lia.
  - simpl. repeat constructor; simpl; intuition discriminate.
  - reflexivity.
Defined.

(** ** Progress *)

Lemma In_getExecutableTasks :
  forall p t,
    In t (getExecutableTasks p) <->
    In t (tasks p) /\ status t = pending /\ dependencies_met p t.
Proof.
  intros p t. unfold getExecutableTasks. rewrite filter_In, andb_true_iff.
  rewrite canExecuteTask_spec.
  destruct (TaskStatus_eqb_spec (status t) pending); split;
    intros H; intuition congruence.
Qed.

Lemma first_pending :
  forall l : list Task,
    (exists t, In t l /\ status t = pending) ->
    exists l1 t l2,
      l = l1 ++ t :: l2 /\ status t = pending /\
      forall u, In u l1 -> status u <> pending.
Proof.
  induction l as [|a l IH]; intros (t & Ht & Hs); [destruct Ht|].
  destruct (TaskStatus_eqb_spec (status a) pending) as [Ha|Ha].
  - exists [], a, l. split; [reflexivity|]. split; [assumption|].
    intros u [].
  - destruct IH as (l1 & u & l2 & -> & Hu & Hl1).
    + destruct Ht as [->|Ht]; [contradiction|]. exists t. auto.
    + exists (a :: l1), u, l2. split; [reflexivity|]. split; [assumption|].
      intros v [<-|Hv]; [assumption|apply Hl1; assumption].
Qed.

Lemma detect_nil_acyclic :
  forall ts,
    NoDup (map id ts) ->
    detectCircularDependencies ts = Some [] -> acyclic (graph_of ts).
Proof.
  intros ts Hnd Hc.
  apply (detect_complete String.eqb String.eqb_spec).
  - rewrite graph_of_ids. assumption.
  - unfold detectCircularDependencies in Hc.
    destruct (Validator.detect String.eqb (graph_of ts)) as [edges|];
      [|discriminate].
    simpl in Hc. inversion Hc as [Hm].
    apply map_edge_label_nil in Hm. subst. reflexivity.
Qed.

(** X9: in a plan with distinct ids, for which
    [detectCircularDependencies] and [findInvalidDependencies] report
    nothing, whose tasks are all pending or completed and one at least is
    pending, [getExecutableTasks] returns at least one task. *)
Theorem pending_work_is_never_blocked :
  forall (p : Plan),
    NoDup (map id (tasks p)) ->
    detectCircularDependencies (tasks p) = Some [] ->
    findInvalidDependencies (tasks p) = [] ->
    (forall t, In t (tasks p) -> status t = pending \/ status t = completed) ->
    (exists t, In t (tasks p) /\ status t = pending) ->
    exists t, In t (getExecutableTasks p).
Proof.
  intros p Hnd Hc Hv Hst (t0 & Ht0 & Hp0).
  pose proof (detect_nil_acyclic _ Hnd Hc) as Ha.
  destruct (topologicalSort_ordered (tasks p) Ha Hnd)
    as (sorted & _ & Hperm & Hord).
  destruct (first_pending sorted) as (l1 & t & l2 & E & Hp & Hl1).
  { exists t0. split; [|assumption].
    eapply Permutation_in; [apply Permutation_sym|]; eassumption. }
  assert (Ht : In t (tasks p)).
  { eapply Permutation_in; [eassumption|]. rewrite E. apply in_elt. }
  exists t. apply In_getExecutableTasks.
  split; [assumption|]. split; [assumption|].
  intros d Hd.
  destruct (proj1 (no_dangling_iff (tasks p)) Hv t d Ht Hd) as (u & Hu & Eu).
  exists u. split.
  - rewrite <- Eu. apply find_by_id_unique; assumption.
  - pose proof (Hord l1 t l2 E d u Hd Hu Eu) as Hin.
    destruct (Hst u Hu) as [F|Hdone]; [|assumption].
    exfalso. exact (Hl1 u Hin F).
Qed.

Lemma pending_work_is_never_blocked_witness :
  exists t, In t (getExecutableTasks (sample_plan completed pending)).
Proof.
  apply (pending_work_is_never_blocked (sample_plan completed pending)).
  - simpl. repeat constructor; simpl; intuition discriminate.
  - reflexivity.
  - reflexivity.
  - simpl. intros t [<-|[<-|[]]]; simpl; auto.
  - eexists. split; [right; left; reflexivity|reflexivity].
Defined.

(** ** Completing a task *)

Lemma find_by_id_update_first :
  forall ts k s d,
    find_by_id (update_first k s ts) d
    = if String.eqb k d
      then option_map (fun t => set_status t s) (find_by_id ts k)
      else find_by_id ts d.
Proof.
  unfold find_by_id. induction ts as [|a ts IH]; intros k s d; simpl.
  - destruct (String.eqb k d); reflexivity.
  - destruct (String.eqb_spec (id a) k) as [Ea|Ea]; simpl.
    + destruct (String.eqb_spec k d) as [Ed|Ed].
      * rewrite Ea, Ed, String.eqb_refl. reflexivity.
      * destruct (String.eqb_spec (id a) d); [congruence|reflexivity].
    + destruct (String.eqb_spec (id a) d) as [Ed|Ed].
      * destruct (String.eqb_spec k d); [congruence|reflexivity].
      * apply IH.
Qed.

Lemma In_update_first_other :
  forall ts k s u, In u ts -> id u <> k -> In u (update_first k s ts).
Proof.
  induction ts as [|a ts IH]; intros k s u Hu Hne; [destruct Hu|].
  simpl. destruct (String.eqb_spec (id a) k) as [E|E].
  - destruct Hu as [->|Hu]; [contradiction|]. right. assumption.
  - destruct Hu as [->|Hu]; [left; reflexivity|]. right. apply IH; assumption.
Qed.

(** X10: a task that [getExecutableTasks] returns is still returned after
    [updateTaskStatus] has set another id to completed. *)
Theorem completing_a_task_blocks_no_other :
  forall (p : Plan) (taskId : string) (h : Host) (u : Task),
    In u (getExecutableTasks p) -> id u <> taskId ->
    exists p' h',
      updateTaskStatus p taskId completed h = (Ok p', h') /\
      In u (getExecutableTasks p').
Proof.
  intros p taskId h u Hu Hne. unfold updateTaskStatus.
  destruct (find_by_id (tasks p) taskId) as [t|] eqn:Ef.
  - eexists. eexists. split; [reflexivity|].
    apply In_getExecutableTasks in Hu. destruct Hu as (Hin & Hp & Hmet).
    apply In_getExecutableTasks. cbn [set_tasks tasks].
    split; [apply In_update_first_other; assumption|].
    split; [assumption|]. intros d Hd. cbn [set_tasks tasks].
    rewrite find_by_id_update_first.
    destruct (String.eqb_spec taskId d) as [E|E].
    + rewrite Ef. simpl. eexists. split; reflexivity.
    + apply Hmet. assumption.
  - exists p, h. split; [reflexivity|assumption].
Qed.

Lemma completing_a_task_blocks_no_other_witness :
  exists p' h',
    updateTaskStatus (sample_plan pending pending) "B" completed sample_host
      = (Ok p', h') /\
    In (sample_task "A" [] pending) (getExecutableTasks p').
Proof.
  apply (completing_a_task_blocks_no_other (sample_plan pending pending) "B"
           sample_host (sample_task "A" [] pending)).
  - left. reflexivity.
  - discriminate.
Defined.

(** ** Adding a task *)

Lemma generateId_run :
  forall prefix h,
    exists h', generateId prefix h = (Ok (generated_id prefix h), h').
Proof. intros prefix h. eexists. reflexivity. Qed.

Lemma or_else_Ok :
  forall a (b : Js.value) h, exists v, or_else a (ret b) h = (Ok v, h).
Proof.
  intros a b h. unfold or_else. destruct a as [v|]; [|eexists; reflexivity].
  destruct (Js.truthy v); eexists; reflexivity.
Qed.

Lemma get_prop_object :
  forall props k h,
    get_prop (Js.VObj props) k h = (Ok (Js.obj_get k props), h).
Proof. reflexivity. Qed.

Lemma get_prop_cases :
  forall v k h,
    (v = Js.VNull /\ get_prop v k h = (Throw TypeError, h)) \/
    (v <> Js.VNull /\ get_prop v k h = (Ok (prop k v), h)).
Proof.
  intros v k h. destruct v; try (right; split; [discriminate|reflexivity]).
  left. split; reflexivity.
Qed.

(** X11: [addTask] never throws.  When the answer of the service is not
    JSON or is [null] it returns the plan as it was; otherwise it returns
    the plan with one more task at the end, whose status is pending and
    whose id is the generated one, whatever the answer holds. *)
Theorem addTask_appends_one_pending_task :
  forall (p : Plan) (taskDescription response : string) (h : Host),
    exists v h',
      addTask p taskDescription response h = (Ok v, h') /\
      (((Js.JSON_parse (response_text response) = None \/
         Js.JSON_parse (response_text response) = Some Js.VNull) /\
        v = Plan_toValue p) \/
       exists data o,
         Js.JSON_parse (response_text response) = Some data /\
         data <> Js.VNull /\
         tasks_of v = map Task_toValue (tasks p) ++ [o] /\
         prop "id" o = Some (Js.VStr (generated_id "task" h)) /\
         prop "status" o = Some (Js.VStr "pending")).
Proof.
  intros p taskDescription response h. unfold addTask, try_catch.
  destruct (Js.JSON_parse (response_text response)) as [data|].
  2:{ eexists. eexists. split; [reflexivity|]. left. auto. }
  destruct (generateId_run "task" h) as [h1 Eg].
  cbv [bind]. rewrite Eg. cbv beta iota.
  destruct (get_prop_cases data "title" h1) as [[-> ->]|[Hnn ->]].
  { eexists. eexists. split; [reflexivity|]. left. auto. }
  cbv beta iota.
  destruct (or_else_Ok (prop "title" data) (Js.VStr "New Task") h1)
    as [t' ->]. cbv beta iota.
  destruct (get_prop_cases data "description" h1) as [[F _]|[_ ->]];
    [contradiction|]. cbv beta iota.
  destruct (or_else_Ok (prop "description" data) (Js.VStr taskDescription) h1)
    as [d' ->]. cbv beta iota.
  destruct (get_prop_cases data "files" h1) as [[F _]|[_ ->]];
    [contradiction|]. cbv beta iota.
  destruct (get_prop_cases data "dependencies" h1) as [[F _]|[_ ->]];
    [contradiction|]. cbv beta iota.
  destruct (get_prop_cases data "estimatedTime" h1) as [[F _]|[_ ->]];
    [contradiction|]. cbv beta iota.
  destruct (or_else_Ok (prop "estimatedTime" data) (Js.VStr "30 minutes") h1)
    as [e' ->]. cbv beta iota.
  destruct (get_prop_cases data "priority" h1) as [[F _]|[_ ->]];
    [contradiction|]. cbv beta iota zeta.
  eexists. eexists. split; [reflexivity|]. right.
  exists data. eexists. split; [reflexivity|]. split; [assumption|].
  split; [reflexivity|]. split; reflexivity.
Qed.

(** An answer that is a number is readable: a task with the default
    fields is added. *)
Example addTask_number_answer :
  exists v h',
    addTask (sample_plan pending pending) "Write the tests" "42" sample_host
      = (Ok v, h') /\
    map (prop "title") (tasks_of v)
      = [Some (Js.VStr "title"); Some (Js.VStr "title");
         Some (Js.VStr "New Task")] /\
    map (prop "id") (tasks_of v)
      = [Some (Js.VStr "A"); Some (Js.VStr "B");
         Some (Js.VStr "task-1000-r0")].
Proof. eexists. eexists. vm_compute. repeat split. Qed.

(** X12: when the answer of the service is not JSON, [modifyTask] (at any
    index) and [addTask] return the plan with every field unchanged,
    [updated] included.  No id is generated: the random source is not
    read, and the clock is read only for the entry of the error log, once,
    and not at all when the index given to [modifyTask] is out of range. *)
Theorem unreadable_answer_changes_nothing :
  forall (p : Plan) (i : Z) (taskDescription response : string) (h : Host),
    Js.JSON_parse (response_text response) = None ->
    exists h1 h2,
      modifyTask p i response h = (Ok (Plan_toValue p), h1) /\
      addTask p taskDescription response h = (Ok (Plan_toValue p), h2) /\
      random_reads h1 = random_reads h /\
      random_reads h2 = random_reads h /\
      clock_reads h1
      = (if in_range i p then S (clock_reads h) else clock_reads h) /\
      clock_reads h2 = S (clock_reads h).
Proof.
  intros p i taskDescription response h H.
  unfold modifyTask, addTask, try_catch. rewrite H.
  destruct (in_range i p); eexists; eexists;
    repeat (split; [reflexivity|]); reflexivity.
Qed.

Lemma unreadable_answer_changes_nothing_witness :
  exists h1 h2,
    modifyTask (sample_plan pending pending) 0 "" sample_host
      = (Ok (Plan_toValue (sample_plan pending pending)), h1) /\
    addTask (sample_plan pending pending) "Write the tests" "" sample_host
      = (Ok (Plan_toValue (sample_plan pending pending)), h2) /\
    random_reads h1 = random_reads sample_host /\
    random_reads h2 = random_reads sample_host /\
    clock_reads h1
    = (if in_range 0 (sample_plan pending pending)
       then S (clock_reads sample_host) else clock_reads sample_host) /\
    clock_reads h2 = S (clock_reads sample_host).
Proof.
  apply (unreadable_answer_changes_nothing (sample_plan pending pending) 0
           "Write the tests" "" sample_host).
  reflexivity.
Defined.

(** ** What the builder guarantees *)

Lemma or_else_truthy :
  forall a (b : M Js.value) h v h',
    (forall h0 v0 h1, b h0 = (Ok v0, h1) -> Js.truthy v0 = true) ->
    or_else a b h = (Ok v, h') -> Js.truthy v = true.
Proof.
  intros a b h v h' Hb H. unfold or_else in H.
  destruct a as [x|]; [|eapply Hb; eassumption].
  destruct (Js.truthy x) eqn:E; [|eapply Hb; eassumption].
  inversion H; subst. assumption.
Qed.

Lemma clamp_priority_in :
  forall a, In (clamp_priority a) ["low"; "medium"; "high"].
Proof.
  intros a. unfold clamp_priority.
  destruct a as [[]|]; try (simpl; tauto).
  destruct (String.eqb_spec s "low") as [->|_]; [simpl; tauto|].
  destruct (String.eqb_spec s "medium") as [->|_]; [simpl; tauto|].
  destruct (String.eqb_spec s "high") as [->|_]; simpl; tauto.
Qed.

Lemma processTask_built :
  forall taskData index h t h',
    processTask taskData index h = (Ok t, h') ->
    Js.truthy (Built.id t) = true.
Proof.
  intros taskData index h t h' H. unfold processTask in H.
  bind_inv H. bind_inv H.
  assert (Hid : Js.truthy a0 = true).
  { eapply or_else_truthy; [|exact Hc0].
    intros hx vx hy E. bind_inv E. inversion E; subst.
    unfold generateId in Hc1. bind_inv Hc1. bind_inv Hc1.
    inversion Hc1; subst. reflexivity. }
  do 10 bind_inv H. inversion H; subst. exact Hid.
Qed.

Lemma toValue_well_formed :
  forall t, Js.truthy (Built.id t) = true ->
    In (Built.priority t) ["low"; "medium"; "high"] ->
    well_formed_task (Built.toValue t).
Proof.
  intros t Hid Hp. unfold well_formed_task, Built.toValue, prop. simpl.
  split; [reflexivity|]. split; [eauto|]. split; [eauto|]. split; eauto.
Qed.

Lemma processTask_priority :
  forall taskData index h t h',
    processTask taskData index h = (Ok t, h') ->
    In (Built.priority t) ["low"; "medium"; "high"].
Proof.
  intros taskData index h t h' H. unfold processTask in H.
  do 12 bind_inv H. inversion H; subst. cbn [Built.priority].
  apply clamp_priority_in.
Qed.

Lemma processTasks_well_formed :
  forall tasksData index h ts h',
    processTasks_from index tasksData h = (Ok ts, h') ->
    Forall well_formed_task (map Built.toValue ts).
Proof.
  induction tasksData as [|d tasksData IH]; intros index h ts h' H.
  - inversion H. constructor.
  - cbn [processTasks_from] in H. bind_inv H. bind_inv H.
    inversion H; subst. simpl. constructor.
    + apply toValue_well_formed.
      * eapply processTask_built. eassumption.
      * eapply processTask_priority. eassumption.
    + eapply IH. eassumption.
Qed.

Lemma fallback_well_formed :
  forall requirements h p h',
    createFallbackPlan requirements h = (Ok p, h') ->
    prop "status" (Plan_toValue p) = Some (Js.VStr "draft") /\
    Forall well_formed_task (tasks_of (Plan_toValue p)).
Proof.
  intros requirements h p h' H. unfold createFallbackPlan in H.
  inversion H; subst. split; [reflexivity|].
  cbn. constructor; [|constructor].
  unfold well_formed_task, prop. simpl.
  split; [reflexivity|]. split; [eexists; split; reflexivity|].
  split; [exists "high"; simpl; tauto|]. split; eexists; reflexivity.
Qed.

Lemma parsePlanResponse_well_formed :
  forall (planResponse requirements : string) (h : Host),
    exists v h',
      parsePlanResponse planResponse requirements h = (Ok v, h') /\
      prop "status" v = Some (Js.VStr "draft") /\
      Forall well_formed_task (tasks_of v).
Proof.
  intros planResponse requirements h.
  unfold parsePlanResponse, try_catch.
  destruct (parsePlanResponse_try planResponse requirements h)
    as [[v|e] h1] eqn:E.
  - exists v, h1. split; [reflexivity|].
    unfold parsePlanResponse_try in E.
    destruct (Js.truthy (extractJsonFromResponse planResponse));
      [|discriminate].
    cbn [negb] in E. do 8 bind_inv E.
    apply processTasks_well_formed in Hc6.
    do 3 bind_inv E. inversion E; subst.
    split; [reflexivity|]. exact Hc6.
  - destruct (createFallbackPlan requirements h1) as [[p|e'] h2] eqn:F.
    + exists (Plan_toValue p), h2. cbv [bind]. rewrite F.
      split; [reflexivity|]. eapply fallback_well_formed. eassumption.
    + unfold createFallbackPlan in F. discriminate.
Qed.

(** X13: every task of a plan that [importPlan] returns is pending, has a
    truthy id, a priority among low, medium and high, and arrays for
    [files] and [dependencies], whatever the imported text said. *)
Theorem importPlan_resets_tasks :
  forall (planJson : string) (h : Host) (v : Js.value) (h' : Host),
    importPlan planJson h = (Ok v, h') ->
    Forall well_formed_task (tasks_of v).
Proof.
  intros planJson h v h' H. unfold importPlan, try_catch in H.
  destruct (importPlan_try planJson h) as [[v0|e] h1] eqn:E;
    [|discriminate].
  inversion H; subst. unfold importPlan_try in E.
  destruct (Js.JSON_parse planJson) as [planData|]; [|discriminate].
  do 9 bind_inv E. apply processTasks_well_formed in Hc7.
  do 6 bind_inv E. inversion E; subst. exact Hc7.
Qed.

Lemma importPlan_resets_tasks_witness :
  exists v h',
    importPlan (exportPlan sample_host stale_plan) sample_host = (Ok v, h') /\
    Forall well_formed_task (tasks_of v).
Proof.
  destruct (importPlan (exportPlan sample_host stale_plan) sample_host)
    as [[v|e] h'] eqn:E; [|vm_compute in E; discriminate].
  exists v, h'. split; [reflexivity|].
  exact (importPlan_resets_tasks _ _ _ _ E).
Defined.

(** ** Finding the payload in an answer *)

Local Open Scope string_scope.

Module ExtractFacts.
Import Js RoundTrip RoundTripFacts.
Local Open Scope string_scope.

Lemma from_open_skip :
  forall pre r,
    occurs "{" pre = false ->
    from_open (pre ++ String "{" r) = Some r.
Proof.
  induction pre as [|c pre IH]; intros r H; [reflexivity|].
  simpl in *. apply orb_false_iff in H. destruct H as [-> H]. auto.
Qed.

Lemma upto_close_none :
  forall s, occurs "}" s = false -> upto_close s = None.
Proof.
  induction s as [|c s IH]; intros H; [reflexivity|].
  simpl in *. apply orb_false_iff in H. destruct H as [-> H].
  rewrite IH by assumption. reflexivity.
Qed.

Lemma upto_close_last :
  forall a post,
    occurs "}" post = false ->
    upto_close (a ++ String "}" post) = Some (a ++ "}").
Proof.
  induction a as [|c a IH]; intros post H.
  - simpl. rewrite upto_close_none by assumption. reflexivity.
  - simpl. rewrite IH by assumption. reflexivity.
Qed.

Lemma match_braces_framed :
  forall pre mid post,
    occurs "{" pre = false -> occurs "}" post = false ->
    match_braces (pre ++ String "{" (mid ++ "}") ++ post)
    = Some (String "{" (mid ++ "}")).
Proof.
  intros pre mid post Hpre Hpost. unfold match_braces.
  change (String "{" (mid ++ "}") ++ post)
    with (String "{" ((mid ++ "}") ++ post)).
  rewrite from_open_skip by assumption.
  rewrite append_assoc. simpl.
  rewrite upto_close_last by assumption. reflexivity.
Qed.

Lemma ends_app :
  forall x y, (exists m, y = m ++ "}") -> exists m, x ++ y = m ++ "}".
Proof.
  intros x y [m ->]. exists (x ++ m). rewrite append_assoc. reflexivity.
Qed.

Lemma reassoc :
  forall a b c d : string,
    (a ++ "}" ++ b ++ String "{" c) ++ d
    = (a ++ "}") ++ b ++ String "{" (c ++ d).
Proof. intros. rewrite !append_assoc. simpl. f_equal. Qed.

Lemma match_braces_whole :
  forall mid,
    match_braces (String "{" (mid ++ "}")) = Some (String "{" (mid ++ "}")).
Proof.
  intros mid.
  pose proof (match_braces_framed "" mid "" eq_refl eq_refl) as H.
  simpl in H. rewrite append_nil_r in H. exact H.
Qed.

(** The text of an object starts with an opening brace and ends with a
    closing one. *)
Lemma print_obj_shape :
  forall iso props,
    exists mid, print iso "" (VObj props) = String "{" (mid ++ "}").
Proof.
  intros iso [|kv xs].
  - exists "". reflexivity.
  - rewrite print_obj.
    match goal with
    | |- exists mid, "{" ++ ?t = _ =>
        assert (H : exists m, t = m ++ "}")
    end.
    { do 7 apply ends_app. exists "". reflexivity. }
    destruct H as [m ->]. exists m. reflexivity.
Qed.

Lemma skip_ws_nonblank :
  forall a c r, is_ws c = false -> skip_ws (a ++ String c r) <> "".
Proof.
  induction a as [|x a IH]; intros c r H.
  - simpl. rewrite H. discriminate.
  - simpl. destruct (is_ws x); [apply IH; assumption|discriminate].
Qed.

Lemma JSON_parse_trailing :
  forall iso v c rest,
    plain v -> is_ws c = false ->
    forall sep, JSON_parse (print iso "" v ++ sep ++ String c rest) = None.
Proof.
  intros iso v c rest Hp Hc sep. unfold JSON_parse.
  rewrite (parse_print iso v Hp "" _ (sep ++ String c rest) blank_nil).
  - pose proof (skip_ws_nonblank sep c rest Hc) as H.
    destruct (skip_ws (sep ++ String c rest)); [congruence|reflexivity].
  - pose proof (weight_le_length iso v Hp "") as H.
    rewrite length_append. lia.
Qed.
End ExtractFacts.

(** X14: when the answer holds the text of an object, preceded by text
    without an opening brace and followed by text without a closing brace,
    [extractJsonFromResponse] returns that object. *)
Theorem extractJsonFromResponse_finds_the_object :
  forall (iso : Z -> string) (props : list (string * Js.value))
         (pre post : string),
    RoundTrip.plain (Js.VObj props) ->
    occurs "{" pre = false -> occurs "}" post = false ->
    extractJsonFromResponse
      (pre ++ Js.JSON_stringify iso (Js.VObj props) ++ post)
    = RoundTrip.to_json iso (Js.VObj props).
Proof.
  intros iso props pre post Hp Hpre Hpost. unfold extractJsonFromResponse.
  pose proof (RoundTripFacts.JSON_parse_stringify iso _ Hp) as Hj.
  unfold Js.JSON_stringify in *.
  destruct (ExtractFacts.print_obj_shape iso props) as [mid E].
  rewrite E in *.
  rewrite (ExtractFacts.match_braces_framed pre mid post Hpre Hpost).
  rewrite Hj. reflexivity.
Qed.

Lemma extractJsonFromResponse_finds_the_object_witness :
  extractJsonFromResponse
    ("Here is the plan: " ++
     Js.JSON_stringify Js.string_of_Z
       (Js.VObj [("title", Js.VStr "Plan"); ("tasks", Js.VArr [])]) ++
     " Good luck!")
  = RoundTrip.to_json Js.string_of_Z
      (Js.VObj [("title", Js.VStr "Plan"); ("tasks", Js.VArr [])]).
Proof.
  apply (extractJsonFromResponse_finds_the_object Js.string_of_Z
           [("title", Js.VStr "Plan"); ("tasks", Js.VArr [])]
           "Here is the plan: " " Good luck!").
  - constructor.
    + simpl. repeat constructor; simpl; intuition discriminate.
    + repeat constructor.
  - reflexivity.
  - reflexivity.
Defined.

(** X15: on an answer made of two objects as [JSON.stringify] prints them
    with an indent of two, the first with distinct keys and no number in
    it, whatever stands between them, [extractJsonFromResponse] returns
    [null], and [parsePlanResponse] returns the fallback plan with its
    single task. *)
Theorem extractJsonFromResponse_rejects_two_objects :
  forall (iso : Z -> string) (props1 props2 : list (string * Js.value))
         (sep requirements : string) (h : Host),
    RoundTrip.plain (Js.VObj props1) ->
    extractJsonFromResponse
      (Js.JSON_stringify iso (Js.VObj props1) ++ sep ++
       Js.JSON_stringify iso (Js.VObj props2)) = Js.VNull /\
    exists v h',
      parsePlanResponse
        (Js.JSON_stringify iso (Js.VObj props1) ++ sep ++
         Js.JSON_stringify iso (Js.VObj props2)) requirements h = (Ok v, h') /\
      prop "title" v = Some (Js.VStr "Manual Implementation Plan") /\
      length (tasks_of v) = 1.
Proof.
  intros iso props1 props2 sep requirements h Hp.
  assert (He : extractJsonFromResponse
                 (Js.JSON_stringify iso (Js.VObj props1) ++ sep ++
                  Js.JSON_stringify iso (Js.VObj props2)) = Js.VNull).
  { unfold extractJsonFromResponse, Js.JSON_stringify.
    destruct (ExtractFacts.print_obj_shape iso props1) as [m1 E1].
    destruct (ExtractFacts.print_obj_shape iso props2) as [m2 E2].
    assert (Hm : Js.match_braces
                   (Js.print iso "" (Js.VObj props1) ++ sep ++
                    Js.print iso "" (Js.VObj props2))
                 = Some (Js.print iso "" (Js.VObj props1) ++ sep ++
                         Js.print iso "" (Js.VObj props2))).
    { rewrite E1, E2.
      replace (String "{" (m1 ++ "}") ++ sep ++ String "{" (m2 ++ "}"))
        with (String "{" ((m1 ++ "}" ++ sep ++ String "{" m2) ++ "}")).
      - apply ExtractFacts.match_braces_whole.
      - simpl. f_equal. apply ExtractFacts.reassoc. }
    rewrite Hm. rewrite E2.
    rewrite (ExtractFacts.JSON_parse_trailing iso _ "{" (m2 ++ "}") Hp
               eq_refl sep).
    reflexivity. }
  split; [exact He|].
  unfold parsePlanResponse, try_catch, parsePlanResponse_try.
  rewrite He. simpl. eexists. eexists. split; [reflexivity|].
  split; reflexivity.
Qed.

Lemma extractJsonFromResponse_rejects_two_objects_witness :
  extractJsonFromResponse
    (Js.JSON_stringify Js.string_of_Z (Js.VObj []) ++ " or " ++
     Js.JSON_stringify Js.string_of_Z (Js.VObj [])) = Js.VNull /\
  exists v h',
    parsePlanResponse
      (Js.JSON_stringify Js.string_of_Z (Js.VObj []) ++ " or " ++
       Js.JSON_stringify Js.string_of_Z (Js.VObj []))
      "Build a web app" sample_host = (Ok v, h') /\
    prop "title" v = Some (Js.VStr "Manual Implementation Plan") /\
    length (tasks_of v) = 1.
Proof.
  apply (extractJsonFromResponse_rejects_two_objects Js.string_of_Z [] []
           " or " "Build a web app" sample_host).
  constructor; constructor.
Defined.

(** ** File paths *)

Lemma string_pair_ind :
  forall P : string -> Prop,
    P "" -> (forall c, P (String c "")) ->
    (forall c c' r, P r -> P (String c' r) -> P (String c (String c' r))) ->
    forall s, P s.
Proof.
  intros P H0 H1 H2 s.
  assert (H : P s /\ forall c, P (String c s)).
  { induction s as [|a s [IH1 IH2]]; [split; auto|].
    split; [apply IH2|]. intros c. apply H2; [assumption|apply IH2]. }
  exact (proj1 H).
Qed.

Lemma strip_dotdot_front :
  forall s, starts_with_dot s = false ->
    starts_with_dot (strip_dotdot s) = false.
Proof.
  intros [|c [|c' r]] H; simpl in *; try assumption.
  rewrite H. simpl. assumption.
Qed.

Lemma has_dotdot_cons :
  forall c s,
    has_dotdot (String c s)
    = (Ascii.eqb c "." && starts_with_dot s) || has_dotdot s.
Proof.
  intros c [|c' r]; simpl; [rewrite andb_false_r|]; reflexivity.
Qed.

Lemma strip_dotdot_clean : forall s, has_dotdot (strip_dotdot s) = false.
Proof.
  apply string_pair_ind; try reflexivity.
  intros c c' r IH1 IH2.
  change (strip_dotdot (String c (String c' r)))
    with (if Ascii.eqb c "." && Ascii.eqb c' "." then strip_dotdot r
          else String c (strip_dotdot (String c' r))).
  destruct (Ascii.eqb c "." && Ascii.eqb c' ".") eqn:E; [assumption|].
  rewrite has_dotdot_cons, IH2, orb_false_r.
  destruct (Ascii.eqb c ".") eqn:Ec; [|reflexivity]. cbn [andb] in E |- *.
  apply strip_dotdot_front. exact E.
Qed.

Lemma has_dotdot_spec :
  forall a b, has_dotdot (a ++ ".." ++ b) = true.
Proof.
  induction a as [|c a IH]; intros b.
  - destruct b; reflexivity.
  - change (String c a ++ ".." ++ b) with (String c (a ++ ".." ++ b)).
    rewrite has_dotdot_cons, IH. apply orb_true_r.
Qed.

Lemma strip_dotdot_id :
  forall s, has_dotdot s = false -> strip_dotdot s = s.
Proof.
  apply (string_pair_ind (fun s => has_dotdot s = false -> strip_dotdot s = s));
    try reflexivity.
  intros c c' r IH1 IH2 H.
  change (has_dotdot (String c (String c' r)))
    with ((Ascii.eqb c "." && Ascii.eqb c' ".") || has_dotdot (String c' r))
    in H.
  apply orb_false_iff in H. destruct H as [E H].
  change (strip_dotdot (String c (String c' r)))
    with (if Ascii.eqb c "." && Ascii.eqb c' "." then strip_dotdot r
          else String c (strip_dotdot (String c' r))).
  rewrite E, IH2 by assumption. reflexivity.
Qed.

Lemma strip_forbidden_allowed : forall s, all_allowed (strip_forbidden s) = true.
Proof.
  induction s as [|c s IH]; [reflexivity|]. simpl.
  destruct (is_forbidden c) eqn:E; [assumption|]. simpl. rewrite E, IH.
  reflexivity.
Qed.

Lemma strip_dotdot_allowed :
  forall s, all_allowed s = true -> all_allowed (strip_dotdot s) = true.
Proof.
  apply (string_pair_ind
           (fun s => all_allowed s = true -> all_allowed (strip_dotdot s) = true));
    try (intros; assumption).
  intros c c' r IH1 IH2 H.
  change (strip_dotdot (String c (String c' r)))
    with (if Ascii.eqb c "." && Ascii.eqb c' "." then strip_dotdot r
          else String c (strip_dotdot (String c' r))).
  simpl in H. apply andb_true_iff in H. destruct H as [Hc H].
  destruct (Ascii.eqb c "." && Ascii.eqb c' ".").
  - apply IH1. apply andb_true_iff in H. tauto.
  - change (all_allowed (String c (strip_dotdot (String c' r))))
      with (negb (is_forbidden c) && all_allowed (strip_dotdot (String c' r))).
    rewrite Hc, IH2; [reflexivity|exact H].
Qed.

Lemma strip_forbidden_id :
  forall s, all_allowed s = true -> strip_forbidden s = s.
Proof.
  induction s as [|c s IH]; intros H; [reflexivity|]. simpl in *.
  apply andb_true_iff in H. destruct H as [Hc H].
  apply negb_true_iff in Hc. rewrite Hc, IH by assumption. reflexivity.
Qed.

Lemma all_allowed_spec :
  forall s a c b, all_allowed s = true -> s = a ++ String c b ->
    is_forbidden c = false.
Proof.
  intros s a. revert s. induction a as [|x a IH]; intros s c b H E; subst.
  - simpl in H. apply andb_true_iff in H. destruct H as [H _].
    apply negb_true_iff. assumption.
  - simpl in H. apply andb_true_iff in H. destruct H as [_ H].
    eapply IH; [exact H|reflexivity].
Qed.

(** X16: the result of [sanitizeFilePath] holds none of the seven
    characters it removes and no two dots in a row, and sanitizing it again
    changes nothing. *)
Theorem sanitizeFilePath_is_clean :
  forall (filePath : string),
    (forall a c b, sanitizeFilePath filePath = a ++ String c b ->
       is_forbidden c = false) /\
    (forall a b, sanitizeFilePath filePath <> a ++ ".." ++ b) /\
    sanitizeFilePath (sanitizeFilePath filePath) = sanitizeFilePath filePath.
Proof.
  intros filePath. unfold sanitizeFilePath.
  pose proof (strip_dotdot_allowed _ (strip_forbidden_allowed filePath)) as Ha.
  pose proof (strip_dotdot_clean (strip_forbidden filePath)) as Hd.
  split; [|split].
  - intros a c b E. eapply all_allowed_spec; eassumption.
  - intros a b E. rewrite E, has_dotdot_spec in Hd. discriminate.
  - rewrite (strip_forbidden_id _ Ha). apply strip_dotdot_id. assumption.
Qed.

Example sanitizeFilePath_samples :
  sanitizeFilePath "../../etc/passwd" = "//etc/passwd" /\
  sanitizeFilePath ".<.>/secret" = "/secret" /\
  sanitizeFilePath "src/a?.ts" = "src/a.ts" /\
  sanitizeFilePath ".../x" = "./x".
Proof. repeat split. Qed.

Local Open Scope list_scope.

(** ** Sorting by priority *)

Lemma compare_tasks_le :
  forall a b, (compare_tasks a b <= 0)%Z <-> ranks_before a b.
Proof.
  intros a b. unfold compare_tasks, ranks_before.
  destruct (priority a), (priority b); simpl; lia || (split; intros H;
    [ try lia; try (right; split; [reflexivity|lia]); try (left; lia)
    | destruct H as [H|[H1 H2]]; try lia; try discriminate ]).
Qed.

Lemma compare_tasks_total :
  forall a b, (compare_tasks a b <= 0)%Z \/ (compare_tasks b a <= 0)%Z.
Proof.
  intros a b. unfold compare_tasks.
  destruct (priority a), (priority b); simpl; lia.
Qed.

Lemma compare_tasks_trans :
  forall a b c,
    (compare_tasks a b <= 0)%Z -> (compare_tasks b c <= 0)%Z ->
    (compare_tasks a c <= 0)%Z.
Proof.
  intros a b c. unfold compare_tasks.
  destruct (priority a), (priority b), (priority c); simpl; lia.
Qed.

Lemma compare_tasks_same :
  forall x a b,
    (compare_tasks a b <= 0)%Z -> (compare_tasks b a <= 0)%Z ->
    same_rank x a = same_rank x b.
Proof.
  intros x a b. unfold same_rank, compare_tasks.
  destruct (priority a), (priority b), (priority x); simpl; intros H1 H2;
    try lia;
    destruct (Z.eqb_spec _ 0); destruct (Z.eqb_spec _ 0); try reflexivity; lia.
Qed.

Section StableSort.
Context {A : Type} (compare : A -> A -> Z).
Hypothesis total : forall a b, (compare a b <= 0)%Z \/ (compare b a <= 0)%Z.
Hypothesis trans :
  forall a b c, (compare a b <= 0)%Z -> (compare b c <= 0)%Z ->
                (compare a c <= 0)%Z.

Lemma insert_stable_perm :
  forall x l, Permutation (insert_stable compare x l) (x :: l).
Proof.
  intros x. induction l as [|y l IH]; simpl; [reflexivity|].
  destruct (compare x y <=? 0)%Z; [reflexivity|].
  rewrite IH. apply perm_swap.
Qed.

Lemma stable_sort_perm : forall l, Permutation (stable_sort compare l) l.
Proof.
  induction l as [|x l IH]; simpl; [reflexivity|].
  rewrite insert_stable_perm. constructor. assumption.
Qed.

Lemma insert_stable_sorted :
  forall x l,
    StronglySorted (fun a b => (compare a b <= 0)%Z) l ->
    StronglySorted (fun a b => (compare a b <= 0)%Z) (insert_stable compare x l).
Proof.
  intros x. induction l as [|y l IH]; intros H; simpl.
  - constructor; constructor.
  - inversion H as [|? ? Hl Hy]; subst.
    destruct (Z.leb_spec (compare x y) 0) as [Hle|Hgt].
    + constructor; [assumption|]. constructor; [assumption|].
      rewrite Forall_forall in *. intros z Hz. eapply trans; eauto.
    + constructor; [apply IH; assumption|].
      rewrite Forall_forall in *. intros z Hz.
      apply (Permutation_in _ (insert_stable_perm x l)) in Hz.
      destruct Hz as [<-|Hz]; [|auto].
      destruct (total y x); [assumption|lia].
Qed.

Lemma stable_sort_sorted :
  forall l,
    StronglySorted (fun a b => (compare a b <= 0)%Z) (stable_sort compare l).
Proof.
  induction l as [|x l IH]; simpl; [constructor|].
  apply insert_stable_sorted. assumption.
Qed.

(** Stability: among the elements a test selects, when the test does not
    tell apart elements that compare as equal, those that compare as equal
    to the inserted one stay behind it. *)
Lemma insert_stable_filter :
  forall (keep : A -> bool) x l,
    StronglySorted (fun a b => (compare a b <= 0)%Z) l ->
    (forall y, In y l -> keep x = true -> keep y = true ->
       (compare x y <= 0)%Z) ->
    filter keep (insert_stable compare x l) = filter keep (x :: l).
Proof.
  intros keep x. induction l as [|y l IH]; intros Hs Hk; [reflexivity|].
  simpl. destruct (Z.leb_spec (compare x y) 0) as [Hle|Hgt]; [reflexivity|].
  inversion Hs as [|? ? Hl Hy]; subst.
  cbn [filter]. rewrite IH; [|assumption|intros z Hz; apply Hk; right; assumption].
  cbn [filter].
  destruct (keep x) eqn:Ex; [|reflexivity].
  destruct (keep y) eqn:Ey; [|reflexivity].
  pose proof (Hk y (or_introl eq_refl) eq_refl Ey). lia.
Qed.
End StableSort.

(** X17: [sortTasksByPriority] returns a permutation of the tasks in which
    a task comes before the tasks of lower priority and, within a
    priority, before the tasks with more dependencies; the tasks the
    comparator does not tell apart keep their order. *)
Theorem sortTasksByPriority_sorts :
  forall (ts : list Task),
    Permutation (sortTasksByPriority ts) ts /\
    StronglySorted ranks_before (sortTasksByPriority ts) /\
    forall x, filter (same_rank x) (sortTasksByPriority ts)
              = filter (same_rank x) ts.
Proof.
  intros ts. unfold sortTasksByPriority. split; [|split].
  - apply stable_sort_perm.
  - pose proof (stable_sort_sorted compare_tasks compare_tasks_total
                  compare_tasks_trans ts) as H.
    induction H as [|a l Hl IH Ha]; constructor; [assumption|].
    rewrite Forall_forall in *. intros b Hb. apply compare_tasks_le. auto.
  - intros x. induction ts as [|t ts IH]; [reflexivity|].
    cbn [stable_sort fold_right].
    rewrite (insert_stable_filter compare_tasks).
    + cbn [filter]. fold (stable_sort compare_tasks ts). rewrite IH.
      reflexivity.
    + apply stable_sort_sorted;
        [apply compare_tasks_total|apply compare_tasks_trans].
    + intros y _ Ht Hy. unfold same_rank in *.
      apply Z.eqb_eq in Ht, Hy. revert Ht Hy. unfold compare_tasks.
      destruct (priority x), (priority t), (priority y); simpl; lia.
Qed.

Example sortTasksByPriority_sample :
  map id (sortTasksByPriority
            [ mkTask "a" "" "" [] ["x"] pending "" low None;
              mkTask "b" "" "" [] ["x"; "y"] pending "" high None;
              mkTask "c" "" "" [] [] pending "" high None;
              mkTask "d" "" "" [] ["z"] pending "" low None ])
  = ["c"; "b"; "a"; "d"].
Proof. reflexivity. Qed.

(** ** Running the sorted tasks *)

Lemma update_first_ids :
  forall k s ts, map id (update_first k s ts) = map id ts.
Proof.
  induction ts as [|a ts IH]; [reflexivity|]. simpl.
  destruct (String.eqb (id a) k); simpl; [reflexivity|].
  rewrite IH. reflexivity.
Qed.

Lemma mark_ids :
  forall k s ts, map id (TracerLite.mark k s ts) = map id ts.
Proof.
  intros k s ts. unfold TracerLite.mark.
  rewrite map_rev, update_first_ids, map_rev, rev_involutive. reflexivity.
Qed.

Lemma In_update_first :
  forall k s ts u,
    In u (update_first k s ts) ->
    In u ts \/ exists t, In t ts /\ id t = k /\ u = set_status t s.
Proof.
  induction ts as [|a ts IH]; intros u Hu; [destruct Hu|].
  simpl in Hu. destruct (String.eqb_spec (id a) k) as [E|E].
  - destruct Hu as [<-|Hu]; [|left; right; assumption].
    right. exists a. split; [left; reflexivity|]. auto.
  - destruct Hu as [<-|Hu]; [left; left; reflexivity|].
    destruct (IH u Hu) as [Hin|(t & Ht & Hid & Hs)]; [left; right; assumption|].
    right. exists t. split; [right; assumption|]. auto.
Qed.

Lemma In_mark :
  forall k s ts u,
    In u (TracerLite.mark k s ts) ->
    In u ts \/ exists t, In t ts /\ id t = k /\ u = set_status t s.
Proof.
  intros k s ts u Hu. unfold TracerLite.mark in Hu. apply in_rev in Hu.
  destruct (In_update_first _ _ _ _ Hu) as [Hin|(t & Ht & Hid & Hs)].
  - left. apply in_rev. assumption.
  - right. exists t. split; [apply in_rev; assumption|]. auto.
Qed.

(** With distinct ids, marking [k] leaves no task with id [k] in another
    status. *)
Lemma update_first_status :
  forall k s ts u,
    NoDup (map id ts) -> In u (update_first k s ts) -> id u = k ->
    status u = s.
Proof.
  induction ts as [|a ts IH]; intros u Hnd Hu Hid; [destruct Hu|].
  simpl in Hu, Hnd. inversion Hnd as [|? ? Ha Hnd']; subst.
  destruct (String.eqb_spec (id a) (id u)) as [E|E].
  - destruct Hu as [<-|Hu]; [reflexivity|].
    exfalso. apply Ha. rewrite E. apply in_map. assumption.
  - destruct Hu as [<-|Hu]; [congruence|]. apply IH; auto.
Qed.

Lemma mark_status :
  forall k s ts u,
    NoDup (map id ts) -> In u (TracerLite.mark k s ts) -> id u = k ->
    status u = s.
Proof.
  intros k s ts u Hnd Hu Hid. unfold TracerLite.mark in Hu. apply in_rev in Hu.
  eapply update_first_status; [|eassumption|assumption].
  rewrite map_rev. apply NoDup_rev. assumption.
Qed.

Lemma mark_other :
  forall k s ts u,
    In u (TracerLite.mark k s ts) -> id u <> k -> In u ts.
Proof.
  intros k s ts u Hu Hne.
  destruct (In_mark _ _ _ _ Hu) as [Hin|(t & _ & Hid & ->)]; [assumption|].
  simpl in Hne. contradiction.
Qed.

(** When every attempt succeeds, the tasks whose ids were run are
    completed and the others are as they were. *)
Lemma run_all_succeed :
  forall attempts continues,
    (forall n, snd (TracerLite.executeTaskWithGemini (attempts n)) = true) ->
    forall sorted n store u,
      NoDup (map id store) ->
      In u (TracerLite.run attempts continues sorted n store) ->
      (In (id u) (map id sorted) /\ status u = completed) \/
      (~ In (id u) (map id sorted) /\ In u store).
Proof.
  intros attempts continues Hok.
  induction sorted as [|t sorted IH]; intros n store u Hnd Hu.
  - right. split; [intros []|assumption].
  - cbn [TracerLite.run] in Hu. specialize (Hok n).
    destruct (TracerLite.executeTaskWithGemini (attempts n)) as [s success].
    simpl in Hok. subst success.
    set (store' := TracerLite.mark (id t) completed
                     (TracerLite.mark (id t) s
                        (TracerLite.mark (id t) in_progress store))) in Hu.
    assert (Hnd' : NoDup (map id store')).
    { unfold store'. rewrite !mark_ids. assumption. }
    destruct (IH (S n) store' u Hnd' Hu) as [[Hin Hs]|[Hnin Hin]].
    + left. split; [right; assumption|assumption].
    + destruct (String.eqb_spec (id u) (id t)) as [E|E].
      * left. split; [left; symmetry; assumption|].
        eapply mark_status; [|exact Hin|assumption].
        rewrite !mark_ids. assumption.
      * right. split; [intros [F|F]; [congruence|contradiction]|].
        unfold store' in Hin.
        do 3 (apply mark_other in Hin; [|assumption]). assumption.
Qed.

Lemma run_ids :
  forall attempts continues sorted n store,
    map id (TracerLite.run attempts continues sorted n store) = map id store.
Proof.
  intros attempts continues. induction sorted as [|t sorted IH];
    intros n store; [reflexivity|].
  cbn [TracerLite.run].
  destruct (TracerLite.executeTaskWithGemini (attempts n)) as [s [|]].
  - rewrite IH, !mark_ids. reflexivity.
  - destruct (continues n); [rewrite IH|]; rewrite !mark_ids; reflexivity.
Qed.

(** X18: on a plan with distinct ids, when the execution of every task
    succeeds, [executeInternally] returns the plan with the same ids in the
    same order, every task completed and the status completed. *)
Theorem executeInternally_completes_the_plan :
  forall (attempts : nat -> TracerLite.attempt) (continues : nat -> bool)
         (p : Plan),
    NoDup (map id (tasks p)) ->
    (forall n, snd (TracerLite.executeTaskWithGemini (attempts n)) = true) ->
    exists p',
      TracerLite.executeInternally attempts continues p = Some p' /\
      plan_status p' = plan_completed /\
      map id (tasks p') = map id (tasks p) /\
      forall t, In t (tasks p') -> status t = completed.
Proof.
  intros attempts continues p Hnd Hok. unfold TracerLite.executeInternally.
  destruct (topologicalSort_permutation (tasks p) Hnd) as (sorted & -> & Hp).
  set (store := TracerLite.run attempts continues sorted 0 (tasks p)).
  assert (Hall : forall t, In t store -> status t = completed).
  { intros t Ht.
    destruct (run_all_succeed attempts continues Hok sorted 0 (tasks p) t
                Hnd Ht) as [[_ Hs]|[Hnin Hin]]; [assumption|].
    exfalso. apply Hnin.
    apply (Permutation_in _ (Permutation_sym (Permutation_map id Hp))).
    unfold store in Ht. apply (in_map id) in Ht. rewrite run_ids in Ht.
    assumption. }
  eexists. split; [reflexivity|]. cbn [plan_status tasks].
  split; [|split; [apply run_ids|exact Hall]].
  assert (Hf : forallb (fun task => TaskStatus_eqb (status task) completed)
                 store = true).
  { apply forallb_forall. intros t Ht. rewrite (Hall t Ht). reflexivity. }
  fold store. rewrite Hf. reflexivity.
Qed.

Lemma executeInternally_completes_the_plan_witness :
  exists p',
    TracerLite.executeInternally
      (fun _ => TracerLite.mkAttempt true false accept false false)
      (fun _ => false) (sample_plan pending pending) = Some p' /\
    plan_status p' = plan_completed /\
    map id (tasks p') = map id (tasks (sample_plan pending pending)) /\
    forall t, In t (tasks p') -> status t = completed.
Proof.
  apply (executeInternally_completes_the_plan
           (fun _ => TracerLite.mkAttempt true false accept false false)
           (fun _ => false) (sample_plan pending pending)).
  - simpl. repeat constructor; simpl; intuition discriminate.
  - intros n. reflexivity.
Defined.

(** ** The mutators of the TracerLite class *)

Lemma splice1_drops_id :
  forall (l : list Task) (i : nat) (x w : Task),
    NoDup (map id l) -> nth_error l i = Some x ->
    In w (splice1 i l) -> id w <> id x.
Proof.
  unfold splice1. induction l as [|a l IH]; intros i x w Hnd Hn Hw.
  - destruct i; discriminate.
  - simpl in Hnd. inversion Hnd as [|? ? Ha Hnd']; subst.
    destruct i as [|i]; simpl in *.
    + inversion Hn; subst. intros E. apply Ha. rewrite <- E.
      apply in_map. assumption.
    + destruct Hw as [<-|Hw].
      * intros E. apply Ha. rewrite E. apply in_map.
        eapply nth_error_In. eassumption.
      * eapply IH; eassumption.
Qed.

Lemma In_findInvalid :
  forall ts t d,
    In t ts -> In d (dependencies t) -> (forall u, In u ts -> id u <> d) ->
    In (invalid_label (id t, d)) (findInvalidDependencies ts).
Proof.
  intros ts t d Ht Hd Hn. apply In_findInvalidDependencies.
  exists t, d. auto.
Qed.

(** X19: the [removeTask] of the TracerLite class leaves the dependencies
    as they are: on a plan with distinct ids, a remaining task that
    depended on the removed one still names it, and
    [findInvalidDependencies] reports it. *)
Theorem TracerLite_removeTask_leaves_dangling_reference :
  forall (p : Plan) (i : Z) (h : Host) (removed u : Task),
    (0 <= i < Z.of_nat (length (tasks p)))%Z ->
    NoDup (map id (tasks p)) ->
    nth_error (tasks p) (Z.to_nat i) = Some removed ->
    In u (tasks p) -> u <> removed ->
    In (id removed) (dependencies u) ->
    exists p' h',
      TracerLite.removeTask p i h = (Ok p', h') /\
      In u (tasks p') /\
      In (invalid_label (id u, id removed)) (findInvalidDependencies (tasks p')).
Proof.
  intros p i h removed u Hi Hnd Hn Hu Hne Hd.
  apply in_range_spec in Hi as Hr. unfold TracerLite.removeTask. rewrite Hr.
  eexists. eexists. split; [reflexivity|]. cbn [set_tasks tasks].
  assert (Hin : In u (splice1 (Z.to_nat i) (tasks p))).
  { destruct (splice1_keeps _ _ _ _ _ Hn Hu); [contradiction|assumption]. }
  split; [assumption|]. apply In_findInvalid; try assumption.
  intros w Hw. eapply splice1_drops_id; eassumption.
Qed.

Lemma TracerLite_removeTask_leaves_dangling_reference_witness :
  exists p' h',
    TracerLite.removeTask (sample_plan pending pending) 0 sample_host
      = (Ok p', h') /\
    In (sample_task "B" ["A"] pending) (tasks p') /\
    In (invalid_label (id (sample_task "B" ["A"] pending),
                       id (sample_task "A" [] pending)))
       (findInvalidDependencies (tasks p')).
Proof.
  apply (TracerLite_removeTask_leaves_dangling_reference
           (sample_plan pending pending) 0 sample_host
           (sample_task "A" [] pending) (sample_task "B" ["A"] pending)).
  - simpl. lia.
  - simpl. repeat constructor; simpl; intuition discriminate.
  - reflexivity.
  - right. left. reflexivity.
  - discriminate.
  - left. reflexivity.
Defined.

(** X20: the [modifyTask] of the TracerLite class gives the task the id
    the answer holds, when the answer is an object with an [id]. *)
Theorem TracerLite_modifyTask_takes_the_id_of_the_answer :
  forall (p : Plan) (i : Z) (response : string) (h : Host)
         (props : list (string * Js.value)) (newId : Js.value),
    (0 <= i < Z.of_nat (length (tasks p)))%Z ->
    Js.JSON_parse (response_text response) = Some (Js.VObj props) ->
    Js.obj_get "id" (rev props) = Some newId ->
    exists v h' o,
      TracerLite.modifyTask p i response h = (Ok v, h') /\
      nth_error (tasks_of v) (Z.to_nat i) = Some o /\
      prop "id" o = Some newId.
Proof.
  intros p i response h props newId Hi Hp Hid.
  apply in_range_spec in Hi as Hr.
  destruct (in_range_nth i p Hr) as [t Ht].
  unfold TracerLite.modifyTask, try_catch. rewrite Hr, Hp, Ht. cbn [negb].
  eexists. eexists. exists (TracerLite.merge_task t (Js.VObj props)).
  split; [reflexivity|].
  cbn [plan_object tasks_of Js.obj_get String.eqb Ascii.eqb Bool.eqb].
  split.
  - rewrite nth_error_replace_nth, Nat.eqb_refl, nth_error_map, Ht.
    reflexivity.
  - unfold TracerLite.merge_task, prop. rewrite obj_get_assign.
    cbn [Js.spread_props]. rewrite Hid. reflexivity.
Qed.

Lemma TracerLite_modifyTask_takes_the_id_of_the_answer_witness :
  exists v h' o,
    TracerLite.modifyTask (sample_plan pending pending) 1 sample_answer
      sample_host = (Ok v, h') /\
    nth_error (tasks_of v) (Z.to_nat 1) = Some o /\
    prop "id" o = Some (Js.VStr "X").
Proof.
  apply (TracerLite_modifyTask_takes_the_id_of_the_answer
           (sample_plan pending pending) 1 sample_answer sample_host
           [("id", Js.VStr "X"); ("title", Js.VStr "New title")]
           (Js.VStr "X")).
  - simpl. lia.
  - vm_compute. reflexivity.
  - reflexivity.
Defined.

(** ** Tasks that share an id are not all run *)







(** ** The task executor *)

Lemma executeTask_outcome :
  forall a t t' ok,
    TaskExecutor.executeTask a t = Some (t', ok) ->
    id t' = id t /\
    (ok = true -> status t' = completed /\ exists c, code t' = Some c) /\
    (ok = false -> status t' = pending \/ status t' = failed).
Proof.
  intros a t t' ok. unfold TaskExecutor.executeTask.
  destruct (TaskExecutor.passed a).
  { intros H. inversion H; subst. simpl. split; [reflexivity|].
    split; [eauto|discriminate]. }
  induction (TaskExecutor.choices a) as [|c cs IH]; [discriminate|].
  destruct c; simpl; try assumption; intros H.
  - unfold TaskExecutor.retryTaskExecution in H.
    destruct (TaskExecutor.repassed a); inversion H; subst; simpl.
    + split; [reflexivity|]. split; [eauto|discriminate].
    + split; [reflexivity|]. split; [discriminate|auto].
  - inversion H; subst. simpl. split; [reflexivity|].
    split; [eauto|discriminate].
  - inversion H; subst. simpl. split; [reflexivity|].
    split; [discriminate|auto].
Qed.

Lemma loop_completed :
  forall attempts todo i done ts,
    TaskExecutor.loop attempts i done todo = Some (ts, plan_completed) ->
    exists after, ts = done ++ after /\ ran_to_completion todo after.
Proof.
  intros attempts. induction todo as [|t todo IH]; intros i done ts H.
  - inversion H; subst. exists []. rewrite app_nil_r. split; constructor.
  - cbn [TaskExecutor.loop] in H.
    destruct (TaskStatus_eqb_spec (status t) pending) as [Hp|Hp].
    + destruct (TaskExecutor.executeTask (attempts i) t) as [[t' [|]]|] eqn:E;
        try discriminate.
      apply executeTask_outcome in E. destruct E as (Hid & Hok & _).
      destruct (IH _ _ _ H) as (after & -> & Hr).
      exists (t' :: after). rewrite <- app_assoc. split; [reflexivity|].
      constructor; [|assumption].
      split; [assumption|]. split; [intros _; auto|contradiction].
    + destruct (IH _ _ _ H) as (after & -> & Hr).
      exists (t :: after). rewrite <- app_assoc. split; [reflexivity|].
      constructor; [|assumption].
      split; [reflexivity|]. split; [contradiction|reflexivity].
Qed.

(** A run that failed stopped at the first pending task whose execution
    did not succeed; the tasks after it are as they were. *)
Lemma loop_failed :
  forall attempts todo i done ts,
    TaskExecutor.loop attempts i done todo = Some (ts, plan_failed) ->
    exists before t after before' t',
      todo = before ++ t :: after /\
      ts = done ++ before' ++ t' :: after /\
      ran_to_completion before before' /\
      status t = pending /\ id t' = id t /\
      (status t' = pending \/ status t' = failed).
Proof.
  intros attempts. induction todo as [|t todo IH]; intros i done ts H.
  - discriminate.
  - cbn [TaskExecutor.loop] in H.
    destruct (TaskStatus_eqb_spec (status t) pending) as [Hp|Hp].
    + destruct (TaskExecutor.executeTask (attempts i) t) as [[t' [|]]|] eqn:E;
        try discriminate.
      * apply executeTask_outcome in E. destruct E as (Hid & Hok & _).
        destruct (IH _ _ _ H)
          as (b & u & a & b' & u' & -> & -> & Hr & Hu & Hid' & Hs).
        exists (t :: b), u, a, (t' :: b'), u'.
        split; [reflexivity|]. split; [rewrite <- app_assoc; reflexivity|].
        split; [|auto].
        constructor; [|assumption].
        split; [assumption|]. split; [intros _; auto|contradiction].
      * inversion H; subst.
        apply executeTask_outcome in E. destruct E as (Hid & _ & Hno).
        exists [], t, todo, [], t'.
        repeat (split; [first [reflexivity|assumption|constructor]|]).
        auto.
    + destruct (IH _ _ _ H)
        as (b & u & a & b' & u' & -> & -> & Hr & Hu & Hid' & Hs).
      exists (t :: b), u, a, (t :: b'), u'.
      split; [reflexivity|]. split; [rewrite <- app_assoc; reflexivity|].
      split; [|auto].
      constructor; [|assumption].
      split; [reflexivity|]. split; [contradiction|reflexivity].
Qed.

Lemma loop_status :
  forall attempts todo i done ts s,
    TaskExecutor.loop attempts i done todo = Some (ts, s) ->
    s = plan_completed \/ s = plan_failed.
Proof.
  intros attempts. induction todo as [|t todo IH]; intros i done ts s H.
  - inversion H. auto.
  - cbn [TaskExecutor.loop] in H.
    destruct (TaskStatus_eqb (status t) pending); [|eauto].
    destruct (TaskExecutor.executeTask (attempts i) t) as [[t' [|]]|];
      [eauto|inversion H; auto|discriminate].
Qed.

Lemma loop_nothing_pending :
  forall attempts todo i done,
    (forall t, In t todo -> status t <> pending) ->
    TaskExecutor.loop attempts i done todo
    = Some (done ++ todo, plan_completed).
Proof.
  intros attempts. induction todo as [|t todo IH]; intros i done H.
  - simpl. rewrite app_nil_r. reflexivity.
  - cbn [TaskExecutor.loop].
    destruct (TaskStatus_eqb_spec (status t) pending) as [Hp|Hp].
    + exfalso. exact (H t (or_introl eq_refl) Hp).
    + rewrite IH; [|intros u Hu; apply H; right; assumption].
      rewrite <- app_assoc. reflexivity.
Qed.

(** X22: when [executePlan] returns, the status of the plan is completed
    or failed.  When it is completed, every task that was pending is
    completed and carries code, and the other tasks, failed ones included,
    are as they were.  When it is failed, the run stopped at the first
    pending task whose execution did not succeed: that task is left
    pending or failed, the tasks before it are as after a completed run
    and the tasks after it are untouched. *)
Theorem executePlan_ends_completed_or_failed :
  forall (attempts : nat -> TaskExecutor.attempt) (p p' : Plan),
    TaskExecutor.executePlan attempts p = Some p' ->
    (plan_status p' = plan_completed /\
     ran_to_completion (tasks p) (tasks p')) \/
    (plan_status p' = plan_failed /\
     exists before t after before' t',
       tasks p = before ++ t :: after /\
       tasks p' = before' ++ t' :: after /\
       ran_to_completion before before' /\
       status t = pending /\ id t' = id t /\
       (status t' = pending \/ status t' = failed)).
Proof.
  intros attempts p p' H. unfold TaskExecutor.executePlan in H.
  destruct (TaskExecutor.loop attempts 0 [] (tasks p)) as [[ts s]|] eqn:E;
    [|discriminate].
  inversion H; subst. cbn [plan_status tasks].
  destruct (loop_status _ _ _ _ _ _ E) as [-> | ->]; [left|right].
  - split; [reflexivity|].
    destruct (loop_completed _ _ _ _ _ E) as (after & -> & Hr). exact Hr.
  - split; [reflexivity|].
    destruct (loop_failed _ _ _ _ _ E)
      as (b & t & a & b' & t' & Hb & -> & Hrest).
    exists b, t, a, b', t'. split; [assumption|]. split; [reflexivity|].
    exact Hrest.
Qed.

Lemma executePlan_ends_completed_or_failed_witness :
  exists p',
    TaskExecutor.executePlan
      (fun _ => TaskExecutor.mkAttempt "code" true [] "" false)
      (sample_plan completed pending) = Some p' /\
    ((plan_status p' = plan_completed /\
      ran_to_completion (tasks (sample_plan completed pending)) (tasks p')) \/
     (plan_status p' = plan_failed /\
      exists before t after before' t',
        tasks (sample_plan completed pending) = before ++ t :: after /\
        tasks p' = before' ++ t' :: after /\
        ran_to_completion before before' /\
        status t = pending /\ id t' = id t /\
        (status t' = pending \/ status t' = failed))).
Proof.
  eexists. split; [reflexivity|].
  apply (executePlan_ends_completed_or_failed
           (fun _ => TaskExecutor.mkAttempt "code" true [] "" false)
           (sample_plan completed pending)).
  reflexivity.
Defined.

(** X23: on a plan without a pending task [executePlan] runs nothing and
    marks the plan completed, whatever the status of its tasks. *)
Theorem executePlan_without_pending_task :
  forall (attempts : nat -> TaskExecutor.attempt) (p : Plan),
    (forall t, In t (tasks p) -> status t <> pending) ->
    TaskExecutor.executePlan attempts p
    = Some (mkPlan (plan_id p) (plan_title p) (plan_description p) (tasks p)
                   (created p) (updated p) plan_completed).
Proof.
  intros attempts p H. unfold TaskExecutor.executePlan.
  rewrite loop_nothing_pending by assumption. reflexivity.
Qed.

Lemma executePlan_without_pending_task_witness :
  TaskExecutor.executePlan
    (fun _ => TaskExecutor.mkAttempt "" false [] "" false)
    (sample_plan failed failed)
  = Some (mkPlan (plan_id (sample_plan failed failed))
                 (plan_title (sample_plan failed failed))
                 (plan_description (sample_plan failed failed))
                 (tasks (sample_plan failed failed))
                 (created (sample_plan failed failed))
                 (updated (sample_plan failed failed)) plan_completed).
Proof.
  apply (executePlan_without_pending_task
           (fun _ => TaskExecutor.mkAttempt "" false [] "" false)
           (sample_plan failed failed)).
  simpl. intros t [<-|[<-|[]]]; discriminate.
Defined.

(** ** The verdict on the requirements, and [createPlan] *)

Local Open Scope string_scope.

Lemma toLowerCase_app :
  forall a b, toLowerCase (a ++ b) = toLowerCase a ++ toLowerCase b.
Proof.
  induction a as [|c a IH]; intros b; [reflexivity|].
  simpl. rewrite IH. reflexivity.
Qed.

Lemma prefix_app : forall n b, String.prefix n (n ++ b) = true.
Proof.
  induction n as [|c n IH]; intros b; [destruct b; reflexivity|].
  simpl. rewrite IH. destruct (ascii_dec c c); [reflexivity|congruence].
Qed.

Lemma includes_eq :
  forall n s,
    includes n s
    = String.prefix n s ||
      match s with
      | EmptyString => false
      | String _ r => includes n r
      end.
Proof. intros n [|c r]; reflexivity. Qed.

Lemma includes_app :
  forall n a b, includes n (a ++ n ++ b) = true.
Proof.
  intros n. induction a as [|c a IH]; intros b.
  - rewrite includes_eq. change ("" ++ n ++ b) with (n ++ b).
    rewrite prefix_app. reflexivity.
  - change (String c a ++ n ++ b) with (String c (a ++ n ++ b)).
    rewrite includes_eq. cbv beta iota. rewrite IH. apply orb_true_r.
Qed.

(** X24: [validateRequirements] takes an answer that holds [INVALID:] as
    a positive verdict, since [valid:] occurs in its lower case; the
    feedback is the answer as it is. *)
Theorem validateRequirements_accepts_INVALID :
  forall (before after : string),
    fst (validateRequirements (before ++ "INVALID:" ++ after)) = true /\
    snd (validateRequirements (before ++ "INVALID:" ++ after))
    = before ++ "INVALID:" ++ after.
Proof.
  intros before after. split; [|reflexivity].
  unfold validateRequirements. cbn [fst].
  rewrite toLowerCase_app.
  change ("INVALID:" ++ after) with ("IN" ++ "VALID:" ++ after).
  rewrite toLowerCase_app, toLowerCase_app.
  change (toLowerCase "VALID:") with "valid:".
  rewrite <- RoundTripFacts.append_assoc.
  apply includes_app.
Qed.

Example validateRequirements_samples :
  fst (validateRequirements "VALID: clear and actionable") = true /\
  fst (validateRequirements "INVALID: too vague") = true /\
  fst (validateRequirements "") = false /\
  fst (validateRequirements "The requirements are fine.") = false.
Proof. repeat split. Qed.

(** X25: [createPlan] never throws and returns a draft plan whose tasks
    are all pending, with a truthy id, a priority among low, medium and
    high, and arrays for [files] and [dependencies]; on an empty answer the
    plan is the fallback plan, whose description is the requirements. *)
Theorem createPlan_builds_well_formed_tasks :
  forall (requirements planResponse : string) (h : Host),
    exists v h',
      createPlan requirements planResponse h = (Ok v, h') /\
      prop "status" v = Some (Js.VStr "draft") /\
      Forall well_formed_task (tasks_of v) /\
      (planResponse = "" ->
       prop "title" v = Some (Js.VStr "Manual Implementation Plan") /\
       prop "description" v = Some (Js.VStr requirements) /\
       length (tasks_of v) = 1).
Proof.
  intros requirements planResponse h. unfold createPlan.
  destruct (String.eqb_spec planResponse "") as [->|Hne].
  - eexists. eexists. split; [reflexivity|].
    split; [reflexivity|]. split.
    + eapply (fallback_well_formed requirements h). reflexivity.
    + intros _. repeat split.
  - destruct (parsePlanResponse_well_formed planResponse
                requirements h) as (v & h' & E & Hs & Hw).
    exists v, h'. repeat (split; [assumption|]). intros F. contradiction.
Qed.

Local Open Scope list_scope.

(** ** [calculateTotalTime] *)

Local Open Scope string_scope.

Lemma span_digits_app :
  forall d x,
    all_digits d = true ->
    match x with String c _ => Js.is_digit c = false | EmptyString => True end ->
    span_digits (d ++ x) = (d, x).
Proof.
  induction d as [|c d IH]; intros x Hd Hx.
  - simpl. destruct x as [|c r]; [reflexivity|]. simpl. rewrite Hx.
    reflexivity.
  - simpl in *. apply andb_true_iff in Hd. destruct Hd as [-> Hd].
    rewrite IH by assumption. reflexivity.
Qed.

Lemma unit_at_front :
  forall s u,
    unit_at s = Some u ->
    exists c r, s = String c r /\
      (lower c = "m"%char \/ lower c = "h"%char).
Proof.
  intros [|c r] u H; [discriminate|]. exists c, r. split; [reflexivity|].
  unfold unit_at in H. simpl in H.
  destruct (Ascii.eqb_spec (lower c) "m") as [E|E]; [auto|].
  destruct (Ascii.eqb_spec (lower c) "h") as [E'|E']; [auto|].
  simpl in H. discriminate.
Qed.

Lemma letter_front :
  forall c r,
    lower c = "m"%char \/ lower c = "h"%char ->
    space_width (String c r) = 0 /\ Js.is_digit c = false.
Proof.
  intros c r H.
  assert (Hc : c = "m"%char \/ c = "M"%char \/ c = "h"%char \/ c = "H"%char).
  { destruct c as [[] [] [] [] [] [] [] []]; vm_compute in H;
      destruct H as [H|H]; try discriminate; auto. }
  destruct Hc as [-> | [-> | [-> | ->]]]; split; try reflexivity;
    destruct r as [|b [|c' r']]; reflexivity.
Qed.

Lemma skip_spaces_spaces :
  forall k fuel tail,
    k <= fuel -> space_width tail = 0 ->
    skip_spaces fuel (spaces k ++ tail) = tail.
Proof.
  induction k as [|k IH]; intros fuel tail Hk Ht.
  - simpl. destruct fuel; [reflexivity|]. simpl. rewrite Ht. reflexivity.
  - destruct fuel as [|fuel]; [lia|].
    change (spaces (S k) ++ tail) with (String " " (spaces k ++ tail)).
    cbn [skip_spaces]. change (space_width (String " " (spaces k ++ tail)))
      with 1. cbn [Js.drop]. apply IH; [lia|assumption].
Qed.

Lemma length_spaces_app :
  forall k tail, k <= String.length (spaces k ++ tail).
Proof.
  induction k as [|k IH]; intros tail; simpl; [lia|].
  specialize (IH tail). lia.
Qed.

Lemma timeMatch_at :
  forall s m, match_at s = Some m -> timeMatch s = Some m.
Proof.
  intros [|c r] m H; cbn [timeMatch]; rewrite H; reflexivity.
Qed.

Lemma timeMatch_front :
  forall d k tail u,
    all_digits d = true -> d <> "" ->
    unit_at tail = Some u ->
    timeMatch (d ++ spaces k ++ tail) = Some (d, u).
Proof.
  intros d k tail u Hd Hne Hu.
  destruct (unit_at_front _ _ Hu) as (c & r & -> & Hc).
  destruct (letter_front c r Hc) as [Hw Hnd].
  assert (Hm : match_at (d ++ spaces k ++ String c r) = Some (d, u)).
  { unfold match_at. rewrite span_digits_app.
    - destruct d as [|a d]; [congruence|].
      rewrite skip_spaces_spaces;
        [rewrite Hu; reflexivity|apply length_spaces_app|assumption].
    - assumption.
    - destruct k; simpl; [assumption|reflexivity]. }
  apply timeMatch_at. assumption.
Qed.

Lemma timeMatch_no_digit :
  forall s, has_digit s = false -> timeMatch s = None.
Proof.
  induction s as [|c s IH]; intros H; [reflexivity|].
  simpl in H. apply orb_false_iff in H. destruct H as [Hc H].
  cbn [timeMatch]. unfold match_at. cbn [span_digits]. rewrite Hc.
  apply IH. assumption.
Qed.

Lemma totalMinutes_default :
  forall ts total,
    (forall t, In t ts -> has_digit (estimatedTime t) = false) ->
    (total + 30 * Z.of_nat (length ts) < exact_limit)%Z ->
    totalMinutes total ts = Some (total + 30 * Z.of_nat (length ts))%Z.
Proof.
  induction ts as [|t ts IH]; intros total Hn Hl.
  - simpl. f_equal. lia.
  - cbn [totalMinutes]. unfold taskMinutes.
    rewrite (timeMatch_no_digit _ (Hn t (or_introl eq_refl))).
    cbn [length] in *. rewrite Nat2Z.inj_succ in *.
    destruct (Z.ltb_spec (total + 30) exact_limit) as [_|F]; [|lia].
    rewrite IH; [f_equal; lia| |lia].
    intros u Hu. apply Hn. right. assumption.
Qed.

(** X26: an estimate that starts with a run of digits, any number of blanks
    and a word starting with min, hour or hr (in any case, whatever
    follows) counts as that many minutes, or sixty times as many for
    hours. *)
Theorem taskMinutes_reads_number_and_unit :
  forall (digits : string) (k : nat) (tail : string) (hours : bool),
    all_digits digits = true -> digits <> "" ->
    unit_at tail = Some hours ->
    ((if hours then decimal 0 digits * 60 else decimal 0 digits)
     < exact_limit)%Z ->
    taskMinutes (digits ++ spaces k ++ tail)
    = Some (if hours then decimal 0 digits * 60 else decimal 0 digits)%Z.
Proof.
  intros digits k tail hours Hd Hne Hu Hl. unfold taskMinutes.
  rewrite (timeMatch_front digits k tail hours Hd Hne Hu). cbv zeta.
  apply Z.ltb_lt in Hl. rewrite Hl. reflexivity.
Qed.

Lemma taskMinutes_reads_number_and_unit_witness :
  taskMinutes ("2" ++ spaces 1 ++ "hours of work")
  = Some (if true then decimal 0 "2" * 60 else decimal 0 "2")%Z.
Proof.
  apply (taskMinutes_reads_number_and_unit "2" 1 "hours of work" true).
  - reflexivity.
  - discriminate.
  - reflexivity.
  - reflexivity.
Defined.

(** X27: when no estimate of the plan holds a digit, every task counts
    for 30 minutes: the total is that of 30 minutes per task. *)
Theorem calculateTotalTime_defaults_to_30_minutes :
  forall (p : Plan),
    (forall t, In t (tasks p) -> has_digit (estimatedTime t) = false) ->
    (30 * Z.of_nat (length (tasks p)) < exact_limit)%Z ->
    calculateTotalTime p
    = Some (formatMinutes (30 * Z.of_nat (length (tasks p)))).
Proof.
  intros p Hn Hl. unfold calculateTotalTime.
  rewrite (totalMinutes_default (tasks p) 0 Hn Hl). reflexivity.
Qed.

Lemma calculateTotalTime_defaults_to_30_minutes_witness :
  calculateTotalTime
    (mkPlan "plan-1" "Plan" "A plan"
       [mkTask "A" "title" "description" [] [] pending "soon" medium None;
        mkTask "B" "title" "description" [] ["A"] pending "" medium None]
       (Date_ms 5) (Date_ms 6) draft)
  = Some (formatMinutes (30 * Z.of_nat 2)).
Proof.
  apply (calculateTotalTime_defaults_to_30_minutes
           (mkPlan "plan-1" "Plan" "A plan"
              [mkTask "A" "title" "description" [] [] pending "soon" medium
                 None;
               mkTask "B" "title" "description" [] ["A"] pending "" medium
                 None]
              (Date_ms 5) (Date_ms 6) draft)).
  - intros t [<- | [<- | []]]; reflexivity.
  - reflexivity.
Defined.

Example calculateTotalTime_samples :
  map taskMinutes
    ["30 minutes"; "2 hours"; "1hr"; "45"; "about 15 Mins or so";
     "1.5 hours"; "3 days, 2 hours"; "12 m"; ""]
  = [Some 30; Some 120; Some 60; Some 30; Some 15; Some 300; Some 120;
     Some 30; Some 30]%Z /\
  map formatMinutes [0; 59; 60; 150]%Z = ["0m"; "59m"; "1h"; "2h 30m"].
Proof. split; reflexivity. Qed.

Local Open Scope list_scope.
